(** * useWeft client 0.2.0: bundle resolution and cache tiering

    A shallow embedding of [src/client/useweft-0.2.0.js] and the properties
    its specification states about it.

    - JavaScript strings are sequences of UTF-16 code units ([jsstring]).
    - The platform primitives the client calls ([TextEncoder.encode],
      [crypto.subtle.digest("SHA-256", _)], [Number.prototype.toString(16)],
      [Array.prototype.sort]) are modelled from their standards, executable.
    - The module-level variables of the script, the document, the two storage
      areas and the pending promise continuations form one [State]; every
      callback of the script is a transition on it. *)

From Stdlib Require Import NArith List Lia Ascii.
From stdpp Require Import gmap list sorting strings.
Import ListNotations.

Local Open Scope N_scope.

(** ** JavaScript strings *)

Module Js.

(** A string value: its UTF-16 code units. *)
Abbreviation jsstring := (list N).

(** String literals of the source, which are all ASCII. *)
Fixpoint lit (s : string) : jsstring :=
  match s with
  | EmptyString => []
  | String c r => N_of_ascii c :: lit r
  end.

(** The one-character string ["\n"]. *)
Definition LF : jsstring := [10].

(** [ToBoolean] on a value that is [null]/[undefined] ([None]) or a string. *)
Definition truthy (v : option jsstring) : option jsstring :=
  match v with
  | Some (c :: r) => Some (c :: r)
  | _ => None
  end.

(** [ToString] on a value that is [undefined] ([None]) or a string. *)
Definition toStr (v : option jsstring) : jsstring :=
  match v with
  | Some x => x
  | None => lit "undefined"
  end.

(** [Array.prototype.join] on an array of strings. *)
Fixpoint join (sep : jsstring) (l : list jsstring) : jsstring :=
  match l with
  | [] => []
  | [x] => x
  | x :: r => x ++ sep ++ join sep r
  end.

(** [String.prototype.slice(0, n)]. *)
Definition slice0 (n : nat) (s : jsstring) : jsstring := take n s.

(** The digit characters [0-9a-f] used by [Number.prototype.toString(16)]. *)
Definition hexdigit (d : N) : N := if d <? 10 then 48 + d else 87 + d.

Fixpoint toString16_digits (fuel : nat) (n : N) : jsstring :=
  match fuel with
  | O => [hexdigit n]
  | S f =>
      if n <? 16 then [hexdigit n]
      else toString16_digits f (n / 16) ++ [hexdigit (n mod 16)]
  end.

(** [n.toString(16)] for a non-negative integer [n]. *)
Definition toString16 (n : N) : jsstring :=
  toString16_digits (N.to_nat (N.log2 n)) n.

(** The comparison [Array.prototype.sort] uses without a comparator: strings
    are ordered by their code units, a proper prefix first. *)
Fixpoint lexleb (a b : jsstring) : bool :=
  match a, b with
  | [], _ => true
  | _ :: _, [] => false
  | x :: a', y :: b' =>
      if x <? y then true else if x =? y then lexleb a' b' else false
  end.

Definition lexle (a b : jsstring) : Prop := lexleb a b.

#[export] Instance lexle_dec : RelDecision lexle := λ a b, Is_true_dec (lexleb a b).

(** [Array.prototype.sort()] on an array of strings. *)
Definition sort (l : list jsstring) : list jsstring := merge_sort lexle l.

(** [new TextEncoder().encode(s)]: the UTF-8 bytes of [s]; a surrogate pair
    is one code point, a lone surrogate is replaced by U+FFFD. *)
Definition utf8_2 (c : N) : list N :=
  [N.lor 0xC0 (N.shiftr c 6); N.lor 0x80 (N.land c 0x3F)].
Definition utf8_3 (c : N) : list N :=
  [N.lor 0xE0 (N.shiftr c 12);
   N.lor 0x80 (N.land (N.shiftr c 6) 0x3F);
   N.lor 0x80 (N.land c 0x3F)].
Definition utf8_4 (c : N) : list N :=
  [N.lor 0xF0 (N.shiftr c 18);
   N.lor 0x80 (N.land (N.shiftr c 12) 0x3F);
   N.lor 0x80 (N.land (N.shiftr c 6) 0x3F);
   N.lor 0x80 (N.land c 0x3F)].

Definition isHigh (c : N) : bool := (0xD800 <=? c) && (c <? 0xDC00).
Definition isLow (c : N) : bool := (0xDC00 <=? c) && (c <? 0xE000).

Fixpoint encode (s : jsstring) : list N :=
  match s with
  | [] => []
  | c :: r =>
      if c <? 0x80 then c :: encode r
      else if c <? 0x800 then utf8_2 c ++ encode r
      else if isHigh c then
        match r with
        | d :: r' =>
            if isLow d
            then utf8_4 (0x10000 + N.shiftl (c - 0xD800) 10 + (d - 0xDC00))
                   ++ encode r'
            else utf8_3 0xFFFD ++ encode r
        | [] => utf8_3 0xFFFD
        end
      else if isLow c then utf8_3 0xFFFD ++ encode r
      else utf8_3 c ++ encode r
  end.

End Js.

(** ** SHA-256 (FIPS 180-4), the digest behind [crypto.subtle.digest] *)

Module Sha256.

Definition w32 (x : N) : N := x mod 2 ^ 32.
Definition add32 (x y : N) : N := w32 (x + y).
Definition rotr (n x : N) : N := N.lor (N.shiftr x n) (w32 (N.shiftl x (32 - n))).
Definition not32 (x : N) : N := N.lxor x 0xFFFFFFFF.

Definition Ch (x y z : N) : N := N.lxor (N.land x y) (N.land (not32 x) z).
Definition Maj (x y z : N) : N :=
  N.lxor (N.lxor (N.land x y) (N.land x z)) (N.land y z).
Definition bsig0 (x : N) : N := N.lxor (N.lxor (rotr 2 x) (rotr 13 x)) (rotr 22 x).
Definition bsig1 (x : N) : N := N.lxor (N.lxor (rotr 6 x) (rotr 11 x)) (rotr 25 x).
Definition ssig0 (x : N) : N := N.lxor (N.lxor (rotr 7 x) (rotr 18 x)) (N.shiftr x 3).
Definition ssig1 (x : N) : N := N.lxor (N.lxor (rotr 17 x) (rotr 19 x)) (N.shiftr x 10).

Definition K : list N :=
  concat
    [ [0x428a2f98; 0x71374491; 0xb5c0fbcf; 0xe9b5dba5];
      [0x3956c25b; 0x59f111f1; 0x923f82a4; 0xab1c5ed5];
      [0xd807aa98; 0x12835b01; 0x243185be; 0x550c7dc3];
      [0x72be5d74; 0x80deb1fe; 0x9bdc06a7; 0xc19bf174];
      [0xe49b69c1; 0xefbe4786; 0x0fc19dc6; 0x240ca1cc];
      [0x2de92c6f; 0x4a7484aa; 0x5cb0a9dc; 0x76f988da];
      [0x983e5152; 0xa831c66d; 0xb00327c8; 0xbf597fc7];
      [0xc6e00bf3; 0xd5a79147; 0x06ca6351; 0x14292967];
      [0x27b70a85; 0x2e1b2138; 0x4d2c6dfc; 0x53380d13];
      [0x650a7354; 0x766a0abb; 0x81c2c92e; 0x92722c85];
      [0xa2bfe8a1; 0xa81a664b; 0xc24b8b70; 0xc76c51a3];
      [0xd192e819; 0xd6990624; 0xf40e3585; 0x106aa070];
      [0x19a4c116; 0x1e376c08; 0x2748774c; 0x34b0bcb5];
      [0x391c0cb3; 0x4ed8aa4a; 0x5b9cca4f; 0x682e6ff3];
      [0x748f82ee; 0x78a5636f; 0x84c87814; 0x8cc70208];
      [0x90befffa; 0xa4506ceb; 0xbef9a3f7; 0xc67178f2] ].

(** The eight working variables, also the intermediate hash value. *)
Record regs := Regs { ra : N; rb : N; rc : N; rd : N; re : N; rf : N; rg : N; rh : N }.

Definition H0 : regs :=
  Regs 0x6a09e667 0xbb67ae85 0x3c6ef372 0xa54ff53a
       0x510e527f 0x9b05688c 0x1f83d9ab 0x5be0cd19.

(** Padding: a 1 bit, zeros up to 56 mod 64 bytes, the bit length on 8 bytes. *)
Definition be_bytes (k : nat) (x : N) : list N :=
  map (λ i, N.land (N.shiftr x (8 * N.of_nat i)) 0xFF) (rev (seq 0 k)).

Definition pad (m : list N) : list N :=
  let len := N.of_nat (length m) in
  let zeros := N.to_nat ((64 - (len + 9) mod 64) mod 64) in
  m ++ [0x80] ++ repeat 0 zeros ++ be_bytes 8 (8 * len).

Fixpoint be_words (bs : list N) : list N :=
  match bs with
  | b0 :: b1 :: b2 :: b3 :: r =>
      (N.shiftl b0 24 + N.shiftl b1 16 + N.shiftl b2 8 + b3) :: be_words r
  | _ => []
  end.

(** The message schedule, newest word first. *)
Fixpoint schedule (k : nat) (rw : list N) : list N :=
  match k with
  | O => rw
  | S k' =>
      let wt := add32 (add32 (ssig1 (nth 1 rw 0)) (nth 6 rw 0))
                      (add32 (ssig0 (nth 14 rw 0)) (nth 15 rw 0)) in
      schedule k' (wt :: rw)
  end.

Definition round (r : regs) (kw : N * N) : regs :=
  let t1 := add32 (add32 (add32 (rh r) (bsig1 (re r)))
                         (add32 (Ch (re r) (rf r) (rg r)) kw.1)) kw.2 in
  let t2 := add32 (bsig0 (ra r)) (Maj (ra r) (rb r) (rc r)) in
  Regs (add32 t1 t2) (ra r) (rb r) (rc r) (add32 (rd r) t1) (re r) (rf r) (rg r).

Definition compress (h : regs) (block : list N) : regs :=
  let w := rev (schedule 48 (rev (be_words block))) in
  let r := fold_left round (zip K w) h in
  Regs (add32 (ra h) (ra r)) (add32 (rb h) (rb r)) (add32 (rc h) (rc r))
       (add32 (rd h) (rd r)) (add32 (re h) (re r)) (add32 (rf h) (rf r))
       (add32 (rg h) (rg r)) (add32 (rh h) (rh r)).

Fixpoint blocks (n : nat) (bs : list N) (h : regs) : regs :=
  match n with
  | O => h
  | S n' => blocks n' (drop 64 bs) (compress h (take 64 bs))
  end.

(** The digest: 32 bytes, the eight words big-endian. *)
Definition digest (m : list N) : list N :=
  let p := pad m in
  let r := blocks (length p / 64)%nat p H0 in
  flat_map (be_bytes 4) [ra r; rb r; rc r; rd r; re r; rf r; rg r; rh r].

End Sha256.

Import Js.

(** ** The Bundle Identifier Function *)

(** The loop of [computeHash] over the digest bytes:
    [h += (b[i] < 16 ? "0" : "") + b[i].toString(16)]. *)
Definition hexLoop (b : list N) (h : jsstring) : jsstring :=
  fold_left
    (λ h bi, h ++ ((if bi <? 16 then lit "0" else lit "") ++ toString16 bi))
    b h.

(** [computeHash(ver, sorted)], the value its promise resolves to. *)
Definition computeHash (ver : jsstring) (sorted : list jsstring) : jsstring :=
  let input := ver ++ LF ++ join (lit ",") sorted in
  let buf := Sha256.digest (encode input) in
  let h := hexLoop buf (lit "") in
  lit "b_" ++ slice0 16 h.

(** ** Scan *)

(** The elements matched by [querySelectorAll("[class]")], each with the
    tokens of its [classList], in document order. *)
Abbreviation Document := (list (list jsstring)).

(** The inner loop [set[cl[j]] = 1] and the outer loop over the elements;
    [set] is a prototype-less object used as a string-keyed map. *)
Definition scan_element (set : gmap jsstring N) (cl : list jsstring) : gmap jsstring N :=
  fold_left (λ set c, <[c := 1]> set) cl set.

Definition scan_set (els : Document) : gmap jsstring N :=
  fold_left scan_element els ∅.

(** [Object.keys(set)]: the own keys, each once. *)
Definition keys (set : gmap jsstring N) : list jsstring := (map_to_list set).*1.

Definition scan (els : Document) : list jsstring := sort (keys (scan_set els)).

(** ** What the specification says the bundle id is *)

(** Two lowercase hexadecimal digits for one byte. *)
Definition hexByte (b : N) : jsstring := [hexdigit (b / 16); hexdigit (b mod 16)].

(** The hexadecimal rendering of a digest. *)
Definition hexDigest (bs : list N) : jsstring := flat_map hexByte bs.

(** Follows the specification's words: ["b_"] followed by the first 16 hex
    characters of SHA-256 of [VersionToken + "\n" + join(ClassSet, ",")],
    the string taken in UTF-8. *)
Definition bundleId_spec (v : jsstring) (C : list jsstring) : jsstring :=
  lit "b_" ++ take 16 (hexDigest (Sha256.digest (encode (v ++ LF ++ join (lit ",") C)))).

(** ** The page: nodes, requests, pending work *)

(** The only callback the script passes to [injectLink]/[injectStyle]. *)
Inductive Callback := CbUncloak.

(** The nodes the script creates, by the place that creates them. *)
Inductive NodeKind :=
| CloakStyle                                        (* <style id="weft-cloak"> *)
| OptimisticLink (href : jsstring)                  (* the speculative <link>, with its onload/onerror *)
| InjectedLink (href : jsstring) (cb : option Callback)  (* [injectLink(url, cb)]: onload = onerror = cb *)
| InjectedStyle (css : jsstring)                    (* [injectStyle(css, cb)] *)
| PrefetchLink (href : jsstring).                   (* <link rel="prefetch"> *)

Record Node := mkNode { nid : nat; kind : NodeKind }.

#[export] Instance Callback_eq_dec : EqDecision Callback.
Proof. solve_decision. Defined.
#[export] Instance NodeKind_eq_dec : EqDecision NodeKind.
Proof. solve_decision. Defined.
#[export] Instance Node_eq_dec : EqDecision Node.
Proof. solve_decision. Defined.

Inductive Request :=
| GetVersion (url : jsstring)                        (* fetch(API + "/v") *)
| PostCompile (url : jsstring) (classes : list jsstring).  (* fetch(API + "/compile", {classes}) *)

(** What the script does to the world around it, and what the world delivers
    to it, in the order it happens. *)
Inductive Obs :=
| OFetch (r : Request)
| ODigest (input : jsstring)          (* crypto.subtle.digest on the encoded input *)
| OAppend (n : Node)                  (* appendChild *)
| ORemove (n : Node)                  (* removeChild *)
| OActive (n : Node)                  (* [active = n] *)
| OSessionSet (k v : jsstring)        (* sessionStorage.setItem, done *)
| OSessionDel (k : jsstring)          (* sessionStorage.removeItem, done *)
| ODurableSet (k v : jsstring)        (* localStorage.setItem, done *)
| OClearTimeout                       (* clearTimeout(cloakTimer) *)
| OWarn                               (* console.warn *)
| OLoaded (n : Node)                  (* a load event was delivered to a link *)
| OErrored (n : Node)                 (* an error event was delivered to a link *)
| OCompiled (id : jsstring).          (* a compile response arrived with this bundle id *)

(** The body of a successful [POST /compile] response. *)
Record CompileBody := mkBody { bundleId : jsstring; css : option jsstring }.

(** Promise continuations that wait for something outside the script. *)
Inductive Task :=
| TVersion (sorted : list jsstring)     (* fetchVersion's fetch; then doLoad's callback *)
| TDigest (ver : option jsstring) (sorted : list jsstring)  (* computeHash's digest *)
| TCompile (sorted : list jsstring)     (* doLoad's fetch of /compile *)
| TLoadThen (ok : bool)                 (* doLoad settled; load's handler is queued *)
| TPreload.                             (* preload's fetch of /compile *)

Record State := mkState {
  API : jsstring;  (* the API base URL ([data-api] or the default) *)
  pageKey : jsstring;  (* ["weft:p:" + location.pathname + location.search] *)
  doc : Document;  (* the elements carrying a class attribute *)
  docHead : list Node;  (* the nodes attached to the document, in order *)
  created : list Node;  (* every node made by [document.createElement] *)
  settled : gmap nat bool;  (* links whose load ([true]) or error ([false]) event was delivered *)
  sessionStorage : option (gmap jsstring jsstring);  (* [None]: access throws *)
  localStorage : option (gmap jsstring jsstring);  (* [None]: access throws *)
  timerArmed : bool;  (* [cloakTimer] is pending *)
  tasks : list Task;  (* pending promise continuations *)
  trace : list Obs;  (* what the script did so far, newest first *)
  uncloaked : bool;
  optimisticId : option jsstring;
  optimisticEl : option Node;
  optimisticLoaded : bool;
  active : option Node;
  versionToken : option jsstring;
  currentId : option jsstring;
  ready : bool;
  loading : bool;
  needsRescan : bool
}.

(** Assignment to one variable of the state. *)
Definition set_doc (v : Document) (s : State) : State :=
  mkState (API s) (pageKey s) v (docHead s) (created s) (settled s)
    (sessionStorage s) (localStorage s) (timerArmed s) (tasks s) (trace s)
    (uncloaked s) (optimisticId s) (optimisticEl s) (optimisticLoaded s)
    (active s) (versionToken s) (currentId s) (ready s) (loading s)
    (needsRescan s).
Definition set_docHead (v : list Node) (s : State) : State :=
  mkState (API s) (pageKey s) (doc s) v (created s) (settled s)
    (sessionStorage s) (localStorage s) (timerArmed s) (tasks s) (trace s)
    (uncloaked s) (optimisticId s) (optimisticEl s) (optimisticLoaded s)
    (active s) (versionToken s) (currentId s) (ready s) (loading s)
    (needsRescan s).
Definition set_created (v : list Node) (s : State) : State :=
  mkState (API s) (pageKey s) (doc s) (docHead s) v (settled s)
    (sessionStorage s) (localStorage s) (timerArmed s) (tasks s) (trace s)
    (uncloaked s) (optimisticId s) (optimisticEl s) (optimisticLoaded s)
    (active s) (versionToken s) (currentId s) (ready s) (loading s)
    (needsRescan s).
Definition set_settled (v : gmap nat bool) (s : State) : State :=
  mkState (API s) (pageKey s) (doc s) (docHead s) (created s) v
    (sessionStorage s) (localStorage s) (timerArmed s) (tasks s) (trace s)
    (uncloaked s) (optimisticId s) (optimisticEl s) (optimisticLoaded s)
    (active s) (versionToken s) (currentId s) (ready s) (loading s)
    (needsRescan s).
Definition set_sessionStorage (v : option (gmap jsstring jsstring)) (s : State) : State :=
  mkState (API s) (pageKey s) (doc s) (docHead s) (created s) (settled s) v
    (localStorage s) (timerArmed s) (tasks s) (trace s) (uncloaked s)
    (optimisticId s) (optimisticEl s) (optimisticLoaded s) (active s)
    (versionToken s) (currentId s) (ready s) (loading s) (needsRescan s).
Definition set_localStorage (v : option (gmap jsstring jsstring)) (s : State) : State :=
  mkState (API s) (pageKey s) (doc s) (docHead s) (created s) (settled s)
    (sessionStorage s) v (timerArmed s) (tasks s) (trace s) (uncloaked s)
    (optimisticId s) (optimisticEl s) (optimisticLoaded s) (active s)
    (versionToken s) (currentId s) (ready s) (loading s) (needsRescan s).
Definition set_timerArmed (v : bool) (s : State) : State :=
  mkState (API s) (pageKey s) (doc s) (docHead s) (created s) (settled s)
    (sessionStorage s) (localStorage s) v (tasks s) (trace s) (uncloaked s)
    (optimisticId s) (optimisticEl s) (optimisticLoaded s) (active s)
    (versionToken s) (currentId s) (ready s) (loading s) (needsRescan s).
Definition set_tasks (v : list Task) (s : State) : State :=
  mkState (API s) (pageKey s) (doc s) (docHead s) (created s) (settled s)
    (sessionStorage s) (localStorage s) (timerArmed s) v (trace s)
    (uncloaked s) (optimisticId s) (optimisticEl s) (optimisticLoaded s)
    (active s) (versionToken s) (currentId s) (ready s) (loading s)
    (needsRescan s).
Definition set_trace (v : list Obs) (s : State) : State :=
  mkState (API s) (pageKey s) (doc s) (docHead s) (created s) (settled s)
    (sessionStorage s) (localStorage s) (timerArmed s) (tasks s) v
    (uncloaked s) (optimisticId s) (optimisticEl s) (optimisticLoaded s)
    (active s) (versionToken s) (currentId s) (ready s) (loading s)
    (needsRescan s).
Definition set_uncloaked (v : bool) (s : State) : State :=
  mkState (API s) (pageKey s) (doc s) (docHead s) (created s) (settled s)
    (sessionStorage s) (localStorage s) (timerArmed s) (tasks s) (trace s) v
    (optimisticId s) (optimisticEl s) (optimisticLoaded s) (active s)
    (versionToken s) (currentId s) (ready s) (loading s) (needsRescan s).
Definition set_optimisticId (v : option jsstring) (s : State) : State :=
  mkState (API s) (pageKey s) (doc s) (docHead s) (created s) (settled s)
    (sessionStorage s) (localStorage s) (timerArmed s) (tasks s) (trace s)
    (uncloaked s) v (optimisticEl s) (optimisticLoaded s) (active s)
    (versionToken s) (currentId s) (ready s) (loading s) (needsRescan s).
Definition set_optimisticEl (v : option Node) (s : State) : State :=
  mkState (API s) (pageKey s) (doc s) (docHead s) (created s) (settled s)
    (sessionStorage s) (localStorage s) (timerArmed s) (tasks s) (trace s)
    (uncloaked s) (optimisticId s) v (optimisticLoaded s) (active s)
    (versionToken s) (currentId s) (ready s) (loading s) (needsRescan s).
Definition set_optimisticLoaded (v : bool) (s : State) : State :=
  mkState (API s) (pageKey s) (doc s) (docHead s) (created s) (settled s)
    (sessionStorage s) (localStorage s) (timerArmed s) (tasks s) (trace s)
    (uncloaked s) (optimisticId s) (optimisticEl s) v (active s)
    (versionToken s) (currentId s) (ready s) (loading s) (needsRescan s).
Definition set_active (v : option Node) (s : State) : State :=
  mkState (API s) (pageKey s) (doc s) (docHead s) (created s) (settled s)
    (sessionStorage s) (localStorage s) (timerArmed s) (tasks s) (trace s)
    (uncloaked s) (optimisticId s) (optimisticEl s) (optimisticLoaded s) v
    (versionToken s) (currentId s) (ready s) (loading s) (needsRescan s).
Definition set_versionToken (v : option jsstring) (s : State) : State :=
  mkState (API s) (pageKey s) (doc s) (docHead s) (created s) (settled s)
    (sessionStorage s) (localStorage s) (timerArmed s) (tasks s) (trace s)
    (uncloaked s) (optimisticId s) (optimisticEl s) (optimisticLoaded s)
    (active s) v (currentId s) (ready s) (loading s) (needsRescan s).
Definition set_currentId (v : option jsstring) (s : State) : State :=
  mkState (API s) (pageKey s) (doc s) (docHead s) (created s) (settled s)
    (sessionStorage s) (localStorage s) (timerArmed s) (tasks s) (trace s)
    (uncloaked s) (optimisticId s) (optimisticEl s) (optimisticLoaded s)
    (active s) (versionToken s) v (ready s) (loading s) (needsRescan s).
Definition set_ready (v : bool) (s : State) : State :=
  mkState (API s) (pageKey s) (doc s) (docHead s) (created s) (settled s)
    (sessionStorage s) (localStorage s) (timerArmed s) (tasks s) (trace s)
    (uncloaked s) (optimisticId s) (optimisticEl s) (optimisticLoaded s)
    (active s) (versionToken s) (currentId s) v (loading s) (needsRescan s).
Definition set_loading (v : bool) (s : State) : State :=
  mkState (API s) (pageKey s) (doc s) (docHead s) (created s) (settled s)
    (sessionStorage s) (localStorage s) (timerArmed s) (tasks s) (trace s)
    (uncloaked s) (optimisticId s) (optimisticEl s) (optimisticLoaded s)
    (active s) (versionToken s) (currentId s) (ready s) v (needsRescan s).
Definition set_needsRescan (v : bool) (s : State) : State :=
  mkState (API s) (pageKey s) (doc s) (docHead s) (created s) (settled s)
    (sessionStorage s) (localStorage s) (timerArmed s) (tasks s) (trace s)
    (uncloaked s) (optimisticId s) (optimisticEl s) (optimisticLoaded s)
    (active s) (versionToken s) (currentId s) (ready s) (loading s) v.

Definition emit (o : Obs) (s : State) : State := set_trace (o :: trace s) s.
Definition spawn (t : Task) (s : State) : State := set_tasks (tasks s ++ [t]) s.

(** *** Storage helpers *)

Definition ssGet (k : jsstring) (s : State) : option jsstring :=
  sessionStorage s ≫= (λ m, m !! k).

Definition ssSet (k v : jsstring) (s : State) : State :=
  match sessionStorage s with
  | Some m => emit (OSessionSet k v) (set_sessionStorage (Some (<[k := v]> m)) s)
  | None => s
  end.

Definition ssDel (k : jsstring) (s : State) : State :=
  match sessionStorage s with
  | Some m => emit (OSessionDel k) (set_sessionStorage (Some (delete k m)) s)
  | None => s
  end.

Definition lsGet (k : jsstring) (s : State) : option jsstring :=
  localStorage s ≫= (λ m, m !! k).

Definition lsSet (k v : jsstring) (s : State) : State :=
  match localStorage s with
  | Some m => emit (ODurableSet k v) (set_localStorage (Some (<[k := v]> m)) s)
  | None => s
  end.

(** *** The document *)

(** [n.parentNode] is not null. *)
Definition attached (n : Node) (s : State) : bool := bool_decide (n ∈ docHead s).

Definition without (n : Node) (l : list Node) : list Node :=
  filter (λ m, m ≠ n) l.

Definition removeChild (n : Node) (s : State) : State :=
  emit (ORemove n) (set_docHead (without n (docHead s)) s).

Definition appendChild (n : Node) (s : State) : State :=
  emit (OAppend n) (set_docHead (without n (docHead s) ++ [n]) s).

(** [document.createElement]: the node it returns, and the state that
    knows it. Nodes are numbered in creation order. *)
Definition fresh_node (k : NodeKind) (s : State) : Node :=
  mkNode (length (created s)) k.

Definition createElement (k : NodeKind) (s : State) : State :=
  set_created (created s ++ [fresh_node k s]) s.

(** *** FOUC cloak *)

(** The node held by the variable [cloak], the first one the script creates. *)
Definition cloak : Node := mkNode 0 CloakStyle.

Definition uncloak (s : State) : State :=
  if uncloaked s then s
  else
    let s := set_uncloaked true s in
    let s := emit OClearTimeout (set_timerArmed false s) in
    if attached cloak s then removeChild cloak s else s.

Definition runCb (cb : option Callback) (s : State) : State :=
  match cb with
  | Some CbUncloak => uncloak s
  | None => s
  end.

(** *** Optimistic link *)

Definition cssUrl (s : State) (id : jsstring) : jsstring :=
  API s ++ lit "/css/" ++ id.

Definition optimistic_onload (s : State) : State :=
  let s := set_optimisticLoaded true s in
  if bool_decide (currentId s = optimisticId s) then uncloak s else s.

Definition optimistic_onerror (s : State) : State :=
  let s := set_optimisticEl None s in
  let s := set_optimisticLoaded false s in
  ssDel (pageKey s) s.

(** *** CSS injection *)

Definition swapActive (el : Node) (s : State) : State :=
  let s := match active s with
           | Some a => if attached a s then removeChild a s else s
           | None => s
           end in
  let s := emit (OActive el) (set_active (Some el) s) in
  let s := appendChild el s in
  match optimisticEl s with
  | Some o =>
      if bool_decide (o ≠ el) && attached o s
      then set_optimisticEl None (removeChild o s)
      else s
  | None => s
  end.

Definition injectLink (url : jsstring) (cb : option Callback) (s : State) : State :=
  let el := fresh_node (InjectedLink url cb) s in
  let s := createElement (InjectedLink url cb) s in
  swapActive el s.

Definition injectStyle (text : jsstring) (cb : option Callback) (s : State) : State :=
  let el := fresh_node (InjectedStyle text) s in
  let s := createElement (InjectedStyle text) s in
  let s := swapActive el s in
  runCb cb s.

(** *** Version *)

(** [computeHash(ver, sorted)] up to the point where it waits for the digest. *)
Definition computeHash_start (ver : option jsstring) (sorted : list jsstring)
    (s : State) : State :=
  spawn (TDigest ver sorted)
        (emit (ODigest (toStr ver ++ LF ++ join (lit ",") sorted)) s).

(** [fetchVersion().then(k)], [k] being doLoad's callback for [sorted]. *)
Definition fetchVersion (sorted : list jsstring) (s : State) : State :=
  spawn (TVersion sorted) (emit (OFetch (GetVersion (API s ++ lit "/v"))) s).

(** The two handlers of [fetchVersion], each followed by doLoad's callback:
    [d.v] is a string or missing. *)
Definition fetchVersion_then (dv : option jsstring) (sorted : list jsstring)
    (s : State) : State :=
  let s := set_versionToken dv s in
  computeHash_start dv sorted s.

Definition fetchVersion_catch (sorted : list jsstring) (s : State) : State :=
  let s := emit OWarn s in
  let s := set_versionToken (Some (lit "unknown")) s in
  computeHash_start (versionToken s) sorted s.

(** [getVersion().then(k)], [k] being doLoad's callback for [sorted]. *)
Definition getVersion (sorted : list jsstring) (s : State) : State :=
  match truthy (versionToken s) with
  | Some ver => computeHash_start (Some ver) sorted s
  | None => fetchVersion sorted s
  end.

(** *** Core *)

Definition doLoad (sorted : list jsstring) (s : State) : State :=
  getVersion sorted s.

Definition load (sorted : list jsstring) (s : State) : State :=
  match sorted with
  | [] => set_ready true (uncloak s)
  | _ :: _ =>
      if loading s then set_needsRescan true s
      else doLoad sorted (set_loading true s)
  end.

(** The callback of [doLoad] that receives the bundle id: paths 1 to 3
    settle at once, path 4 waits for the compile response. *)
Definition doLoad_hashed (id : jsstring) (sorted : list jsstring) (s : State) : State :=
  if bool_decide (Some id = optimisticId s) && bool_decide (is_Some (optimisticEl s)) then
    let s := set_currentId (Some id) s in
    let s := set_ready true s in
    let s := match optimisticEl s with
             | Some o => emit (OActive o) (set_active (Some o) s)
             | None => s
             end in
    let s := set_optimisticEl None s in
    let s := ssSet (pageKey s) id s in
    let s := lsSet (lit "weft:" ++ id) (lit "1") s in
    let s := if optimisticLoaded s then uncloak s else s in
    spawn (TLoadThen true) s
  else if bool_decide (Some id = currentId s) then
    let s := set_ready true s in
    let s := uncloak s in
    spawn (TLoadThen true) s
  else if bool_decide (is_Some (truthy (lsGet (lit "weft:" ++ id) s))) then
    let s := set_currentId (Some id) s in
    let s := set_ready true s in
    let s := ssSet (pageKey s) id s in
    let s := injectLink (cssUrl s id) (Some CbUncloak) s in
    spawn (TLoadThen true) s
  else
    spawn (TCompile sorted)
          (emit (OFetch (PostCompile (API s ++ lit "/compile") sorted)) s).

(** The callback of [doLoad] that receives the compile response body. *)
Definition doLoad_compiled (d : CompileBody) (s : State) : State :=
  let s := set_currentId (Some (bundleId d)) s in
  let s := set_ready true s in
  let s := match truthy (css d) with
           | Some text => injectStyle text (Some CbUncloak) s
           | None => injectLink (cssUrl s (bundleId d)) (Some CbUncloak) s
           end in
  let s := lsSet (lit "weft:" ++ bundleId d) (lit "1") s in
  let s := ssSet (pageKey s) (bundleId d) s in
  let s := match truthy (css d) with
           | Some _ =>
               let pf := fresh_node (PrefetchLink (cssUrl s (bundleId d))) s in
               let s := createElement (PrefetchLink (cssUrl s (bundleId d))) s in
               appendChild pf s
           | None => s
           end in
  spawn (TLoadThen true) s.

(** The two handlers [load] attaches to [doLoad(sorted)]. *)
Definition load_fulfilled (s : State) : State :=
  let s := set_loading false s in
  if needsRescan s then
    let s := set_needsRescan false s in
    load (scan (doc s)) s
  else s.

Definition load_rejected (s : State) : State :=
  let s := set_loading false s in
  let s := emit OWarn s in
  uncloak s.

(** *** Public API *)

Definition rehash (s : State) : State := load (scan (doc s)) s.

Definition preload (classes : list jsstring) (s : State) : State :=
  match classes with
  | [] => s
  | _ :: _ =>
      let current := scan (doc s) in
      let merged := scan_element (scan_element ∅ current) classes in
      let sorted := sort (keys merged) in
      spawn TPreload
            (emit (OFetch (PostCompile (API s ++ lit "/compile") sorted)) s)
  end.

Definition preload_then (d : CompileBody) (s : State) : State :=
  lsSet (lit "weft:" ++ bundleId d) (lit "1") s.

Definition preload_catch (s : State) : State := emit OWarn s.

(** [status()]: bundle id, version and ready flag. *)
Definition status (s : State) : option jsstring * option jsstring * bool :=
  (currentId s, versionToken s, ready s).

(** *** The script's top level *)

(** What the page offers when the script starts. *)
Record World := mkWorld {
  w_api : jsstring;                                 (* [API] *)
  w_location : jsstring;                            (* pathname + search *)
  w_doc : Document;
  w_session : option (gmap jsstring jsstring);
  w_local : option (gmap jsstring jsstring)
}.

Definition blank (w : World) : State :=
  mkState (w_api w) (lit "weft:p:" ++ w_location w) (w_doc w) [] [] ∅
          (w_session w) (w_local w) false [] []
          false None None false None None None false false false.

(** Lines 42 to 215 and 451: everything the script does before [init]. *)
Definition boot (w : World) : State :=
  let s := blank w in
  let c := fresh_node CloakStyle s in
  let s := createElement CloakStyle s in
  let s := appendChild c s in
  let s := set_timerArmed true s in
  let s := set_uncloaked false s in
  let s := set_optimisticId (ssGet (pageKey s) s) s in
  match truthy (optimisticId s) with
  | Some id =>
      let el := fresh_node (OptimisticLink (cssUrl s id)) s in
      let s := createElement (OptimisticLink (cssUrl s id)) s in
      let s := set_optimisticEl (Some el) s in
      appendChild el s
  | None => s
  end.

(** *** Events *)

(** Everything that makes the script run again after its top level. *)
Inductive Event :=
| EvLoadScan                   (* init, rehash(), or the observer's timer: load(scan()) *)
| EvPreload (classes : list jsstring)
| EvMutate (d : Document)      (* the page changes its elements or their classes *)
| EvStorage (ss ls : option (gmap jsstring jsstring))  (* storage changed from outside *)
| EvCloakTimeout               (* cloakTimer fires *)
| EvLinkLoad (n : Node)
| EvLinkError (n : Node)
| EvVersionReply (i : nat) (r : option (option jsstring))  (* [None]: failed; [Some dv]: body with d.v = dv *)
| EvDigestDone (i : nat) (ok : bool)                        (* [false]: the digest is refused *)
| EvCompileReply (i : nat) (r : option CompileBody)        (* [None]: failed *)
| EvSettled (i : nat).         (* the handler queued by a settled doLoad runs *)

Definition take_task (i : nat) (s : State) : option (Task * State) :=
  t ← tasks s !! i; Some (t, set_tasks (delete i (tasks s)) s).

(** A link can still receive its load or error event. *)
Definition awaiting (n : Node) (s : State) : bool :=
  bool_decide (n ∈ created s) && bool_decide (settled s !! nid n = None).

Definition step (e : Event) (s : State) : option State :=
  match e with
  | EvLoadScan => Some (rehash s)
  | EvPreload classes => Some (preload classes s)
  | EvMutate d => Some (set_doc d s)
  | EvStorage ss ls => Some (set_localStorage ls (set_sessionStorage ss s))
  | EvCloakTimeout =>
      if timerArmed s then Some (uncloak (set_timerArmed false s)) else None
  | EvLinkLoad n =>
      if awaiting n s then
        let s := emit (OLoaded n) (set_settled (<[nid n := true]> (settled s)) s) in
        match kind n with
        | OptimisticLink _ => Some (optimistic_onload s)
        | InjectedLink _ cb => Some (runCb cb s)
        | _ => None
        end
      else None
  | EvLinkError n =>
      if awaiting n s then
        let s := emit (OErrored n) (set_settled (<[nid n := false]> (settled s)) s) in
        match kind n with
        | OptimisticLink _ => Some (optimistic_onerror s)
        | InjectedLink _ cb => Some (runCb cb s)
        | _ => None
        end
      else None
  | EvVersionReply i r =>
      match take_task i s with
      | Some (TVersion sorted, s) =>
          match r with
          | Some dv => Some (fetchVersion_then dv sorted s)
          | None => Some (fetchVersion_catch sorted s)
          end
      | _ => None
      end
  | EvDigestDone i ok =>
      match take_task i s with
      | Some (TDigest ver sorted, s) =>
          if ok then Some (doLoad_hashed (computeHash (toStr ver) sorted) sorted s)
          else Some (spawn (TLoadThen false) s)
      | _ => None
      end
  | EvCompileReply i r =>
      match take_task i s with
      | Some (TCompile sorted, s) =>
          match r with
          | Some d => Some (doLoad_compiled d (emit (OCompiled (bundleId d)) s))
          | None => Some (spawn (TLoadThen false) s)
          end
      | Some (TPreload, s) =>
          match r with
          | Some d => Some (preload_then d (emit (OCompiled (bundleId d)) s))
          | None => Some (preload_catch s)
          end
      | _ => None
      end
  | EvSettled i =>
      match take_task i s with
      | Some (TLoadThen true, s) => Some (load_fulfilled s)
      | Some (TLoadThen false, s) => Some (load_rejected s)
      | _ => None
      end
  end.

Fixpoint run (es : list Event) (s : State) : option State :=
  match es with
  | [] => Some s
  | e :: es' => step e s ≫= run es'
  end.

(** The states the page can be in. *)
Inductive reachable (w : World) : State → Prop :=
| reach_boot : reachable w (boot w)
| reach_step s e s' : reachable w s → step e s = Some s' → reachable w s'.

(** ** Reading the history *)

(** The observations a transition added. *)
Definition new_obs (s s' : State) : list Obs :=
  take (length (trace s') - length (trace s)) (trace s').

(** The attached nodes after a history, replayed from its DOM operations. *)
Fixpoint attached_after (h : list Obs) : list Node :=
  match h with
  | [] => []
  | OAppend n :: h' => without n (attached_after h') ++ [n]
  | ORemove n :: h' => without n (attached_after h')
  | _ :: h' => attached_after h'
  end.

(** The nodes that have been the value of [active] in a history. *)
Fixpoint activated (h : list Obs) : list Node :=
  match h with
  | [] => []
  | OActive n :: h' => n :: activated h'
  | _ :: h' => activated h'
  end.

(** The ActiveStylesheet nodes attached after a history: those attached that
    are or were the active stylesheet; the speculative link is not one of
    them before it is promoted. *)
Definition active_attached (h : list Obs) : list Node :=
  filter (λ n, n ∈ activated h) (attached_after h).

(** Tasks that belong to a resolution (a [doLoad] and its handler). *)
Definition is_resolution (t : Task) : bool :=
  match t with
  | TPreload => false
  | _ => true
  end.

Definition inflight (s : State) : list Task := filter (λ t, is_resolution t) (tasks s).

Definition is_version_task (t : Task) : bool :=
  match t with
  | TVersion _ => true
  | _ => false
  end.

Definition is_version_fetch (o : Obs) : bool :=
  match o with
  | OFetch (GetVersion _) => true
  | _ => false
  end.

Definition version_fetches (h : list Obs) : nat := length (filter (λ o, is_version_fetch o) h).

(** The observable effect of releasing the Visibility Gate: the cloak leaves
    the document. *)
Definition is_release (o : Obs) : bool :=
  match o with
  | ORemove n => bool_decide (n = cloak)
  | _ => false
  end.

Definition releases (h : list Obs) : nat := length (filter (λ o, is_release o) h).

(** Network activity: a fetch, or a link node entering the document. *)
Definition is_network (o : Obs) : bool :=
  match o with
  | OFetch _ => true
  | OAppend n =>
      match kind n with
      | OptimisticLink _ | InjectedLink _ _ | PrefetchLink _ => true
      | _ => false
      end
  | _ => false
  end.

Definition is_hashing (o : Obs) : bool :=
  match o with
  | ODigest _ => true
  | _ => false
  end.

(** The bundle id a hint write is for: the value of the session hint, the
    key of the durable hint after ["weft:"]. *)
Definition hint_id (o : Obs) : option jsstring :=
  match o with
  | OSessionSet _ v => Some v
  | ODurableSet k _ => Some (drop 5 k)
  | _ => None
  end.

(** An observation that confirms the bundle [id] loadable: a compile
    response that returned it, or a stylesheet link for it that loaded. *)
Definition confirms (api id : jsstring) (o : Obs) : bool :=
  match o with
  | OCompiled id' => bool_decide (id' = id)
  | OLoaded n =>
      match kind n with
      | OptimisticLink h | InjectedLink h _ => bool_decide (h = api ++ lit "/css/" ++ id)
      | _ => false
      end
  | _ => false
  end.

(** Follows the specification's words: every hint write in the history
    comes after a confirmation of its bundle. *)
Fixpoint hints_confirmed (api : jsstring) (h : list Obs) : bool :=
  match h with
  | [] => true
  | o :: pre =>
      match hint_id o with
      | Some id => existsb (confirms api id) pre
      | None => true
      end && hints_confirmed api pre
  end.

(** * Invariants, readings of the history and scenarios *)

(** The storage helpers, the DOM helpers, the cloak and the handlers of the
    optimistic link never assign these variables. *)
Definition same_core (s' s : State) : Prop :=
  API s' = API s ∧ pageKey s' = pageKey s ∧ doc s' = doc s
  ∧ settled s' = settled s ∧ tasks s' = tasks s
  ∧ optimisticId s' = optimisticId s ∧ versionToken s' = versionToken s
  ∧ currentId s' = currentId s ∧ ready s' = ready s
  ∧ loading s' = loading s ∧ needsRescan s' = needsRescan s.

Definition nres (l : list Task) : nat := length (filter (λ t, is_resolution t) l).
Definition nver (l : list Task) : nat := length (filter (λ t, is_version_task t) l).

(** While [loading] is set exactly one resolution is pending, otherwise none;
    and no version fetch is pending once a token is memoized. *)
Definition flight_inv (s : State) : Prop :=
  nres (tasks s) = (if loading s then 1 else 0)%nat
  ∧ (is_Some (truthy (versionToken s)) → nver (tasks s) = 0%nat).

(** What is left of the invariant while the handler of a resolution runs:
    its own task has been taken off the list. *)
Definition mid_flight (s : State) : Prop :=
  nres (tasks s) = 0%nat ∧ loading s = true ∧ nver (tasks s) = 0%nat.

(** The bound holds after every observation of the history. *)
Fixpoint each_moment (h : list Obs) : Prop :=
  (length (active_attached h) ≤ 1)%nat
  ∧ match h with
    | [] => True
    | _ :: h' => each_moment h'
    end.

(** Observations that neither change the document nor the active node. *)
Definition inert (o : Obs) : Prop :=
  match o with
  | OAppend _ | ORemove _ | OActive _ => False
  | _ => True
  end.

(** The invariant that holds between any two statements of the script: the
    history replays to the document, nodes are numbered as created, and an
    attached node that has been active is the active one. *)
Definition micro_inv (s : State) : Prop :=
  attached_after (trace s) = docHead s
  ∧ (∀ i n, created s !! i = Some n → nid n = i)
  ∧ (∀ n, n ∈ docHead s → n ∈ created s)
  ∧ (∀ n, n ∈ activated (trace s) → n ∈ created s)
  ∧ (∀ n, n ∈ docHead s → n ∈ activated (trace s) → active s = Some n)
  ∧ each_moment (trace s).

(** While the speculative link is tracked it is attached, it is the link
    made for the session hint, and nothing has been made the active
    stylesheet yet. *)
Definition spec_inv (s : State) : Prop :=
  ∀ o, optimisticEl s = Some o →
    o ∈ docHead s ∧ activated (trace s) = [] ∧ active s = None
    ∧ (∃ id, truthy (optimisticId s) = Some id
             ∧ kind o = OptimisticLink (API s ++ lit "/css/" ++ id)).

(** The cloak leaves the document once, when the gate is released, and
    neither the active stylesheet nor the speculative link is the cloak. *)
Definition gate_inv (s : State) : Prop :=
  (uncloaked s = true → (cloak ∉ docHead s) ∧ timerArmed s = false)
  ∧ (cloak ∈ docHead s → releases (trace s) = 0%nat)
  ∧ (releases (trace s) ≤ 1)%nat
  ∧ (∀ a, active s = Some a → kind a ≠ CloakStyle)
  ∧ (∀ o, optimisticEl s = Some o → kind o ≠ CloakStyle).

Definition page_inv (s : State) : Prop := micro_inv s ∧ spec_inv s ∧ gate_inv s.

(** The first statement of [swapActive], as one function. *)
Definition detachActive (s : State) : State :=
  match active s with
  | Some a => if attached a s then removeChild a s else s
  | None => s
  end.

(** A page whose two elements carry the classes a and b, at the address
    /index of the site, with both storages empty. *)
Definition page_ab : World :=
  mkWorld (lit "https://weft.test") (lit "/index")
          [[lit "a"; lit "b"]; [lit "b"]] (Some ∅) (Some ∅).

(** The bundle the compiler returns for that page, with its CSS inline. *)
Definition bundle_ab : CompileBody :=
  mkBody (lit "b_3fcf458c6bdf10fa") (Some (lit ".a{} .b{}")).

(** A first visit: version, digest, cold compile; then the page gains an
    element and is resolved again. *)
Definition first_visit : list Event :=
  [ EvLoadScan; EvVersionReply 0 (Some (Some (lit "v1"))); EvDigestDone 0 true;
    EvCompileReply 0 (Some bundle_ab); EvSettled 0 ].

Definition second_round : list Event :=
  first_visit ++
  [ EvMutate [[lit "a"; lit "b"]; [lit "c"]]; EvLoadScan; EvDigestDone 0 true;
    EvCompileReply 0 (Some (mkBody (lit "b_0123456789abcdef") None)); EvSettled 0 ].

(** The state a list of events leads to from the start of the script. *)
Definition state_after (w : World) (es : list Event) : State :=
  default (boot w) (run es (boot w)).

(** The observations of [swapActive]: what it detaches first and what it
    cleans up last. *)
Definition detach_obs (s : State) : list Obs :=
  match active s with
  | Some a => if attached a s then [ORemove a] else []
  | None => []
  end.

Definition cleanup_obs (el : Node) (s : State) : list Obs :=
  match optimisticEl s with
  | Some o =>
      if bool_decide (o ≠ el ∧ o ∈ docHead s ∧ active s ≠ Some o)
      then [ORemove o] else []
  | None => []
  end.

Definition old_style : Node := mkNode 1 (InjectedStyle (lit ".a{} .b{}")).
Definition new_link : Node := mkNode 3 (InjectedLink (lit "u") None).

(** A page whose elements carry no class. *)
Definition page_bare : World :=
  mkWorld (lit "https://weft.test") (lit "/bare") [[]; []] (Some ∅) (Some ∅).

(** A later visit of the same page in a new session: the durable hint for
    the page's bundle is there, the session hint is not. *)
Definition page_known : World :=
  mkWorld (lit "https://weft.test") (lit "/index")
          [[lit "a"; lit "b"]; [lit "b"]]
          (Some ∅) (Some {[ lit "weft:b_3fcf458c6bdf10fa" := lit "1" ]}).

Definition known_visit : list Event :=
  [ EvLoadScan; EvVersionReply 0 (Some (Some (lit "v1"))); EvDigestDone 0 true ].

Definition known_link : Node :=
  mkNode 1 (InjectedLink (lit "https://weft.test/css/b_3fcf458c6bdf10fa") (Some CbUncloak)).

(** The history of [s'] extends the history of [s] by observations that
    all satisfy [P]. *)
Definition quiet (P : Obs → Prop) (s s' : State) : Prop :=
  ∃ l, trace s' = l ++ trace s ∧ Forall P l.

(** Observations other than a version fetch and the writes of hints. *)
Definition plain (o : Obs) : Prop :=
  match o with
  | OFetch (GetVersion _) | OSessionSet _ _ | ODurableSet _ _ => False
  | _ => True
  end.

(** The version endpoint answers with an empty token; the page is resolved,
    changes, and is resolved again. *)
Definition empty_token_visit : list Event :=
  [ EvLoadScan; EvVersionReply 0 (Some (Some (lit ""))); EvDigestDone 0 true;
    EvCompileReply 0 (Some bundle_ab); EvSettled 0;
    EvMutate [[lit "a"; lit "b"]; [lit "c"]]; EvLoadScan ].

(** What the code requires of a hint write for the bundle [id] in the turn
    of the event [e] from the state [s]: the id was returned by the compile
    response the turn handles, or it is the guess of the speculative link
    still tracked (path 1), or, for the session hint, the durable hint of
    the id is there (path 3). *)
Definition hint_ok (s : State) (e : Event) (o : Obs) : Prop :=
  ∀ id, hint_id o = Some id →
    (∃ i d, e = EvCompileReply i (Some d) ∧ bundleId d = id)
    ∨ (Some id = optimisticId s ∧ is_Some (optimisticEl s))
    ∨ (is_Some (truthy (lsGet (lit "weft:" ++ id) s)) ∧ ∃ k, o = OSessionSet k id).

(** The class set a pending task of a resolution works on. *)
Definition task_classes (t : Task) : option (list jsstring) :=
  match t with
  | TVersion sorted | TDigest _ sorted | TCompile sorted => Some sorted
  | _ => None
  end.

(** A resolution is in flight, the page loses its classes and is scanned
    again. *)
Definition bare_request : list Event := [ EvLoadScan; EvMutate [[]]; EvLoadScan ].

(** A resolution is in flight when a rescan is requested; then the compile
    request fails. *)
Definition failed_compile : list Event :=
  [ EvLoadScan; EvVersionReply 0 (Some (Some (lit "v1"))); EvDigestDone 0 true;
    EvLoadScan; EvCompileReply 0 None ].

(** A character of [0-9a-f]. *)
Definition lower_hex (c : N) : Prop := 48 ≤ c ≤ 57 ∨ 97 ≤ c ≤ 102.

(** A class name as [classList] gives it, when it holds no comma. *)
Definition plain_name (c : jsstring) : Prop := c ≠ [] ∧ 44 ∉ c.

(** What [join] puts after the first element. *)
Definition join_rest (l : list jsstring) : jsstring :=
  match l with
  | [] => []
  | _ :: _ => 44 :: join (lit ",") l
  end.

(** A page whose storages throw on every access. *)
Definition page_locked : World :=
  mkWorld (lit "https://weft.test") (lit "/index") [[lit "a"; lit "b"]] None None.

(** The node held by [active] is attached and has been recorded as active;
    [active] is never reset to [null]. *)
Definition active_inv (s : State) : Prop :=
  match active s with
  | None => activated (trace s) = []
  | Some a => a ∈ docHead s ∧ a ∈ activated (trace s)
  end.

(** While the page is cloaked the cloak is in the document and its timer is
    pending. *)
Definition cloaked_inv (s : State) : Prop :=
  uncloaked s = false → timerArmed s = true ∧ cloak ∈ docHead s.

(** What holds whenever the script is idle. *)
Definition turn_inv (s : State) : Prop := page_inv s ∧ active_inv s ∧ cloaked_inv s.

(** The storage helpers touch the storages and the history only. *)
Definition same_dom (s' s : State) : Prop :=
  docHead s' = docHead s ∧ created s' = created s
  ∧ timerArmed s' = timerArmed s ∧ uncloaked s' = uncloaked s
  ∧ optimisticEl s' = optimisticEl s ∧ optimisticLoaded s' = optimisticLoaded s
  ∧ active s' = active s.

(** [uncloak] touches the cloak, its flag and its timer only. *)
Definition same_sheets (s' s : State) : Prop :=
  created s' = created s ∧ optimisticEl s' = optimisticEl s
  ∧ optimisticLoaded s' = optimisticLoaded s ∧ active s' = active s
  ∧ sessionStorage s' = sessionStorage s ∧ localStorage s' = localStorage s.

(** The injectors touch neither the storages nor the gate. *)
Definition same_store (s' s : State) : Prop :=
  sessionStorage s' = sessionStorage s ∧ localStorage s' = localStorage s
  ∧ optimisticLoaded s' = optimisticLoaded s ∧ timerArmed s' = timerArmed s
  ∧ uncloaked s' = uncloaked s.

(** The same page, visited again in the session that stored its hint. *)
Definition page_return : World :=
  mkWorld (lit "https://weft.test") (lit "/index")
          [[lit "a"; lit "b"]; [lit "b"]]
          (Some {[ lit "weft:p:/index" := lit "b_3fcf458c6bdf10fa" ]}) (Some ∅).

Definition speculative_link : Node :=
  mkNode 1 (OptimisticLink (lit "https://weft.test/css/b_3fcf458c6bdf10fa")).

(** The return visit, when the version is known and the digest pending. *)
Definition hit_pending : State :=
  state_after page_return [EvLoadScan; EvVersionReply 0 (Some (Some (lit "v1")))].

(** From [s] to [s'] the flags that are only ever set stay set, a dropped
    speculative link stays dropped, and the elements created are kept. *)
Definition onward (s s' : State) : Prop :=
  (uncloaked s = true → uncloaked s' = true)
  ∧ (ready s = true → ready s' = true)
  ∧ (is_Some (currentId s) → is_Some (currentId s'))
  ∧ (is_Some (active s) → is_Some (active s'))
  ∧ (optimisticEl s = None → optimisticEl s' = None)
  ∧ (timerArmed s = false → timerArmed s' = false)
  ∧ created s `prefix_of` created s'.

(** The [type] of a mutation record. *)
Inductive MutationType := MAttributes | MChildList | MCharacterData.

(** What the observer's callback reads of a mutation record;
    [m_addedNodes] is [addedNodes.length]. *)
Record MutationRecord := mkMutation {
  m_type : MutationType;
  m_attributeName : option jsstring;
  m_addedNodes : nat
}.

(** The test of the callback: a class attribute changed or nodes were
    added. *)
Definition relevant (m : MutationRecord) : bool :=
  match m_type m with
  | MAttributes => bool_decide (m_attributeName m = Some (lit "class"))
  | MChildList => negb (Nat.eqb (m_addedNodes m) 0)
  | MCharacterData => false
  end.

(** One call of [observe]: its debounce delay, its variable [timer]
    ([null] or the id of the last timeout it set), and whether its
    [MutationObserver] is connected. *)
Record Observer := mkObserver {
  ob_ms : N;
  ob_timer : option nat;
  ob_connected : bool
}.

(** The page with its observers: one per call of [observe], in order; the
    variable [disconnectFn] holds the closure of one of them or [null];
    [timeouts] are the pending timeouts the callbacks have set. *)
Record Watch := mkWatch {
  page : State;
  hasMutationObserver : bool;
  observers : list Observer;
  disconnectFn : option nat;
  timeouts : list nat;
  nextTimeout : nat
}.

Definition DEBOUNCE_MS : N := 200.

(** [(opts && opts.debounce) || DEBOUNCE_MS]: [opts] is missing, or an
    object whose [debounce] is missing or a number. *)
Definition debounceOf (opts : option (option N)) : N :=
  match opts with
  | Some (Some n) => if n =? 0 then DEBOUNCE_MS else n
  | _ => DEBOUNCE_MS
  end.

(** [clearTimeout(t)]: nothing happens for [null] or a spent id. *)
Definition clearTimeout (t : option nat) (l : list nat) : list nat :=
  match t with
  | Some id => filter (λ x, x ≠ id) l
  | None => l
  end.

(** The closure [disconnectFn] made by the [k]-th call of [observe]. *)
Definition disconnect (k : nat) (w : Watch) : Watch :=
  match observers w !! k with
  | Some ob =>
      mkWatch (page w) (hasMutationObserver w)
              (<[k := mkObserver (ob_ms ob) (ob_timer ob) false]> (observers w))
              None
              (clearTimeout (ob_timer ob) (timeouts w))
              (nextTimeout w)
  | None => w
  end.

(** [observe(opts)]: the function it returns ([None] is the function that
    does nothing) and the state after the call. *)
Definition observe (opts : option (option N)) (w : Watch) : option nat * Watch :=
  if hasMutationObserver w then
    let w := match disconnectFn w with
             | Some k => disconnect k w
             | None => w
             end in
    let k := length (observers w) in
    (Some k,
     mkWatch (page w) (hasMutationObserver w)
             (observers w ++ [mkObserver (debounceOf opts) None true])
             (Some k) (timeouts w) (nextTimeout w))
  else (None, w).

(** The callback of the [k]-th observer on a batch of records. *)
Definition deliver (k : nat) (muts : list MutationRecord) (w : Watch) : Watch :=
  match observers w !! k with
  | Some ob =>
      if existsb relevant muts then
        mkWatch (page w) (hasMutationObserver w)
                (<[k := mkObserver (ob_ms ob) (Some (nextTimeout w)) (ob_connected ob)]>
                   (observers w))
                (disconnectFn w)
                (clearTimeout (ob_timer ob) (timeouts w) ++ [nextTimeout w])
                (S (nextTimeout w))
      else w
  | None => w
  end.

(** What happens to a page with observers. *)
Inductive WEvent :=
| WPage (e : Event)                      (* an event of the page itself *)
| WObserve (opts : option (option N))    (* useweft.observe(opts) *)
| WHandle (h : option nat)               (* a function that observe returned is called *)
| WMutations (k : nat) (muts : list MutationRecord)
| WTimeout (id : nat).                   (* a debounce timeout fires: load(scan()) *)

Definition wstep (e : WEvent) (w : Watch) : option Watch :=
  match e with
  | WPage e =>
      s' ← step e (page w);
      Some (mkWatch s' (hasMutationObserver w) (observers w) (disconnectFn w)
                    (timeouts w) (nextTimeout w))
  | WObserve opts => Some (observe opts w).2
  | WHandle None => Some w
  | WHandle (Some k) =>
      if bool_decide (k < length (observers w))%nat then Some (disconnect k w) else None
  | WMutations k muts =>
      match observers w !! k with
      | Some ob => if ob_connected ob then Some (deliver k muts w) else None
      | None => None
      end
  | WTimeout id =>
      if bool_decide (id ∈ timeouts w) then
        Some (mkWatch (rehash (page w)) (hasMutationObserver w) (observers w)
                      (disconnectFn w) (filter (λ x, x ≠ id) (timeouts w))
                      (nextTimeout w))
      else None
  end.

Fixpoint wrun (es : list WEvent) (w : Watch) : option Watch :=
  match es with
  | [] => Some w
  | e :: es' => wstep e w ≫= wrun es'
  end.

(** The page right after the script ran: no observer yet. *)
Definition watch0 (w : World) (mo : bool) : Watch :=
  mkWatch (boot w) mo [] None [] 0.

(** Every pending timeout is the [timer] of a connected observer, and no
    two observers or timeouts share an id. *)
Definition watch_inv (w : Watch) : Prop :=
  NoDup (timeouts w)
  ∧ (∀ id, id ∈ timeouts w → (id < nextTimeout w)%nat)
  ∧ (∀ k ob id, observers w !! k = Some ob → ob_timer ob = Some id →
                (id < nextTimeout w)%nat)
  ∧ (∀ id, id ∈ timeouts w →
           ∃ k ob, observers w !! k = Some ob ∧ ob_connected ob = true
                   ∧ ob_timer ob = Some id)
  ∧ (∀ k1 k2 ob1 ob2 id, observers w !! k1 = Some ob1 → observers w !! k2 = Some ob2 →
                         ob_timer ob1 = Some id → ob_timer ob2 = Some id → k1 = k2).

(** Only the observer that [disconnectFn] holds is connected. *)
Definition single_observer (w : Watch) : Prop :=
  ∀ k ob, observers w !! k = Some ob → ob_connected ob = true → disconnectFn w = Some k.

(** The page calls a returned function only while [disconnectFn] holds it. *)
Definition current_handle (e : WEvent) (w : Watch) : Prop :=
  match e with
  | WHandle (Some k) => disconnectFn w = Some k
  | _ => True
  end.

(** The connected observers. *)
Definition connected (w : Watch) : list Observer :=
  filter (λ ob, ob_connected ob = true) (observers w).

(** A watched page whose first element changes class three times. *)
Definition class_change : MutationRecord :=
  mkMutation MAttributes (Some (lit "class")) 0.

Definition burst : list WEvent :=
  [ WObserve None; WMutations 0 [class_change]; WMutations 0 [class_change];
    WMutations 0 [class_change] ].

Definition watch_after (w : World) (es : list WEvent) : Watch :=
  default (watch0 w true) (wrun es (watch0 w true)).

(** A run in which every returned function is called only while
    [disconnectFn] holds it. *)
Fixpoint disciplined (es : list WEvent) (w : Watch) : Prop :=
  match es with
  | [] => True
  | e :: es' =>
      current_handle e w
      ∧ match wstep e w with
        | Some w' => disciplined es' w'
        | None => True
        end
  end.

(** [observe] is called twice. *)
Definition observed_twice : list WEvent := [ WObserve None; WObserve (Some (Some 0)) ].

(** A node whose load and error handlers, if it is an injected link, are
    [uncloak]. *)
Definition uncloaking (n : Node) : Prop :=
  ∀ url cb, kind n = InjectedLink url cb → cb = Some CbUncloak.

(** From [s] to [s'] elements were only added, all of them uncloaking. *)
Definition grown (s s' : State) : Prop :=
  ∃ l, created s' = created s ++ l ∧ Forall uncloaking l.

(** * Proofs *)

Example sha256_abc :
  hexLoop (Sha256.digest (encode (lit "abc"))) [] =
  lit "ba7816bf8f01cfea414140de5dae2223b00361a396177a9cb410ff61f20015ad".
Proof. vm_compute. reflexivity. Qed.

(** ** Properties of the order used by [sort] *)

Section LexOrder.

Lemma lexleb_refl a : lexleb a a = true.
Proof.
  induction a as [|x a IH]; simpl; [done|].
  rewrite N.ltb_irrefl, N.eqb_refl. exact IH.
Qed.

Lemma lexleb_total a b : lexleb a b = true ∨ lexleb b a = true.
Proof.
  revert b. induction a as [|x a IH]; intros [|y b]; simpl; auto.
  destruct (N.ltb_spec x y), (N.ltb_spec y x); auto; try lia.
  assert (x = y) as -> by lia. rewrite N.eqb_refl. apply IH.
Qed.

Lemma lexleb_trans a b c : lexleb a b = true → lexleb b c = true → lexleb a c = true.
Proof.
  revert b c. induction a as [|x a IH]; intros [|y b] [|z c]; simpl; auto; try done.
  destruct (N.ltb_spec x y), (N.ltb_spec y z), (N.ltb_spec x z); auto; try lia;
    destruct (N.eqb_spec x y), (N.eqb_spec y z), (N.eqb_spec x z);
    auto; try lia; try done.
  apply IH.
Qed.

Lemma lexleb_antisym a b : lexleb a b = true → lexleb b a = true → a = b.
Proof.
  revert b. induction a as [|x a IH]; intros [|y b]; simpl; auto; try done.
  destruct (N.ltb_spec x y), (N.ltb_spec y x); try lia; try done.
  - destruct (N.eqb_spec y x); [lia | done].
  - destruct (N.eqb_spec x y); [lia | done].
  - assert (x = y) as -> by lia. rewrite N.eqb_refl.
    intros ? ?. f_equal; auto.
Qed.

#[export] Instance lexle_total : Total lexle.
Proof.
  intros a b. unfold lexle.
  destruct (lexleb_total a b) as [-> | ->]; simpl; auto.
Qed.

#[export] Instance lexle_transitive : Transitive lexle.
Proof.
  intros a b c Hab Hbc. unfold lexle in *.
  apply Is_true_true. eapply lexleb_trans; by apply Is_true_true.
Qed.

#[export] Instance lexle_antisymm : AntiSymm (=) lexle.
Proof.
  intros a b Hab Hba. unfold lexle in *.
  apply lexleb_antisym; by apply Is_true_true.
Qed.

(** Sorting depends on the elements only, not on their order. *)
Lemma sort_perm (l k : list jsstring) : l ≡ₚ k → sort l = sort k.
Proof.
  intros Hp. unfold sort.
  apply (Sorted_unique lexle); try apply (Sorted_merge_sort lexle).
  by rewrite !merge_sort_Permutation.
Qed.

(** A sorted array is left as it is. *)
Lemma sort_sorted (l : list jsstring) : Sorted lexle l → sort l = l.
Proof.
  intros Hs. unfold sort.
  apply (Sorted_unique lexle); [apply (Sorted_merge_sort lexle) | done |].
  apply merge_sort_Permutation.
Qed.

End LexOrder.

(** ** Properties of the hexadecimal loop *)

Lemma toString16_digits_small fuel n : n < 16 → toString16_digits fuel n = [hexdigit n].
Proof.
  intros Hn. destruct fuel; simpl; [done|].
  destruct (N.ltb_spec n 16); [done | lia].
Qed.

Lemma toString16_byte b :
  b < 256 →
  (if b <? 16 then lit "0" else lit "") ++ toString16 b = hexByte b.
Proof.
  intros Hb. unfold toString16, hexByte.
  destruct (N.ltb_spec b 16) as [Hs | Hl].
  - rewrite toString16_digits_small by done.
    rewrite N.div_small, N.mod_small by done. reflexivity.
  - assert (4 <= N.log2 b) as Hlog.
    { change 4 with (N.log2 16). by apply N.log2_le_mono. }
    destruct (N.to_nat (N.log2 b)) as [|f] eqn:Hf; [lia|].
    simpl. destruct (N.ltb_spec b 16); [lia|].
    rewrite toString16_digits_small; [done|].
    apply N.Div0.div_lt_upper_bound. lia.
Qed.

Lemma hexLoop_hexDigest b h :
  Forall (λ x, x < 256) b → hexLoop b h = h ++ hexDigest b.
Proof.
  unfold hexLoop, hexDigest. intros Hb. revert h.
  induction Hb as [|x b Hx _ IH]; intros h; simpl.
  - by rewrite app_nil_r.
  - rewrite IH, toString16_byte by done. by rewrite <- app_assoc.
Qed.

(** ** Shape of the digest *)

Lemma be_bytes_bound k x : Forall (λ b, b < 256) (Sha256.be_bytes k x).
Proof.
  unfold Sha256.be_bytes. apply Forall_forall. intros b Hb.
  apply list_elem_of_In, in_map_iff in Hb as (i & <- & _).
  change 0xFF with (N.ones 8). rewrite N.land_ones.
  apply N.mod_lt. done.
Qed.

Lemma digest_bytes m : Forall (λ b, b < 256) (Sha256.digest m).
Proof.
  unfold Sha256.digest. cbv zeta.
  generalize (Sha256.blocks (length (Sha256.pad m) / 64)%nat (Sha256.pad m) Sha256.H0).
  intros r. cbn [flat_map].
  repeat (apply Forall_app; split); try apply be_bytes_bound. constructor.
Qed.

Lemma digest_length m : length (Sha256.digest m) = 32%nat.
Proof. reflexivity. Qed.

(** ** Scan yields the canonical class sequence *)

Lemma elem_of_keys (m : gmap jsstring N) c : c ∈ keys m ↔ is_Some (m !! c).
Proof.
  unfold keys. rewrite list_elem_of_fmap. split.
  - intros ([k v] & -> & Hkv). apply elem_of_map_to_list in Hkv. by exists v.
  - intros [v Hv]. exists (c, v). split; [done|]. by apply elem_of_map_to_list.
Qed.

Lemma NoDup_keys (m : gmap jsstring N) : NoDup (keys m).
Proof. apply NoDup_fst_map_to_list. Qed.

Lemma scan_element_lookup (cl : list jsstring) (m : gmap jsstring N) c :
  is_Some (scan_element m cl !! c) ↔ is_Some (m !! c) ∨ c ∈ cl.
Proof.
  unfold scan_element. revert m.
  induction cl as [|x cl IH]; intros m; simpl.
  - rewrite elem_of_nil. tauto.
  - rewrite IH, elem_of_cons, lookup_insert_is_Some.
    destruct (decide (x = c)) as [->|Hne]; intuition congruence.
Qed.

Lemma scan_fold_lookup (els : Document) (m : gmap jsstring N) c :
  is_Some (fold_left scan_element els m !! c) ↔ is_Some (m !! c) ∨ c ∈ concat els.
Proof.
  revert m. induction els as [|cl els IH]; intros m; simpl.
  - rewrite elem_of_nil. tauto.
  - rewrite IH, scan_element_lookup, elem_of_app. tauto.
Qed.

Lemma elem_of_scan_set (els : Document) c :
  c ∈ keys (scan_set els) ↔ c ∈ concat els.
Proof.
  rewrite elem_of_keys. unfold scan_set. rewrite scan_fold_lookup, lookup_empty.
  split; [intros [[? ?]|?]; done | auto].
Qed.

(** [scan] returns the class names of the document sorted and without
    duplicates. *)
Lemma scan_canonical (els : Document) :
  scan els = sort (remove_dups (concat els)).
Proof.
  unfold scan. apply sort_perm.
  apply NoDup_Permutation; [apply NoDup_keys | apply NoDup_remove_dups |].
  intros c. by rewrite elem_of_scan_set, elem_of_remove_dups.
Qed.

Lemma scan_same_classes (d1 d2 : Document) :
  (∀ c, c ∈ concat d1 ↔ c ∈ concat d2) → scan d1 = scan d2.
Proof.
  intros Hc. rewrite !scan_canonical. apply sort_perm.
  apply NoDup_Permutation; try apply NoDup_remove_dups.
  intros c. by rewrite !elem_of_remove_dups.
Qed.

Lemma remove_dups_NoDup (l : list jsstring) : NoDup l → remove_dups l = l.
Proof.
  induction 1 as [|x l Hx _ IH]; simpl; [done|].
  destruct (decide_rel elem_of x l); [done | by rewrite IH].
Qed.

Lemma length_hexDigest (b : list N) : length (hexDigest b) = (2 * length b)%nat.
Proof. unfold hexDigest. induction b as [|x b IH]; simpl; lia. Qed.

(** The first [2k] hexadecimal digits are those of the first [k] bytes. *)
Lemma take_hexDigest (k : nat) (b : list N) :
  take (2 * k) (hexDigest b) = hexDigest (take k b).
Proof.
  revert b. induction k as [|k IH]; intros b; [done|].
  destruct b as [|x b]; [done|].
  replace (2 * S k)%nat with (S (S (2 * k))) by lia.
  unfold hexDigest in *. simpl. by rewrite IH.
Qed.

(** ** The bundle id *)

(** C1. For every version token [v] and class sequence [C],
    [computeHash(v, C)] is ["b_"] followed by the first 16 hexadecimal
    characters of the SHA-256 digest of the UTF-8 encoding of
    [v + "\n" + C.join(",")]: the loop over the digest bytes writes each
    byte as two lowercase hexadecimal digits, and the slice keeps the
    digits of the first 8 bytes, 18 characters in all. *)
Theorem computeHash_spec (v : jsstring) (C : list jsstring) :
  computeHash v C = bundleId_spec v C
  ∧ computeHash v C =
      lit "b_" ++ hexDigest (take 8 (Sha256.digest (encode (v ++ LF ++ join (lit ",") C))))
  ∧ length (computeHash v C) = 18%nat.
Proof.
  unfold computeHash, bundleId_spec, slice0. cbv zeta.
  rewrite hexLoop_hexDigest by apply digest_bytes.
  change (lit "") with (@nil N). rewrite app_nil_l.
  split; [done|]. split.
  - apply (f_equal (app (lit "b_"))), (take_hexDigest 8).
  - rewrite length_app, length_take, length_hexDigest, digest_length. reflexivity.
Qed.

Example computeHash_scenario_1 :
  computeHash (lit "v1") [lit "a"; lit "b"] = lit "b_3fcf458c6bdf10fa".
Proof. vm_compute. reflexivity. Qed.

(** As C7 states it, for [computeHash] alone: the function hashes the
    sequence it is given, in the order given. *)
Lemma computeHash_order_sensitive :
  computeHash (lit "v1") [lit "b"; lit "a"]
  ≠ computeHash (lit "v1") (sort (remove_dups [lit "b"; lit "a"])).
Proof. vm_compute. discriminate. Qed.

(** C7, amended. [computeHash] is a function of the version token and the
    class sequence alone. [scan] produces the canonical sequence: whatever
    the order and the repetitions of the class names in the document, it
    returns them sorted and without duplicates, so the bundle id of a scan
    does not depend on them; and on a sequence that is already sorted and
    without duplicates, sorting and removing duplicates changes nothing. *)
Theorem computeHash_scan_canonical (v : jsstring) :
  (∀ d : Document,
     computeHash v (scan d) = computeHash v (sort (remove_dups (concat d))))
  ∧ (∀ d1 d2 : Document,
       (∀ c, c ∈ concat d1 ↔ c ∈ concat d2) →
       computeHash v (scan d1) = computeHash v (scan d2))
  ∧ (∀ S : list jsstring,
       Sorted lexle S → NoDup S →
       computeHash v (sort (remove_dups S)) = computeHash v S).
Proof.
  split; [|split].
  - intros d. by rewrite scan_canonical.
  - intros d1 d2 Hc. by rewrite (scan_same_classes d1 d2).
  - intros S Hs Hn. by rewrite remove_dups_NoDup, sort_sorted.
Qed.

Lemma computeHash_scan_canonical_witness :
  computeHash (lit "v1") (scan [[lit "b"; lit "a"]; [lit "a"]])
  = computeHash (lit "v1") (scan [[lit "a"]; [lit "b"; lit "b"]])
  ∧ computeHash (lit "v1") (sort (remove_dups [lit "a"; lit "b"]))
    = computeHash (lit "v1") [lit "a"; lit "b"].
Proof.
  split.
  - apply (proj1 (proj2 (computeHash_scan_canonical (lit "v1")))).
    intros c. simpl. rewrite !elem_of_cons, !elem_of_nil. tauto.
  - apply (proj2 (proj2 (computeHash_scan_canonical (lit "v1")))).
    + repeat constructor.
    + apply NoDup_cons_2; [|apply NoDup_singleton].
      intros Hab%list_elem_of_singleton. discriminate Hab.
Defined.

(** ** Reasoning about states *)

(** The primitives that are one or two assignments. *)
Lemma emit_unfold {A} (p : State → A) o s :
  p (emit o s) = p (set_trace (o :: trace s) s).
Proof. reflexivity. Qed.

Lemma spawn_unfold {A} (p : State → A) t s :
  p (spawn t s) = p (set_tasks (tasks s ++ [t]) s).
Proof. reflexivity. Qed.

Lemma createElement_unfold {A} (p : State → A) k s :
  p (createElement k s) = p (set_created (created s ++ [fresh_node k s]) s).
Proof. reflexivity. Qed.

Lemma removeChild_unfold {A} (p : State → A) n s :
  p (removeChild n s) =
  p (set_trace (ORemove n :: trace s) (set_docHead (without n (docHead s)) s)).
Proof. reflexivity. Qed.

Lemma appendChild_unfold {A} (p : State → A) n s :
  p (appendChild n s) =
  p (set_trace (OAppend n :: trace s) (set_docHead (without n (docHead s) ++ [n]) s)).
Proof. reflexivity. Qed.

(** The variable a setter assigns. *)
Ltac field_of f :=
  lazymatch f with
  | set_doc => doc
  | set_docHead => docHead
  | set_created => created
  | set_settled => settled
  | set_sessionStorage => sessionStorage
  | set_localStorage => localStorage
  | set_timerArmed => timerArmed
  | set_tasks => tasks
  | set_trace => trace
  | set_uncloaked => uncloaked
  | set_optimisticId => optimisticId
  | set_optimisticEl => optimisticEl
  | set_optimisticLoaded => optimisticLoaded
  | set_active => active
  | set_versionToken => versionToken
  | set_currentId => currentId
  | set_ready => ready
  | set_loading => loading
  | set_needsRescan => needsRescan
  end.

(** Close an equation whose sides are literally the same. *)
Ltac same := lazymatch goal with |- ?a = ?b => constr_eq a b; reflexivity end.

(** [layer p h s] gives, for a helper [h] that leaves the variable [p]
    alone, a proof of [p (h s) = p s]; it is extended as helpers get their
    frame lemmas. *)
Ltac layer p h s := fail.

(** Read the variable [p] through the assignment [f v s]. The equation is
    stated and proved on variables, then instantiated: state expressions are
    never unfolded or compared up to conversion. *)
Ltac st_setter rw p f v s :=
  let q := field_of f in
  let Ty := type of v in
  let H := fresh "Hst" in
  first
    [ constr_eq p q;
      assert (H : ∀ (v0 : Ty) (s0 : State), p (f v0 s0) = v0)
        by (intros; reflexivity)
    | assert (H : ∀ (v0 : Ty) (s0 : State), p (f v0 s0) = p s0)
        by (intros; reflexivity) ];
  rw (H v s); clear H.

(** One step of reading [p] through the head of the state expression [T]. *)
Ltac st_at rw p T :=
  lazymatch T with
  | emit ?o ?s => rw (emit_unfold p o s)
  | spawn ?t ?s => rw (spawn_unfold p t s)
  | createElement ?k ?s => rw (createElement_unfold p k s)
  | removeChild ?n ?s => rw (removeChild_unfold p n s)
  | appendChild ?n ?s => rw (appendChild_unfold p n s)
  | ?f ?v ?s =>
      first [ st_setter rw p f v s
            | let E := layer p (f v) s in rw E ]
  | ?h ?s => let E := layer p h s in rw E
  end.

Ltac rw_goal E := rewrite E.

Ltac st_step :=
  match goal with
  | |- context [API ?T] => st_at rw_goal API T
  | |- context [pageKey ?T] => st_at rw_goal pageKey T
  | |- context [doc ?T] => st_at rw_goal doc T
  | |- context [docHead ?T] => st_at rw_goal docHead T
  | |- context [created ?T] => st_at rw_goal created T
  | |- context [settled ?T] => st_at rw_goal settled T
  | |- context [sessionStorage ?T] => st_at rw_goal sessionStorage T
  | |- context [localStorage ?T] => st_at rw_goal localStorage T
  | |- context [timerArmed ?T] => st_at rw_goal timerArmed T
  | |- context [tasks ?T] => st_at rw_goal tasks T
  | |- context [trace ?T] => st_at rw_goal trace T
  | |- context [uncloaked ?T] => st_at rw_goal uncloaked T
  | |- context [optimisticId ?T] => st_at rw_goal optimisticId T
  | |- context [optimisticEl ?T] => st_at rw_goal optimisticEl T
  | |- context [optimisticLoaded ?T] => st_at rw_goal optimisticLoaded T
  | |- context [active ?T] => st_at rw_goal active T
  | |- context [versionToken ?T] => st_at rw_goal versionToken T
  | |- context [currentId ?T] => st_at rw_goal currentId T
  | |- context [ready ?T] => st_at rw_goal ready T
  | |- context [loading ?T] => st_at rw_goal loading T
  | |- context [needsRescan ?T] => st_at rw_goal needsRescan T
  end.

Ltac st_step_in H :=
  let rw E := (rewrite E in H) in
  match type of H with
  | context [API ?T] => st_at rw API T
  | context [pageKey ?T] => st_at rw pageKey T
  | context [doc ?T] => st_at rw doc T
  | context [docHead ?T] => st_at rw docHead T
  | context [created ?T] => st_at rw created T
  | context [settled ?T] => st_at rw settled T
  | context [sessionStorage ?T] => st_at rw sessionStorage T
  | context [localStorage ?T] => st_at rw localStorage T
  | context [timerArmed ?T] => st_at rw timerArmed T
  | context [tasks ?T] => st_at rw tasks T
  | context [trace ?T] => st_at rw trace T
  | context [uncloaked ?T] => st_at rw uncloaked T
  | context [optimisticId ?T] => st_at rw optimisticId T
  | context [optimisticEl ?T] => st_at rw optimisticEl T
  | context [optimisticLoaded ?T] => st_at rw optimisticLoaded T
  | context [active ?T] => st_at rw active T
  | context [versionToken ?T] => st_at rw versionToken T
  | context [currentId ?T] => st_at rw currentId T
  | context [ready ?T] => st_at rw ready T
  | context [loading ?T] => st_at rw loading T
  | context [needsRescan ?T] => st_at rw needsRescan T
  end.

(** Normalise the goal, or a hypothesis. *)
Ltac st := repeat st_step.
Ltac st_in H := repeat st_step_in H.

Lemma filter_delete_length {A} (P : A → bool) (l : list A) i t :
  l !! i = Some t →
  length (filter (λ x, P x) l) =
  (length (filter (λ x, P x) (delete i l)) + (if P t then 1 else 0))%nat.
Proof.
  revert i. induction l as [|x l IH]; intros [|i] Hi; simplify_eq/=.
  - rewrite filter_cons. destruct (P t); simpl; [|done].
    destruct (decide (Is_true true)) as [_|[]]; [simpl; lia|done].
  - rewrite !filter_cons. destruct (decide (P x)); simpl; rewrite (IH i) by done; lia.
Qed.

Lemma filter_snoc_length {A} (P : A → bool) (l : list A) t :
  length (filter (λ x, P x) (l ++ [t])) =
  (length (filter (λ x, P x) l) + (if P t then 1 else 0))%nat.
Proof.
  rewrite filter_app, length_app, filter_cons, filter_nil.
  destruct (P t); simpl; [|done].
  destruct (decide (Is_true true)) as [_|[]]; done.
Qed.

(** ** What the helpers leave alone *)

Lemma same_core_refl s : same_core s s.
Proof. unfold same_core. repeat apply conj; reflexivity. Qed.

Lemma same_core_trans s1 s2 s3 :
  same_core s1 s2 → same_core s2 s3 → same_core s1 s3.
Proof.
  unfold same_core. intros H12 H23. destruct_and!. repeat split; congruence.
Qed.

Ltac core_frame := unfold same_core; repeat apply conj; st; same.

(** Peel the state expression one layer at a time; [known] closes the
    layers that are helpers. *)
Ltac core_peel known :=
  repeat match goal with
         | |- same_core ?a ?b => constr_eq a b; apply same_core_refl
         | |- same_core (?f ?s') ?s =>
             apply (same_core_trans _ s' _); [first [known | core_frame]|]
         end.

Ltac core_auto := core_peel fail.

Lemma ssSet_core k v s : same_core (ssSet k v s) s.
Proof. unfold ssSet. destruct (sessionStorage s); core_auto. Qed.

Lemma ssDel_core k s : same_core (ssDel k s) s.
Proof. unfold ssDel. destruct (sessionStorage s); core_auto. Qed.

Lemma lsSet_core k v s : same_core (lsSet k v s) s.
Proof. unfold lsSet. destruct (localStorage s); core_auto. Qed.

Lemma removeChild_core n s : same_core (removeChild n s) s.
Proof. core_frame. Qed.

Lemma appendChild_core n s : same_core (appendChild n s) s.
Proof. core_frame. Qed.

Lemma createElement_core k s : same_core (createElement k s) s.
Proof. core_frame. Qed.

Ltac core_known0 :=
  idtac; lazymatch goal with
  | |- same_core (ssSet _ _ _) _ => apply ssSet_core
  | |- same_core (ssDel _ _) _ => apply ssDel_core
  | |- same_core (lsSet _ _ _) _ => apply lsSet_core
  | |- same_core (removeChild _ _) _ => apply removeChild_core
  | |- same_core (appendChild _ _) _ => apply appendChild_core
  | |- same_core (createElement _ _) _ => apply createElement_core
  end.

Lemma uncloak_core s : same_core (uncloak s) s.
Proof.
  unfold uncloak. destruct (uncloaked s); [apply same_core_refl|]. cbv zeta.
  destruct (attached _ _); core_peel core_known0.
Qed.

Lemma runCb_core cb s : same_core (runCb cb s) s.
Proof. destruct cb as [[]|]; [apply uncloak_core | apply same_core_refl]. Qed.

Lemma swapActive_core el s : same_core (swapActive el s) s.
Proof.
  unfold swapActive. cbv zeta.
  destruct (active s) as [a|]; [destruct (attached a s)|];
    (destruct (optimisticEl _); [destruct (_ && _)|]); core_peel core_known0.
Qed.

Ltac core_known1 :=
  idtac; lazymatch goal with
  | |- same_core (uncloak _) _ => apply uncloak_core
  | |- same_core (runCb _ _) _ => apply runCb_core
  | |- same_core (swapActive _ _) _ => apply swapActive_core
  | _ => core_known0
  end.

Lemma injectLink_core url cb s : same_core (injectLink url cb s) s.
Proof. unfold injectLink. cbv zeta. core_peel core_known1. Qed.

Lemma injectStyle_core text cb s : same_core (injectStyle text cb s) s.
Proof. unfold injectStyle. cbv zeta. core_peel core_known1. Qed.

Lemma optimistic_onload_core s : same_core (optimistic_onload s) s.
Proof.
  unfold optimistic_onload. cbv zeta. destruct (bool_decide _); core_peel core_known1.
Qed.

Lemma optimistic_onerror_core s : same_core (optimistic_onerror s) s.
Proof. unfold optimistic_onerror. cbv zeta. core_peel core_known1. Qed.

(** Read a variable of the core through a helper. *)
Ltac core_known :=
  idtac; lazymatch goal with
  | |- same_core (injectLink _ _ _) _ => apply injectLink_core
  | |- same_core (injectStyle _ _ _) _ => apply injectStyle_core
  | |- same_core (optimistic_onload _) _ => apply optimistic_onload_core
  | |- same_core (optimistic_onerror _) _ => apply optimistic_onerror_core
  | _ => core_known1
  end.

Ltac core_eq p h s :=
  let H := constr:(ltac:(core_known) : same_core (h s) s) in
  lazymatch p with
  | API => constr:(proj1 H)
  | pageKey => constr:(proj1 (proj2 H))
  | doc => constr:(proj1 (proj2 (proj2 H)))
  | settled => constr:(proj1 (proj2 (proj2 (proj2 H))))
  | tasks => constr:(proj1 (proj2 (proj2 (proj2 (proj2 H)))))
  | optimisticId => constr:(proj1 (proj2 (proj2 (proj2 (proj2 (proj2 H))))))
  | versionToken => constr:(proj1 (proj2 (proj2 (proj2 (proj2 (proj2 (proj2 H)))))))
  | currentId =>
      constr:(proj1 (proj2 (proj2 (proj2 (proj2 (proj2 (proj2 (proj2 H))))))))
  | ready =>
      constr:(proj1 (proj2 (proj2 (proj2 (proj2 (proj2 (proj2 (proj2 (proj2 H)))))))))
  | loading =>
      constr:(proj1 (proj2 (proj2 (proj2 (proj2 (proj2 (proj2 (proj2 (proj2
                (proj2 H))))))))))
  | needsRescan =>
      constr:(proj2 (proj2 (proj2 (proj2 (proj2 (proj2 (proj2 (proj2 (proj2
                (proj2 H))))))))))
  end.

Ltac layer p h s ::= core_eq p h s.

(** ** Single flight *)

Lemma nver_le_nres l : (nver l ≤ nres l)%nat.
Proof.
  unfold nver, nres. induction l as [|t l IH]; [done|].
  rewrite !filter_cons. destruct t; simpl; repeat case_decide; simpl in *; try done; lia.
Qed.

Lemma nres_snoc l t : nres (l ++ [t]) = (nres l + if is_resolution t then 1 else 0)%nat.
Proof. apply filter_snoc_length. Qed.

Lemma nver_snoc l t : nver (l ++ [t]) = (nver l + if is_version_task t then 1 else 0)%nat.
Proof. apply filter_snoc_length. Qed.

Lemma nres_delete l i t :
  l !! i = Some t → nres l = (nres (delete i l) + if is_resolution t then 1 else 0)%nat.
Proof. apply filter_delete_length. Qed.

Lemma nver_delete l i t :
  l !! i = Some t → nver l = (nver (delete i l) + if is_version_task t then 1 else 0)%nat.
Proof. apply filter_delete_length. Qed.

(** Follow the branches of a state expression, the property kept folded. *)
Ltac split_state :=
  repeat match goal with
         | |- context [if ?c then _ else _] => destruct c eqn:?
         | |- context [match ?c with _ => _ end] => destruct c eqn:?
         end.

(** Normalise the hypotheses left by the case analysis. *)
Ltac st_hyps :=
  repeat match goal with
         | H : _ |- _ => progress st_in H
         end.

Ltac flight_fin :=
  unfold flight_inv; st; st_hyps; rewrite ?nres_snoc, ?nver_snoc;
  cbn [is_resolution is_version_task];
  repeat match goal with
         | H : loading _ = _ |- _ => rewrite H in *
         | H : truthy _ = _ |- _ => rewrite H in *
         end;
  apply conj; intros;
  try match goal with H : is_Some None |- _ => destruct H; discriminate end;
  try match goal with H : is_Some _ → _ |- _ => specialize (H ltac:(eauto)) end;
  try lia; repeat case_match; try lia; try done.

Lemma boot_flight w : flight_inv (boot w).
Proof.
  unfold boot. cbv zeta.
  destruct (truthy _); unfold flight_inv; st; cbn [tasks loading versionToken blank];
    by split.
Qed.

Lemma load_flight sorted s : flight_inv s → flight_inv (load sorted s).
Proof.
  intros [H1 H2]. unfold load, doLoad, getVersion, fetchVersion, computeHash_start.
  split_state; flight_fin.
Qed.

Lemma take_resolution s i t :
  flight_inv s → tasks s !! i = Some t → is_resolution t = true →
  mid_flight (set_tasks (delete i (tasks s)) s).
Proof.
  intros [H1 H2] Hi Ht. unfold mid_flight. st.
  pose proof (nres_delete _ _ _ Hi) as Hr. rewrite Ht in Hr.
  pose proof (nver_le_nres (delete i (tasks s))) as Hle.
  destruct (loading s); [|lia]. repeat apply conj; [lia | done | lia].
Qed.

Lemma doLoad_hashed_flight id sorted s :
  mid_flight s → flight_inv (doLoad_hashed id sorted s).
Proof.
  intros (H1 & H2 & H3). unfold doLoad_hashed. cbv zeta.
  split_state; flight_fin.
Qed.

Lemma doLoad_compiled_flight d s :
  mid_flight s → flight_inv (doLoad_compiled d s).
Proof.
  intros (H1 & H2 & H3). unfold doLoad_compiled. cbv zeta.
  split_state; flight_fin.
Qed.

Lemma step_flight e s s' : flight_inv s → step e s = Some s' → flight_inv s'.
Proof.
  intros Hinv Hs. destruct e; unfold step, take_task in Hs.
  - simplify_eq. by apply load_flight.
  - simplify_eq. destruct Hinv. unfold preload. split_state; flight_fin.
  - simplify_eq. destruct Hinv. flight_fin.
  - simplify_eq. destruct Hinv. flight_fin.
  - destruct (timerArmed s); simplify_eq. destruct Hinv. flight_fin.
  - destruct (awaiting n s); [|done]. destruct Hinv. cbv zeta in Hs.
    destruct (kind n); simplify_eq; flight_fin.
  - destruct (awaiting n s); [|done]. destruct Hinv. cbv zeta in Hs.
    destruct (kind n); simplify_eq; flight_fin.
  - destruct (tasks s !! i) as [t|] eqn:Hi; simpl in Hs; [|done].
    destruct t; try done.
    destruct (take_resolution s i _ Hinv Hi eq_refl) as (H1 & H2 & H3).
    destruct r; simplify_eq;
      unfold fetchVersion_then, fetchVersion_catch, computeHash_start; flight_fin.
  - destruct (tasks s !! i) as [t|] eqn:Hi; simpl in Hs; [|done].
    destruct t; try done.
    pose proof (take_resolution s i _ Hinv Hi eq_refl) as Hm.
    destruct ok; simplify_eq; [by apply doLoad_hashed_flight|].
    destruct Hm as (H1 & H2 & H3). flight_fin.
  - destruct (tasks s !! i) as [t|] eqn:Hi; simpl in Hs; [|done].
    destruct t; try done.
    + pose proof (take_resolution s i _ Hinv Hi eq_refl) as Hm.
      destruct r; simplify_eq.
      * apply doLoad_compiled_flight. destruct Hm as (H1 & H2 & H3).
        unfold mid_flight. st. done.
      * destruct Hm as (H1 & H2 & H3). flight_fin.
    + pose proof (nres_delete _ _ _ Hi) as Hr. pose proof (nver_delete _ _ _ Hi) as Hv.
      cbn [is_resolution is_version_task] in Hr, Hv. destruct Hinv.
      destruct r; simplify_eq; unfold preload_then, preload_catch; flight_fin.
  - destruct (tasks s !! i) as [t|] eqn:Hi; simpl in Hs; [|done].
    destruct t; try done.
    destruct (take_resolution s i _ Hinv Hi eq_refl) as (H1 & H2 & H3).
    destruct ok; simplify_eq.
    + unfold load_fulfilled. cbv zeta. st. destruct (needsRescan s) eqn:Hn.
      * apply load_flight. flight_fin.
      * flight_fin.
    + unfold load_rejected. cbv zeta. flight_fin.
Qed.

Lemma reachable_flight w s : reachable w s → flight_inv s.
Proof.
  induction 1 as [|s e s' _ IH Hs]; [apply boot_flight | by eapply step_flight].
Qed.

(** ** The document and the active stylesheet *)

Lemma elem_of_without (n m : Node) (l : list Node) :
  m ∈ without n l ↔ m ∈ l ∧ m ≠ n.
Proof. unfold without. rewrite list_elem_of_filter. tauto. Qed.

Lemma NoDup_without (n : Node) (l : list Node) : NoDup l → NoDup (without n l).
Proof. apply NoDup_filter. Qed.

Lemma NoDup_attached_after (h : list Obs) : NoDup (attached_after h).
Proof.
  induction h as [|o h IH]; [constructor|].
  destruct o; simpl; try done.
  - apply NoDup_app. split; [by apply NoDup_without|]. split; [|apply NoDup_singleton].
    intros m Hm Hn. apply elem_of_without in Hm as [_ Hm].
    apply list_elem_of_singleton in Hn. done.
  - by apply NoDup_without.
Qed.

Lemma NoDup_all_equal {A} (x : A) (k : list A) :
  NoDup k → (∀ m, m ∈ k → m = x) → (length k ≤ 1)%nat.
Proof.
  intros Hk Hx. destruct k as [|a [|b k]]; simpl; try lia.
  assert (a = x) by (apply Hx; set_solver).
  assert (b = x) by (apply Hx; set_solver).
  subst. apply NoDup_cons in Hk as [Hk _]. set_solver.
Qed.

(** At most one attached node has been the active stylesheet, when all such
    nodes are one and the same. *)
Lemma active_attached_le_1 (h : list Obs) (x : option Node) :
  (∀ m, m ∈ attached_after h → m ∈ activated h → x = Some m) →
  (length (active_attached h) ≤ 1)%nat.
Proof.
  intros Hx. unfold active_attached.
  destruct x as [x|].
  - apply (NoDup_all_equal x); [apply NoDup_filter, NoDup_attached_after|].
    intros m [Hm Ha]%list_elem_of_filter. specialize (Hx m Ha Hm). congruence.
  - destruct (filter _ _) as [|m k] eqn:Hf; simpl; [lia|].
    assert (m ∈ filter (λ n, n ∈ activated h) (attached_after h)) as Hm
      by (rewrite Hf; set_solver).
    apply list_elem_of_filter in Hm as [Hm Ha]. by specialize (Hx m Ha Hm).
Qed.

Lemma each_moment_cons (o : Obs) (h : list Obs) :
  each_moment (o :: h) ↔ (length (active_attached (o :: h)) ≤ 1)%nat ∧ each_moment h.
Proof. reflexivity. Qed.

Lemma each_moment_now (h : list Obs) :
  each_moment h → (length (active_attached h) ≤ 1)%nat.
Proof. destruct h; intros [H _]; exact H. Qed.

Lemma each_moment_suffix (h h' : list Obs) :
  each_moment h → h' `suffix_of` h → (length (active_attached h') ≤ 1)%nat.
Proof.
  induction h as [|o h IH]; intros Hm Hs.
  - apply suffix_nil_inv in Hs as ->. by apply each_moment_now.
  - apply each_moment_cons in Hm as [Hm1 Hm2].
    destruct Hs as [[|o' k] Hk]; simplify_eq/=; [done|].
    apply IH; [done | by exists k].
Qed.

Lemma inert_attached o h : inert o → attached_after (o :: h) = attached_after h.
Proof. by destruct o. Qed.

Lemma inert_activated o h : inert o → activated (o :: h) = activated h.
Proof. by destruct o. Qed.

(** Split the invariant into its six parts, the last one kept folded. *)
Ltac micro_split :=
  unfold micro_inv;
  apply conj; [|apply conj; [|apply conj; [|apply conj; [|apply conj]]]].

(** The invariant only reads four variables. *)
Lemma micro_inv_ext (s s' : State) :
  trace s' = trace s → docHead s' = docHead s → created s' = created s →
  active s' = active s → micro_inv s → micro_inv s'.
Proof. unfold micro_inv. intros -> -> -> ->. done. Qed.

Lemma micro_inv_now (s : State) :
  micro_inv s → (length (active_attached (trace s)) ≤ 1)%nat.
Proof. intros (_ & _ & _ & _ & _ & Hm). by apply each_moment_now. Qed.

Lemma micro_emit o s : inert o → micro_inv s → micro_inv (emit o s).
Proof.
  intros Ho (H1 & H2 & H3 & H4 & H5 & H6).
  assert (each_moment (o :: trace s)) as H6'.
  { apply each_moment_cons. split; [|done]. unfold active_attached.
    rewrite inert_attached, inert_activated by done.
    by apply each_moment_now. }
  micro_split; st; rewrite ?inert_attached, ?inert_activated by done; done.
Qed.

Lemma micro_removeChild n s : micro_inv s → micro_inv (removeChild n s).
Proof.
  intros (H1 & H2 & H3 & H4 & H5 & H6).
  assert (∀ m, m ∈ without n (docHead s) →
               m ∈ activated (trace s) → active s = Some m) as H5'.
  { intros m [Hm _]%elem_of_without. by apply H5. }
  micro_split; st; cbn [attached_after activated]; rewrite ?H1; try done.
  - intros m [Hm _]%elem_of_without. by apply H3.
  - apply each_moment_cons. split; [|done].
    apply (active_attached_le_1 _ (active s)). cbn [attached_after activated].
    rewrite H1. done.
Qed.

Lemma micro_appendChild n s :
  micro_inv s → n ∈ created s →
  (n ∈ activated (trace s) → active s = Some n) →
  micro_inv (appendChild n s).
Proof.
  intros (H1 & H2 & H3 & H4 & H5 & H6) Hn Ha.
  assert (∀ m, m ∈ without n (docHead s) ++ [n] →
               m ∈ activated (trace s) → active s = Some m) as H5'.
  { intros m [[Hm _]%elem_of_without | ->%list_elem_of_singleton]%elem_of_app;
      [by apply H5 | done]. }
  micro_split; st; cbn [attached_after activated]; rewrite ?H1; try done.
  - intros m [[Hm _]%elem_of_without | ->%list_elem_of_singleton]%elem_of_app;
      [by apply H3 | done].
  - apply each_moment_cons. split; [|done].
    apply (active_attached_le_1 _ (active s)). cbn [attached_after activated].
    rewrite H1. done.
Qed.

(** The assignment [active = n], when no other attached node has been active. *)
Lemma micro_activate n s :
  micro_inv s → n ∈ created s →
  (∀ m, m ∈ docHead s → m ∈ activated (trace s) → m = n) →
  micro_inv (emit (OActive n) (set_active (Some n) s)).
Proof.
  intros (H1 & H2 & H3 & H4 & H5 & H6) Hn Ha.
  assert (∀ m, m ∈ docHead s → m ∈ n :: activated (trace s) → Some n = Some m) as H5'.
  { intros m Hm [-> | Hm']%elem_of_cons; [done|]. f_equal. symmetry. by apply Ha. }
  micro_split; st; cbn [attached_after activated]; rewrite ?H1; try done.
  - intros m [-> | Hm]%elem_of_cons; [done | by apply H4].
  - apply each_moment_cons. split; [|done].
    apply (active_attached_le_1 _ (Some n)). cbn [attached_after activated].
    rewrite H1. done.
Qed.

Lemma fresh_node_not_created k s :
  micro_inv s → fresh_node k s ∉ created s.
Proof.
  intros (_ & H2 & _) [i Hi]%list_elem_of_lookup.
  pose proof (lookup_lt_Some _ _ _ Hi) as Hlt.
  apply H2 in Hi. unfold fresh_node in Hi. simpl in Hi. lia.
Qed.

Lemma micro_createElement k s : micro_inv s → micro_inv (createElement k s).
Proof.
  intros (H1 & H2 & H3 & H4 & H5 & H6). micro_split; st; try done.
  - intros i n [Hi | [Hle [Hi <-]%list_lookup_singleton_Some]]%lookup_app_Some.
    + by apply H2.
    + unfold fresh_node. simpl. lia.
  - intros n Hn. apply elem_of_app. left. by apply H3.
  - intros n Hn. apply elem_of_app. left. by apply H4.
Qed.

Lemma created_createElement k s :
  created (createElement k s) = created s ++ [fresh_node k s].
Proof. reflexivity. Qed.

(** ** The speculative link and the cloak *)

Ltac gate_split :=
  unfold gate_inv; apply conj; [|apply conj; [|apply conj; [|apply conj]]].

Lemma releases_cons o h :
  releases (o :: h) = ((if is_release o then 1 else 0) + releases h)%nat.
Proof.
  unfold releases. rewrite filter_cons. destruct (is_release o); simpl; [|done].
  destruct (decide (Is_true true)) as [_|[]]; done.
Qed.

Lemma releases_inert o h : inert o → releases (o :: h) = releases h.
Proof. intros Ho. rewrite releases_cons. by destruct o. Qed.

(** *** Assignments the invariants do not read *)

Lemma page_inv_ext (s s' : State) :
  trace s' = trace s → docHead s' = docHead s → created s' = created s →
  active s' = active s → optimisticEl s' = optimisticEl s →
  optimisticId s' = optimisticId s → API s' = API s →
  uncloaked s' = uncloaked s → timerArmed s' = timerArmed s →
  page_inv s → page_inv s'.
Proof.
  unfold page_inv, micro_inv, spec_inv, gate_inv.
  intros -> -> -> -> -> -> -> -> ->. done.
Qed.

(** *** Observations that leave the document alone *)

Lemma page_emit o s : inert o → page_inv s → page_inv (emit o s).
Proof.
  intros Ho (Hm & Hs & Hg). split; [by apply micro_emit|]. split.
  - unfold spec_inv. st. rewrite inert_activated by done. exact Hs.
  - destruct Hg as (G1 & G2 & G3 & G4 & G5).
    gate_split; st; rewrite ?releases_inert by done; done.
Qed.

Lemma page_ssSet k v s : page_inv s → page_inv (ssSet k v s).
Proof.
  intros H. unfold ssSet. destruct (sessionStorage s); [|done].
  apply page_emit; [done|]. revert H. apply page_inv_ext; st; same.
Qed.

Lemma page_ssDel k s : page_inv s → page_inv (ssDel k s).
Proof.
  intros H. unfold ssDel. destruct (sessionStorage s); [|done].
  apply page_emit; [done|]. revert H. apply page_inv_ext; st; same.
Qed.

Lemma page_lsSet k v s : page_inv s → page_inv (lsSet k v s).
Proof.
  intros H. unfold lsSet. destruct (localStorage s); [|done].
  apply page_emit; [done|]. revert H. apply page_inv_ext; st; same.
Qed.

(** *** The cloak *)

Lemma cloak_kind (n : Node) : kind n ≠ CloakStyle → n ≠ cloak.
Proof. intros Hk ->. by apply Hk. Qed.

Lemma micro_uncloak s : micro_inv s → micro_inv (uncloak s).
Proof.
  intros Hm. unfold uncloak. destruct (uncloaked s); [done|]. cbv zeta.
  assert (micro_inv (emit OClearTimeout (set_timerArmed false (set_uncloaked true s)))).
  { apply micro_emit; [done|]. revert Hm. apply micro_inv_ext; st; same. }
  destruct (attached _ _); [by apply micro_removeChild | done].
Qed.

Lemma spec_uncloak s : spec_inv s → spec_inv (uncloak s).
Proof.
  intros Hs. unfold uncloak. destruct (uncloaked s); [done|]. cbv zeta.
  destruct (attached _ _); unfold spec_inv; st; cbn [activated]; [|exact Hs].
  intros o Ho. destruct (Hs o Ho) as (H1 & H2 & H3 & (id & H4 & H5)).
  repeat apply conj; try done; [|by exists id].
  apply elem_of_without. split; [done|]. apply cloak_kind. by rewrite H5.
Qed.

Lemma gate_uncloak s : gate_inv s → gate_inv (uncloak s).
Proof.
  intros (G1 & G2 & G3 & G4 & G5). unfold uncloak.
  destruct (uncloaked s) eqn:Hu; [gate_split; auto|]. cbv zeta.
  unfold attached. st. case_bool_decide as Hc.
  - specialize (G2 Hc).
    gate_split; st; rewrite ?releases_cons; cbn [is_release];
      rewrite ?bool_decide_eq_true_2 by done; rewrite ?G2; try done.
    + intros _. split; [|done]. intros [_ ?]%elem_of_without. done.
    + intros [_ ?]%elem_of_without. done.
  - gate_split; st; rewrite ?releases_cons; cbn [is_release]; try done.
Qed.

Lemma page_uncloak s : page_inv s → page_inv (uncloak s).
Proof.
  intros (Hm & Hs & Hg).
  split; [by apply micro_uncloak | split; [by apply spec_uncloak | by apply gate_uncloak]].
Qed.

Lemma page_runCb cb s : page_inv s → page_inv (runCb cb s).
Proof. destruct cb as [[]|]; [apply page_uncloak | done]. Qed.

(** *** Swapping the active stylesheet *)

(** After the previous active node is detached, no attached node has been
    the active stylesheet. *)
Lemma detached_none_active s :
  micro_inv s →
  ∀ m, m ∈ match active s with
           | Some a => without a (docHead s)
           | None => docHead s
           end →
       m ∈ activated (trace s) → False.
Proof.
  intros (_ & _ & _ & _ & H5 & _) m Hm Ha.
  destruct (active s) as [a|] eqn:Ea.
  - apply elem_of_without in Hm as [Hm Hne].
    specialize (H5 m Hm Ha). congruence.
  - specialize (H5 m Hm Ha). congruence.
Qed.

Lemma without_notin (n : Node) (l : list Node) : n ∉ l → without n l = l.
Proof.
  intros Hn. unfold without. induction l as [|x l IH]; [done|].
  rewrite filter_cons. apply not_elem_of_cons in Hn as [Hx Hl].
  destruct (decide (x ≠ n)) as [|Hxn]; [by rewrite IH |].
  exfalso. apply Hxn. intros ->. by apply Hx.
Qed.

Lemma detachActive_docHead s :
  docHead (detachActive s) =
  match active s with
  | Some a => without a (docHead s)
  | None => docHead s
  end.
Proof.
  unfold detachActive. destruct (active s) as [a|]; [|done].
  unfold attached. case_bool_decide; st; [done|]. by rewrite without_notin.
Qed.

Lemma detachActive_activated s :
  activated (trace (detachActive s)) = activated (trace s).
Proof.
  unfold detachActive. destruct (active s) as [a|]; [|done].
  destruct (attached a s); st; done.
Qed.

Lemma detachActive_created s : created (detachActive s) = created s.
Proof.
  unfold detachActive. destruct (active s) as [a|]; [|done].
  destruct (attached a s); st; done.
Qed.

Lemma detachActive_optimisticEl s : optimisticEl (detachActive s) = optimisticEl s.
Proof.
  unfold detachActive. destruct (active s) as [a|]; [|done].
  destruct (attached a s); st; done.
Qed.

Lemma micro_detachActive s : micro_inv s → micro_inv (detachActive s).
Proof.
  intros Hm. unfold detachActive. destruct (active s) as [a|]; [|done].
  destruct (attached a s); [by apply micro_removeChild | done].
Qed.

Lemma swapActive_unfold el s :
  swapActive el s =
  let s3 := appendChild el (emit (OActive el) (set_active (Some el) (detachActive s))) in
  match optimisticEl s3 with
  | Some o =>
      if bool_decide (o ≠ el) && attached o s3
      then set_optimisticEl None (removeChild o s3)
      else s3
  | None => s3
  end.
Proof. reflexivity. Qed.

Lemma micro_swapActive el s :
  micro_inv s → el ∈ created s → micro_inv (swapActive el s).
Proof.
  intros Hm Hel. rewrite swapActive_unfold.
  pose proof (micro_detachActive s Hm) as H1.
  pose proof (detached_none_active s Hm) as Hnone.
  rewrite <- detachActive_docHead, <- detachActive_activated in Hnone.
  pose proof (detachActive_created s) as Hc.
  set (s1 := detachActive s) in *. clearbody s1.
  assert (micro_inv (emit (OActive el) (set_active (Some el) s1))) as H2.
  { apply micro_activate; [done | by rewrite Hc |].
    intros m Hm1 Hm2. by destruct (Hnone m). }
  assert (micro_inv (appendChild el (emit (OActive el) (set_active (Some el) s1)))) as H3.
  { apply micro_appendChild; [done | st; by rewrite Hc | st; done]. }
  cbv zeta.
  set (s3 := appendChild el _) in *. clearbody s3.
  destruct (optimisticEl s3) as [o|]; [|done].
  destruct (_ && _); [|done].
  apply (micro_inv_ext (removeChild o s3)); try (st; same).
  by apply micro_removeChild.
Qed.

Lemma swapActive_optimisticEl el s :
  spec_inv s → el ∉ docHead s → optimisticEl (swapActive el s) = None.
Proof.
  intros Hs Hel. rewrite swapActive_unfold. cbv zeta.
  unfold attached. st. rewrite detachActive_optimisticEl, detachActive_docHead.
  destruct (optimisticEl s) as [o|] eqn:Eo; [|st; by rewrite detachActive_optimisticEl].
  destruct (Hs o Eo) as (H1 & _ & H3 & _). rewrite H3.
  assert (o ≠ el) as Hne by (intros ->; done).
  rewrite (bool_decide_eq_true_2 _ Hne).
  rewrite bool_decide_eq_true_2; [st; done|].
  apply elem_of_app. left. apply elem_of_without. done.
Qed.

Lemma spec_swapActive el s :
  spec_inv s → el ∉ docHead s → spec_inv (swapActive el s).
Proof.
  intros Hs Hel o Ho. rewrite swapActive_optimisticEl in Ho by done. done.
Qed.

Lemma gate_swapActive el s :
  gate_inv s → kind el ≠ CloakStyle → gate_inv (swapActive el s).
Proof.
  intros Hg Hk.
  assert (gate_inv (detachActive s)) as H1.
  { unfold detachActive. destruct (active s) as [a|] eqn:Ea; [|done].
    unfold attached. case_bool_decide; [|done].
    destruct Hg as (G1 & G2 & G3 & G4 & G5).
    pose proof (cloak_kind a (G4 a Ea)) as Hne.
    gate_split; st; rewrite ?releases_cons; cbn [is_release];
      rewrite ?bool_decide_eq_false_2 by done; try done.
    - intros Hu. destruct (G1 Hu) as [Hc Ht]. split; [|done].
      intros [? _]%elem_of_without. done.
    - intros [? _]%elem_of_without. by apply G2. }
  rewrite swapActive_unfold. clear Hg.
  set (s1 := detachActive s) in *. clearbody s1.
  destruct H1 as (G1 & G2 & G3 & G4 & G5).
  pose proof (cloak_kind el Hk) as Hne.
  assert (gate_inv (appendChild el (emit (OActive el) (set_active (Some el) s1)))) as H3.
  { gate_split; st; rewrite ?releases_cons; cbn [is_release]; try done.
    - intros Hu. destruct (G1 Hu) as [Hc Ht]. split; [|done].
      intros [[? _]%elem_of_without| ?%list_elem_of_singleton]%elem_of_app;
        [done | congruence].
    - intros [[? _]%elem_of_without| ?%list_elem_of_singleton]%elem_of_app;
        [auto | congruence].
    - intros a [= <-]. done. }
  cbv zeta. set (s3 := appendChild el _) in *. clearbody s3.
  destruct (optimisticEl s3) as [o|] eqn:Eo; [|done].
  destruct (_ && _); [|done].
  destruct H3 as (K1 & K2 & K3 & K4 & K5).
  pose proof (cloak_kind o (K5 o Eo)) as Hno.
  gate_split; st; rewrite ?releases_cons; cbn [is_release];
    rewrite ?bool_decide_eq_false_2 by done; try done.
  - intros Hu. destruct (K1 Hu) as [Hc Ht]. split; [|done].
    intros [? _]%elem_of_without. done.
  - intros [? _]%elem_of_without. by apply K2.
Qed.

Lemma page_swapActive el s :
  page_inv s → el ∈ created s → el ∉ docHead s → kind el ≠ CloakStyle →
  page_inv (swapActive el s).
Proof.
  intros (Hm & Hs & Hg) H1 H2 H3.
  split; [by apply micro_swapActive |
          split; [by apply spec_swapActive | by apply gate_swapActive]].
Qed.

(** *** New elements *)

Lemma page_createElement k s : page_inv s → page_inv (createElement k s).
Proof.
  intros (Hm & Hs & Hg). split; [by apply micro_createElement|]. split.
  - unfold spec_inv. st. exact Hs.
  - unfold gate_inv. st. exact Hg.
Qed.

Lemma fresh_node_detached k s : micro_inv s → fresh_node k s ∉ docHead s.
Proof.
  intros Hm Hin. apply (fresh_node_not_created k s Hm).
  destruct Hm as (_ & _ & H3 & _). by apply H3.
Qed.

Lemma fresh_node_never_active k s : micro_inv s → fresh_node k s ∉ activated (trace s).
Proof.
  intros Hm Hin. apply (fresh_node_not_created k s Hm).
  destruct Hm as (_ & _ & _ & H4 & _). by apply H4.
Qed.

Lemma fresh_node_created k s : fresh_node k s ∈ created (createElement k s).
Proof.
  rewrite created_createElement. apply elem_of_app. right.
  by apply list_elem_of_singleton.
Qed.

Lemma page_inject k s :
  page_inv s → k ≠ CloakStyle →
  page_inv (swapActive (fresh_node k s) (createElement k s)).
Proof.
  intros H Hk. apply page_swapActive.
  - by apply page_createElement.
  - apply fresh_node_created.
  - st. apply fresh_node_detached, H.
  - exact Hk.
Qed.

Lemma page_injectLink url cb s : page_inv s → page_inv (injectLink url cb s).
Proof. intros H. unfold injectLink. cbv zeta. by apply page_inject. Qed.

Lemma page_injectStyle text cb s : page_inv s → page_inv (injectStyle text cb s).
Proof.
  intros H. unfold injectStyle. cbv zeta. by apply page_runCb, page_inject.
Qed.

(** A node that is not the cloak and was never active is attached. *)
Lemma page_appendChild n s :
  page_inv s → n ∈ created s → n ∉ activated (trace s) → kind n ≠ CloakStyle →
  page_inv (appendChild n s).
Proof.
  intros (Hm & Hs & Hg) H1 H2 H3. pose proof (cloak_kind n H3) as Hne.
  split; [by apply micro_appendChild|]. split.
  - unfold spec_inv. st. cbn [activated]. intros o Ho.
    destruct (Hs o Ho) as (K1 & K2 & K3 & K4).
    repeat apply conj; try done.
    destruct (decide (o = n)) as [->|Hon].
    + apply elem_of_app. right. by apply list_elem_of_singleton.
    + apply elem_of_app. left. by apply elem_of_without.
  - destruct Hg as (G1 & G2 & G3 & G4 & G5).
    gate_split; st; rewrite ?releases_cons; cbn [is_release]; try done.
    + intros Hu. destruct (G1 Hu) as [Hc Ht]. split; [|done].
      intros [[? _]%elem_of_without| ?%list_elem_of_singleton]%elem_of_app;
        [done | congruence].
    + intros [[? _]%elem_of_without| ?%list_elem_of_singleton]%elem_of_app;
        [auto | congruence].
Qed.

Lemma page_prefetch k s :
  page_inv s → k ≠ CloakStyle →
  page_inv (appendChild (fresh_node k s) (createElement k s)).
Proof.
  intros H Hk. apply page_appendChild.
  - by apply page_createElement.
  - apply fresh_node_created.
  - st. apply fresh_node_never_active, H.
  - exact Hk.
Qed.

(** *** The speculative link is promoted, confirmed or dropped *)

Lemma page_promote o s :
  page_inv s → optimisticEl s = Some o →
  page_inv (set_optimisticEl None (emit (OActive o) (set_active (Some o) s))).
Proof.
  intros (Hm & Hs & Hg) Ho. destruct (Hs o Ho) as (K1 & K2 & K3 & K4).
  split; [|split].
  - apply (micro_inv_ext (emit (OActive o) (set_active (Some o) s))); try (st; same).
    apply micro_activate; [done | |].
    + destruct Hm as (_ & _ & H3 & _). by apply H3.
    + intros m _. rewrite K2. by intros ?%elem_of_nil.
  - unfold spec_inv. st. done.
  - destruct Hg as (G1 & G2 & G3 & G4 & G5).
    gate_split; st; rewrite ?releases_cons; cbn [is_release]; try done.
    intros a [= <-]. by apply G5.
Qed.

Lemma page_forget s : page_inv s → page_inv (set_optimisticEl None s).
Proof.
  intros (Hm & Hs & Hg). split; [|split].
  - revert Hm. apply micro_inv_ext; st; same.
  - unfold spec_inv. st. done.
  - destruct Hg as (G1 & G2 & G3 & G4 & G5). gate_split; st; done.
Qed.

Lemma page_optimistic_onload s : page_inv s → page_inv (optimistic_onload s).
Proof.
  intros H. unfold optimistic_onload. cbv zeta.
  assert (page_inv (set_optimisticLoaded true s)) as H1.
  { revert H. apply page_inv_ext; st; same. }
  destruct (bool_decide _); [by apply page_uncloak | done].
Qed.

Lemma page_optimistic_onerror s : page_inv s → page_inv (optimistic_onerror s).
Proof.
  intros H. unfold optimistic_onerror. cbv zeta. apply page_ssDel.
  apply (page_inv_ext (set_optimisticEl None s)); try (st; same).
  by apply page_forget.
Qed.

Lemma page_disarm s : page_inv s → page_inv (set_timerArmed false s).
Proof.
  intros (Hm & Hs & Hg). split; [|split].
  - revert Hm. apply micro_inv_ext; st; same.
  - unfold spec_inv. st. exact Hs.
  - destruct Hg as (G1 & G2 & G3 & G4 & G5). gate_split; st; try done.
    intros Hu. split; [|done]. by apply G1.
Qed.

(** *** Assignments to variables the invariants do not read *)
Lemma page_set_doc v s : page_inv s → page_inv (set_doc v s).
Proof. apply page_inv_ext; st; same. Qed.
Lemma page_set_settled v s : page_inv s → page_inv (set_settled v s).
Proof. apply page_inv_ext; st; same. Qed.
Lemma page_set_sessionStorage v s : page_inv s → page_inv (set_sessionStorage v s).
Proof. apply page_inv_ext; st; same. Qed.
Lemma page_set_localStorage v s : page_inv s → page_inv (set_localStorage v s).
Proof. apply page_inv_ext; st; same. Qed.
Lemma page_set_tasks v s : page_inv s → page_inv (set_tasks v s).
Proof. apply page_inv_ext; st; same. Qed.
Lemma page_set_optimisticLoaded v s : page_inv s → page_inv (set_optimisticLoaded v s).
Proof. apply page_inv_ext; st; same. Qed.
Lemma page_set_versionToken v s : page_inv s → page_inv (set_versionToken v s).
Proof. apply page_inv_ext; st; same. Qed.
Lemma page_set_currentId v s : page_inv s → page_inv (set_currentId v s).
Proof. apply page_inv_ext; st; same. Qed.
Lemma page_set_ready v s : page_inv s → page_inv (set_ready v s).
Proof. apply page_inv_ext; st; same. Qed.
Lemma page_set_loading v s : page_inv s → page_inv (set_loading v s).
Proof. apply page_inv_ext; st; same. Qed.
Lemma page_set_needsRescan v s : page_inv s → page_inv (set_needsRescan v s).
Proof. apply page_inv_ext; st; same. Qed.
Lemma page_spawn t s : page_inv s → page_inv (spawn t s).
Proof. apply page_inv_ext; st; same. Qed.

(** One statement of the script is peeled off the state. *)
Ltac page_peel :=
  lazymatch goal with
  | |- page_inv (set_doc _ _) => apply page_set_doc
  | |- page_inv (set_settled _ _) => apply page_set_settled
  | |- page_inv (set_sessionStorage _ _) => apply page_set_sessionStorage
  | |- page_inv (set_localStorage _ _) => apply page_set_localStorage
  | |- page_inv (set_tasks _ _) => apply page_set_tasks
  | |- page_inv (set_optimisticLoaded _ _) => apply page_set_optimisticLoaded
  | |- page_inv (set_versionToken _ _) => apply page_set_versionToken
  | |- page_inv (set_currentId _ _) => apply page_set_currentId
  | |- page_inv (set_ready _ _) => apply page_set_ready
  | |- page_inv (set_loading _ _) => apply page_set_loading
  | |- page_inv (set_needsRescan _ _) => apply page_set_needsRescan
  | |- page_inv (spawn _ _) => apply page_spawn
  | |- page_inv (emit _ _) => apply page_emit; [exact I|]
  | |- page_inv (ssSet _ _ _) => apply page_ssSet
  | |- page_inv (ssDel _ _) => apply page_ssDel
  | |- page_inv (lsSet _ _ _) => apply page_lsSet
  | |- page_inv (uncloak _) => apply page_uncloak
  | |- page_inv (runCb _ _) => apply page_runCb
  | |- page_inv (injectLink _ _ _) => apply page_injectLink
  | |- page_inv (injectStyle _ _ _) => apply page_injectStyle
  | |- page_inv (appendChild (fresh_node ?k ?X) (createElement ?k ?X)) =>
      apply page_prefetch; [|discriminate]
  | |- page_inv (optimistic_onload _) => apply page_optimistic_onload
  | |- page_inv (optimistic_onerror _) => apply page_optimistic_onerror
  | |- page_inv (set_timerArmed false _) => apply page_disarm
  end.

Ltac page := repeat page_peel; try assumption.

(** *** The script's top level *)

Lemma micro_blank w : micro_inv (blank w).
Proof.
  micro_split; cbn [blank trace docHead created active attached_after activated];
    try done; try (intros n Hn; by apply elem_of_nil in Hn).
  cbn [each_moment]. split; [|done]. cbn. lia.
Qed.

Lemma micro_boot w : micro_inv (boot w).
Proof.
  unfold boot. cbv zeta.
  assert (micro_inv (appendChild (fresh_node CloakStyle (blank w))
                                 (createElement CloakStyle (blank w)))) as H1.
  { pose proof (micro_blank w) as H0. apply micro_appendChild.
    - by apply micro_createElement.
    - apply fresh_node_created.
    - intros Hin. exfalso. revert Hin. st. by apply fresh_node_never_active. }
  set (s1 := appendChild _ _) in *. clearbody s1.
  assert (micro_inv (set_optimisticId (ssGet (pageKey (set_uncloaked false (set_timerArmed true s1)))
                                             (set_uncloaked false (set_timerArmed true s1)))
                                      (set_uncloaked false (set_timerArmed true s1)))) as H2.
  { revert H1. apply micro_inv_ext; st; same. }
  set (s2 := set_optimisticId _ _) in *. clearbody s2.
  destruct (truthy (optimisticId s2)) as [id|]; [|done].
  apply micro_appendChild.
  - apply (micro_inv_ext (createElement (OptimisticLink (cssUrl s2 id)) s2)); try (st; same).
    by apply micro_createElement.
  - st. apply fresh_node_created.
  - intros Hin. exfalso. revert Hin. st. by apply fresh_node_never_active.
Qed.
Lemma spec_boot w : spec_inv (boot w).
Proof.
  unfold boot. cbv zeta.
  destruct (truthy _) as [id|] eqn:E; unfold spec_inv, cssUrl; st;
    [|intros o Ho; discriminate Ho].
  st_in E. intros o [= <-]. repeat apply conj.
  - apply elem_of_app. right. by apply list_elem_of_singleton.
  - reflexivity.
  - reflexivity.
  - exists id. split; [exact E | reflexivity].
Qed.

Lemma gate_boot w : gate_inv (boot w).
Proof.
  unfold boot. cbv zeta.
  destruct (truthy _) as [id|] eqn:E; gate_split; st;
    rewrite ?releases_cons; cbn [is_release]; try done;
    try (intros a Ha; discriminate Ha); try (intros _; reflexivity); try (cbn; lia).
  intros o [= <-]. discriminate.
Qed.

Lemma page_boot w : page_inv (boot w).
Proof. split; [apply micro_boot | split; [apply spec_boot | apply gate_boot]]. Qed.

(** *** The loader *)

Lemma page_load sorted s : page_inv s → page_inv (load sorted s).
Proof.
  intros H. unfold load, doLoad, getVersion, fetchVersion, computeHash_start.
  destruct sorted; [page|]. destruct (loading s); [page|].
  destruct (truthy _); page.
Qed.

Lemma page_doLoad_hashed id sorted s :
  page_inv s → page_inv (doLoad_hashed id sorted s).
Proof.
  intros H. unfold doLoad_hashed. cbv zeta.
  destruct (_ && _).
  { apply page_spawn.
    assert (page_inv (set_ready true (set_currentId (Some id) s))) as H1 by page.
    set (s1 := set_ready true (set_currentId (Some id) s)) in *. clearbody s1.
    assert (page_inv (set_optimisticEl None
              match optimisticEl s1 with
              | Some o => emit (OActive o) (set_active (Some o) s1)
              | None => s1
              end)) as H2.
    { destruct (optimisticEl s1) as [o|] eqn:Eo;
        [by apply page_promote | by apply page_forget]. }
    destruct (optimisticLoaded _); page. }
  destruct (bool_decide (Some id = currentId s)); [page|].
  destruct (bool_decide _); page.
Qed.

Lemma page_doLoad_compiled d s : page_inv s → page_inv (doLoad_compiled d s).
Proof.
  intros H. unfold doLoad_compiled. cbv zeta.
  destruct (truthy (css d)); page.
Qed.

Lemma page_load_fulfilled s : page_inv s → page_inv (load_fulfilled s).
Proof.
  intros H. unfold load_fulfilled. cbv zeta.
  destruct (needsRescan _); [apply page_load|]; page.
Qed.

Lemma page_load_rejected s : page_inv s → page_inv (load_rejected s).
Proof. intros H. unfold load_rejected. cbv zeta. page. Qed.

Lemma page_preload classes s : page_inv s → page_inv (preload classes s).
Proof. intros H. unfold preload. destruct classes; page. Qed.

Lemma step_page e s s' : page_inv s → step e s = Some s' → page_inv s'.
Proof.
  intros H Hs. destruct e; unfold step, take_task in Hs.
  - simplify_eq. by apply page_load.
  - simplify_eq. by apply page_preload.
  - simplify_eq. page.
  - simplify_eq. page.
  - destruct (timerArmed s); simplify_eq. page.
  - destruct (awaiting n s); [|done]. cbv zeta in Hs.
    destruct (kind n); simplify_eq; page.
  - destruct (awaiting n s); [|done]. cbv zeta in Hs.
    destruct (kind n); simplify_eq; page.
  - destruct (tasks s !! i) as [t|]; simpl in Hs; [|done].
    destruct t; try done.
    destruct r; simplify_eq;
      unfold fetchVersion_then, fetchVersion_catch, computeHash_start; page.
  - destruct (tasks s !! i) as [t|]; simpl in Hs; [|done].
    destruct t; try done.
    destruct ok; simplify_eq; [apply page_doLoad_hashed|]; page.
  - destruct (tasks s !! i) as [t|]; simpl in Hs; [|done].
    destruct t; try done.
    + destruct r; simplify_eq; [apply page_doLoad_compiled|]; page.
    + destruct r; simplify_eq; unfold preload_then, preload_catch; page.
  - destruct (tasks s !! i) as [t|]; simpl in Hs; [|done].
    destruct t; try done.
    destruct ok; simplify_eq;
      [apply page_load_fulfilled | apply page_load_rejected]; page.
Qed.

Lemma reachable_page w s : reachable w s → page_inv s.
Proof.
  induction 1 as [|s e s' _ IH Hs]; [apply page_boot | by eapply step_page].
Qed.

(** ** Runs of the page *)

Lemma run_reachable w es s s' : reachable w s → run es s = Some s' → reachable w s'.
Proof.
  revert s. induction es as [|e es IH]; intros s Hr Hs.
  - simpl in Hs. by simplify_eq.
  - simpl in Hs. destruct (step e s) as [s1|] eqn:He; [|done].
    simpl in Hs. apply (IH s1); [by eapply reach_step | done].
Qed.

Lemma run_boot_reachable w es s : run es (boot w) = Some s → reachable w s.
Proof. apply run_reachable, reach_boot. Qed.

Lemma new_obs_app s s' l : trace s' = l ++ trace s → new_obs s s' = l.
Proof.
  intros H. unfold new_obs. rewrite H, length_app.
  replace (length l + length (trace s) - length (trace s))%nat with (length l) by lia.
  by rewrite take_app_length.
Qed.

(** ** The claims about the document *)

(** C2. After any sequence of events, the history replays to the document,
    and at every moment of the history, the intermediate moments of a swap
    included, at most one node that is or was the active stylesheet is
    attached. The speculative link counts from its promotion on. *)
Theorem one_active_stylesheet w es s :
  run es (boot w) = Some s →
  attached_after (trace s) = docHead s
  ∧ ∀ k, (length (active_attached (drop k (trace s))) ≤ 1)%nat.
Proof.
  intros Hr. apply run_boot_reachable, reachable_page in Hr as [Hm _].
  split; [apply Hm|]. intros k.
  destruct Hm as (_ & _ & _ & _ & _ & H6).
  apply (each_moment_suffix (trace s)); [done | apply suffix_drop].
Qed.

Lemma one_active_stylesheet_witness :
  run second_round (boot page_ab) = Some (state_after page_ab second_round)
  ∧ attached_after (trace (state_after page_ab second_round))
    = docHead (state_after page_ab second_round)
  ∧ ∀ k, (length (active_attached (drop k (trace (state_after page_ab second_round)))) ≤ 1)%nat.
Proof.
  assert (run second_round (boot page_ab) = Some (state_after page_ab second_round)) as H
    by (vm_compute; reflexivity).
  split; [exact H | exact (one_active_stylesheet page_ab second_round _ H)].
Defined.

(** *** The order of a swap *)

Lemma detachActive_trace s : trace (detachActive s) = detach_obs s ++ trace s.
Proof.
  unfold detachActive, detach_obs. destruct (active s) as [a|]; [|done].
  destruct (attached a s); st; done.
Qed.

(** C5, as stated, fails: with a style element active and attached, a swap
    removes it before the new node is attached, and in between no node that
    is or was the active stylesheet is attached. *)
Lemma swap_detaches_before_attach :
  run first_visit (boot page_ab) = Some (state_after page_ab first_visit)
  ∧ active (state_after page_ab first_visit) = Some old_style
  ∧ rev (new_obs (state_after page_ab first_visit)
                 (injectLink (lit "u") None (state_after page_ab first_visit)))
    = [ORemove old_style; OActive new_link; OAppend new_link]
  ∧ active_attached
      (drop 2 (trace (injectLink (lit "u") None (state_after page_ab first_visit)))) = [].
Proof. vm_compute. repeat split. Qed.

(** C5, amended. Every swap detaches the previously active node first, if
    it is attached; then the new node becomes the active one and is
    attached; last, the speculative link is detached if it is still tracked
    and attached. The history is newest first. *)
Theorem swapActive_order el s :
  trace (swapActive el s)
  = cleanup_obs el s ++ [OAppend el; OActive el] ++ detach_obs s ++ trace s.
Proof.
  rewrite swapActive_unfold. cbv zeta. unfold attached, cleanup_obs. st.
  rewrite detachActive_optimisticEl, detachActive_docHead.
  pose proof (detachActive_trace s) as Ht.
  destruct (optimisticEl s) as [o|] eqn:Eo; [|st; by rewrite Ht].
  assert (bool_decide (o ≠ el)
          && bool_decide (o ∈ without el match active s with
                                         | Some a => without a (docHead s)
                                         | None => docHead s
                                         end ++ [el])
          = bool_decide (o ≠ el ∧ o ∈ docHead s ∧ active s ≠ Some o)) as ->.
  { apply eq_true_iff_eq. rewrite andb_true_iff, !bool_decide_eq_true.
    rewrite elem_of_app, elem_of_without, list_elem_of_singleton.
    destruct (active s) as [a|]; rewrite ?elem_of_without.
    - split.
      + intros [Hne [[[H1 H2] _]|Heq]]; [|done].
        repeat split; [done..|]. intros [= ->]. done.
      + intros (Hne & H1 & H2). split; [done|]. left.
        repeat split; [done| |done]. intros ->. done.
    - split.
      + intros [Hne [[H1 _]|Heq]]; [|done]. done.
      + intros (Hne & H1 & _). split; [done|]. left. done. }
  destruct (bool_decide _); st; by rewrite Ht.
Qed.

(** *** The Visibility Gate *)

Lemma uncloak_noop s : uncloaked s = true → uncloak s = s.
Proof. intros H. unfold uncloak. by rewrite H. Qed.

Lemma uncloaked_uncloak s : uncloaked (uncloak s) = true.
Proof.
  unfold uncloak. destruct (uncloaked s) eqn:Hu; [done|]. cbv zeta.
  destruct (attached _ _); st; done.
Qed.

(** C6. Releasing the gate twice is releasing it once; once [uncloaked] is
    set, which it is after the timer has fired, a release returns the state
    it was given, so it changes no variable, removes no node and records
    nothing; and in every run the cloak leaves the document at most once. *)
Theorem uncloak_idempotent :
  (∀ s, uncloak (uncloak s) = uncloak s)
  ∧ (∀ s, uncloaked s = true → uncloak s = s)
  ∧ (∀ s s', step EvCloakTimeout s = Some s' →
             uncloak s' = s' ∧ step EvCloakTimeout s' = None)
  ∧ (∀ w es s, run es (boot w) = Some s →
               (releases (trace s) ≤ 1)%nat
               ∧ (uncloaked s = true → (cloak ∉ docHead s))).
Proof.
  repeat apply conj.
  - intros s. apply uncloak_noop, uncloaked_uncloak.
  - apply uncloak_noop.
  - intros s s' Hs. unfold step in Hs. destruct (timerArmed s) eqn:Ht; [|done].
    simplify_eq. split; [apply uncloak_noop, uncloaked_uncloak|].
    assert (timerArmed (uncloak (set_timerArmed false s)) = false) as Hf.
    { unfold uncloak. destruct (uncloaked _); [st; done|]. cbv zeta.
      destruct (attached _ _); st; done. }
    unfold step. by rewrite Hf.
  - intros w es s Hr.
    apply run_boot_reachable, reachable_page in Hr as (_ & _ & G1 & _ & G3 & _).
    split; [done|]. intros Hu. by apply G1.
Qed.

Lemma uncloak_idempotent_witness :
  step EvCloakTimeout (boot page_ab) = Some (state_after page_ab [EvCloakTimeout])
  ∧ uncloak (state_after page_ab [EvCloakTimeout]) = state_after page_ab [EvCloakTimeout]
  ∧ step EvCloakTimeout (state_after page_ab [EvCloakTimeout]) = None
  ∧ (releases (trace (state_after page_ab second_round)) ≤ 1)%nat.
Proof.
  destruct uncloak_idempotent as (_ & _ & H3 & H4).
  assert (step EvCloakTimeout (boot page_ab)
          = Some (state_after page_ab [EvCloakTimeout])) as Hs
    by (vm_compute; reflexivity).
  assert (run second_round (boot page_ab) = Some (state_after page_ab second_round)) as Hr
    by (vm_compute; reflexivity).
  split; [exact Hs|]. split; [exact (proj1 (H3 _ _ Hs))|].
  split; [exact (proj2 (H3 _ _ Hs)) | exact (proj1 (H4 _ _ _ Hr))].
Defined.

(** *** The empty class set *)

Lemma rehash_empty s :
  scan (doc s) = [] → rehash s = set_ready true (uncloak s).
Proof. intros H. unfold rehash. rewrite H. reflexivity. Qed.

Lemma uncloak_tasks s : tasks (uncloak s) = tasks s.
Proof. st. same. Qed.

Lemma uncloak_trace s :
  ∃ l, trace (uncloak s) = l ++ trace s
       ∧ Forall (λ o, o = OClearTimeout ∨ o = ORemove cloak) l.
Proof.
  unfold uncloak. destruct (uncloaked s); [by exists []|]. cbv zeta.
  destruct (attached _ _); st.
  - exists [ORemove cloak; OClearTimeout]. split; [done|].
    apply Forall_cons_2; [by right|]. apply Forall_cons_2; [by left|]. apply Forall_nil_2.
  - exists [OClearTimeout]. split; [done|].
    apply Forall_cons_2; [by left|]. apply Forall_nil_2.
Qed.

(** C8. When the scan finds no class, the resolution ends in the same turn
    with the gate released and [ready] set, starts no asynchronous work and
    records neither a digest nor a fetch nor a link entering the document.
    The speculative link of the script's top level is made before any
    resolution and is not part of it. *)
Theorem empty_set_shortcut w es s :
  run es (boot w) = Some s → scan (doc s) = [] →
  step EvLoadScan s = Some (rehash s)
  ∧ ready (rehash s) = true ∧ uncloaked (rehash s) = true
  ∧ (cloak ∉ docHead (rehash s))
  ∧ tasks (rehash s) = tasks s
  ∧ Forall (λ o, is_network o = false ∧ is_hashing o = false) (new_obs s (rehash s)).
Proof.
  intros Hr He. split; [done|].
  assert (reachable w (rehash s)) as Hr'.
  { apply (reach_step w s EvLoadScan); [by apply (run_boot_reachable w es) | reflexivity]. }
  apply reachable_page in Hr' as (_ & _ & G1 & _).
  assert (uncloaked (rehash s) = true) as Hu.
  { rewrite rehash_empty by done. st. apply uncloaked_uncloak. }
  repeat apply conj; [| done | by apply G1 | |].
  - rewrite rehash_empty by done. st. done.
  - rewrite rehash_empty by done. st. same.
  - destruct (uncloak_trace s) as (l & Hl & HP).
    rewrite (new_obs_app s (rehash s) l).
    + eapply Forall_impl; [exact HP|]. by intros o [-> | ->].
    + rewrite rehash_empty by done. st. exact Hl.
Qed.

Lemma empty_set_shortcut_witness :
  ready (rehash (boot page_bare)) = true
  ∧ uncloaked (rehash (boot page_bare)) = true
  ∧ tasks (rehash (boot page_bare)) = [].
Proof.
  destruct (empty_set_shortcut page_bare [] (boot page_bare))
    as (_ & H2 & H3 & _ & H5 & _); [reflexivity | vm_compute; reflexivity |].
  split; [exact H2|]. split; [exact H3 | exact H5].
Defined.

(** *** Ready before the stylesheet *)

Lemma swapActive_uncloaked el s : uncloaked (swapActive el s) = uncloaked s.
Proof.
  rewrite swapActive_unfold. cbv zeta.
  assert (uncloaked (detachActive s) = uncloaked s) as H1.
  { unfold detachActive. destruct (active s); [|done].
    destruct (attached _ _); st; done. }
  destruct (optimisticEl _); [destruct (_ && _)|]; st; exact H1.
Qed.

Lemma swapActive_active el s : active (swapActive el s) = Some el.
Proof.
  rewrite swapActive_unfold. cbv zeta.
  destruct (optimisticEl _); [destruct (_ && _)|]; st; done.
Qed.

(** C10. Path 3 sets [ready] and [currentId] in the turn in which it makes
    the link: the gate is as it was and no load event has been consumed.
    After the visit above, [status()] reports ready while the cloak is in
    the document and the active link still awaits its load or error. *)
Theorem ready_before_stylesheet :
  (∀ s id sorted,
     bool_decide (Some id = optimisticId s) && bool_decide (is_Some (optimisticEl s)) = false →
     bool_decide (Some id = currentId s) = false →
     is_Some (truthy (lsGet (lit "weft:" ++ id) s)) →
     ready (doLoad_hashed id sorted s) = true
     ∧ currentId (doLoad_hashed id sorted s) = Some id
     ∧ uncloaked (doLoad_hashed id sorted s) = uncloaked s
     ∧ settled (doLoad_hashed id sorted s) = settled s
     ∧ active (doLoad_hashed id sorted s)
       = Some (fresh_node (InjectedLink (cssUrl s id) (Some CbUncloak)) s))
  ∧ run known_visit (boot page_known) = Some (state_after page_known known_visit)
  ∧ status (state_after page_known known_visit)
    = (Some (lit "b_3fcf458c6bdf10fa"), Some (lit "v1"), true)
  ∧ uncloaked (state_after page_known known_visit) = false
  ∧ cloak ∈ docHead (state_after page_known known_visit)
  ∧ active (state_after page_known known_visit) = Some known_link
  ∧ known_link ∈ docHead (state_after page_known known_visit)
  ∧ awaiting known_link (state_after page_known known_visit) = true.
Proof.
  split.
  - intros s id sorted H1 H2 H3. unfold doLoad_hashed. rewrite H1, H2.
    rewrite (bool_decide_eq_true_2 _ H3). cbv zeta.
    unfold injectLink. cbv zeta. st.
    rewrite swapActive_uncloaked, swapActive_active. st.
    unfold cssUrl. st. unfold ssSet. destruct (sessionStorage _); st; done.
  - vm_compute. repeat split.
    + apply list_elem_of_here.
    + apply list_elem_of_further, list_elem_of_here.
Qed.

Lemma ready_before_stylesheet_witness :
  ready (doLoad_hashed (lit "b_3fcf458c6bdf10fa") [lit "a"; lit "b"]
           (state_after page_known [EvLoadScan])) = true
  ∧ uncloaked (doLoad_hashed (lit "b_3fcf458c6bdf10fa") [lit "a"; lit "b"]
                 (state_after page_known [EvLoadScan])) = false.
Proof.
  destruct (proj1 ready_before_stylesheet
              (state_after page_known [EvLoadScan])
              (lit "b_3fcf458c6bdf10fa") [lit "a"; lit "b"])
    as (H1 & _ & H3 & _).
  - vm_compute; reflexivity.
  - vm_compute; reflexivity.
  - vm_compute. by eexists.
  - split; [exact H1 | rewrite H3; vm_compute; reflexivity].
Defined.

(** ** What a turn records *)

Lemma quiet_refl P s : quiet P s s.
Proof. exists []. split; [done | apply Forall_nil_2]. Qed.

Lemma quiet_same P s s1 s2 : trace s2 = trace s1 → quiet P s s1 → quiet P s s2.
Proof. intros E (l & E1 & F1). exists l. by rewrite E. Qed.

Lemma quiet_emit P o s0 s : P o → quiet P s0 s → quiet P s0 (emit o s).
Proof.
  intros Ho (l & E & F). exists (o :: l). split; [st; by rewrite E|].
  by apply Forall_cons_2.
Qed.

Lemma quiet_removeChild P n s0 s :
  P (ORemove n) → quiet P s0 s → quiet P s0 (removeChild n s).
Proof.
  intros Ho (l & E & F). exists (ORemove n :: l). split; [st; by rewrite E|].
  by apply Forall_cons_2.
Qed.

Lemma quiet_appendChild P n s0 s :
  P (OAppend n) → quiet P s0 s → quiet P s0 (appendChild n s).
Proof.
  intros Ho (l & E & F). exists (OAppend n :: l). split; [st; by rewrite E|].
  by apply Forall_cons_2.
Qed.

Lemma quiet_createElement P k s0 s : quiet P s0 s → quiet P s0 (createElement k s).
Proof. apply quiet_same. st. same. Qed.

Lemma quiet_spawn P t s0 s : quiet P s0 s → quiet P s0 (spawn t s).
Proof. apply quiet_same. st. same. Qed.

Lemma quiet_new_obs P s s' : quiet P s s' → Forall P (new_obs s s').
Proof. intros (l & E & F). by rewrite (new_obs_app s s' l). Qed.

Lemma quiet_set_doc P v s0 s : quiet P s0 s → quiet P s0 (set_doc v s).
Proof. apply quiet_same. st. same. Qed.

Lemma quiet_set_docHead P v s0 s : quiet P s0 s → quiet P s0 (set_docHead v s).
Proof. apply quiet_same. st. same. Qed.

Lemma quiet_set_created P v s0 s : quiet P s0 s → quiet P s0 (set_created v s).
Proof. apply quiet_same. st. same. Qed.

Lemma quiet_set_settled P v s0 s : quiet P s0 s → quiet P s0 (set_settled v s).
Proof. apply quiet_same. st. same. Qed.

Lemma quiet_set_sessionStorage P v s0 s : quiet P s0 s → quiet P s0 (set_sessionStorage v s).
Proof. apply quiet_same. st. same. Qed.

Lemma quiet_set_localStorage P v s0 s : quiet P s0 s → quiet P s0 (set_localStorage v s).
Proof. apply quiet_same. st. same. Qed.

Lemma quiet_set_timerArmed P v s0 s : quiet P s0 s → quiet P s0 (set_timerArmed v s).
Proof. apply quiet_same. st. same. Qed.

Lemma quiet_set_tasks P v s0 s : quiet P s0 s → quiet P s0 (set_tasks v s).
Proof. apply quiet_same. st. same. Qed.

Lemma quiet_set_uncloaked P v s0 s : quiet P s0 s → quiet P s0 (set_uncloaked v s).
Proof. apply quiet_same. st. same. Qed.

Lemma quiet_set_optimisticId P v s0 s : quiet P s0 s → quiet P s0 (set_optimisticId v s).
Proof. apply quiet_same. st. same. Qed.

Lemma quiet_set_optimisticEl P v s0 s : quiet P s0 s → quiet P s0 (set_optimisticEl v s).
Proof. apply quiet_same. st. same. Qed.

Lemma quiet_set_optimisticLoaded P v s0 s : quiet P s0 s → quiet P s0 (set_optimisticLoaded v s).
Proof. apply quiet_same. st. same. Qed.

Lemma quiet_set_active P v s0 s : quiet P s0 s → quiet P s0 (set_active v s).
Proof. apply quiet_same. st. same. Qed.

Lemma quiet_set_versionToken P v s0 s : quiet P s0 s → quiet P s0 (set_versionToken v s).
Proof. apply quiet_same. st. same. Qed.

Lemma quiet_set_currentId P v s0 s : quiet P s0 s → quiet P s0 (set_currentId v s).
Proof. apply quiet_same. st. same. Qed.

Lemma quiet_set_ready P v s0 s : quiet P s0 s → quiet P s0 (set_ready v s).
Proof. apply quiet_same. st. same. Qed.

Lemma quiet_set_loading P v s0 s : quiet P s0 s → quiet P s0 (set_loading v s).
Proof. apply quiet_same. st. same. Qed.

Lemma quiet_set_needsRescan P v s0 s : quiet P s0 s → quiet P s0 (set_needsRescan v s).
Proof. apply quiet_same. st. same. Qed.

Lemma quiet_ssSet P k v s0 s :
  P (OSessionSet k v) → quiet P s0 s → quiet P s0 (ssSet k v s).
Proof.
  intros Ho H. unfold ssSet. destruct (sessionStorage s); [|done].
  apply quiet_emit; [done|]. by apply quiet_set_sessionStorage.
Qed.

Lemma quiet_lsSet P k v s0 s :
  P (ODurableSet k v) → quiet P s0 s → quiet P s0 (lsSet k v s).
Proof.
  intros Ho H. unfold lsSet. destruct (localStorage s); [|done].
  apply quiet_emit; [done|]. by apply quiet_set_localStorage.
Qed.

(** A hypothesis that is literally the goal. *)
Ltac known := match goal with H : ?T |- ?G => constr_eq T G; exact H end.

(** One statement is peeled off; the side condition on its observation is
    left when it is not plain. *)
Ltac quiet_peel0 plainly :=
  lazymatch goal with
  | |- quiet _ _ (set_doc _ _) => apply quiet_set_doc
  | |- quiet _ _ (set_docHead _ _) => apply quiet_set_docHead
  | |- quiet _ _ (set_created _ _) => apply quiet_set_created
  | |- quiet _ _ (set_settled _ _) => apply quiet_set_settled
  | |- quiet _ _ (set_sessionStorage _ _) => apply quiet_set_sessionStorage
  | |- quiet _ _ (set_localStorage _ _) => apply quiet_set_localStorage
  | |- quiet _ _ (set_timerArmed _ _) => apply quiet_set_timerArmed
  | |- quiet _ _ (set_tasks _ _) => apply quiet_set_tasks
  | |- quiet _ _ (set_uncloaked _ _) => apply quiet_set_uncloaked
  | |- quiet _ _ (set_optimisticId _ _) => apply quiet_set_optimisticId
  | |- quiet _ _ (set_optimisticEl _ _) => apply quiet_set_optimisticEl
  | |- quiet _ _ (set_optimisticLoaded _ _) => apply quiet_set_optimisticLoaded
  | |- quiet _ _ (set_active _ _) => apply quiet_set_active
  | |- quiet _ _ (set_versionToken _ _) => apply quiet_set_versionToken
  | |- quiet _ _ (set_currentId _ _) => apply quiet_set_currentId
  | |- quiet _ _ (set_ready _ _) => apply quiet_set_ready
  | |- quiet _ _ (set_loading _ _) => apply quiet_set_loading
  | |- quiet _ _ (set_needsRescan _ _) => apply quiet_set_needsRescan
  | |- quiet _ _ (spawn _ _) => apply quiet_spawn
  | |- quiet _ _ (createElement _ _) => apply quiet_createElement
  | |- quiet _ _ (emit _ _) => apply quiet_emit; [try plainly|]
  | |- quiet _ _ (removeChild _ _) => apply quiet_removeChild; [try plainly|]
  | |- quiet _ _ (appendChild _ _) => apply quiet_appendChild; [try plainly|]
  | |- quiet _ _ (ssSet _ _ _) => apply quiet_ssSet; [try plainly|]
  | |- quiet _ _ (lsSet _ _ _) => apply quiet_lsSet; [try plainly|]
  | |- quiet _ ?a ?b => constr_eq a b; apply quiet_refl
  end.

Section Quiet.
Variable P : Obs → Prop.
Hypothesis HP : ∀ o, plain o → P o.

Ltac plainly := idtac; solve [apply HP; exact I | assumption].
Ltac quiet0 := repeat first [known | quiet_peel0 plainly].

Lemma quiet_ssDel k s0 s : quiet P s0 s → quiet P s0 (ssDel k s).
Proof. intros H. unfold ssDel. destruct (sessionStorage s); quiet0. Qed.

Lemma quiet_uncloak s0 s : quiet P s0 s → quiet P s0 (uncloak s).
Proof.
  intros H. unfold uncloak. destruct (uncloaked s); [done|]. cbv zeta.
  destruct (attached _ _); quiet0.
Qed.

Lemma quiet_runCb cb s0 s : quiet P s0 s → quiet P s0 (runCb cb s).
Proof. destruct cb as [[]|]; [apply quiet_uncloak | done]. Qed.

Lemma quiet_swapActive el s0 s : quiet P s0 s → quiet P s0 (swapActive el s).
Proof.
  intros H. unfold swapActive. cbv zeta.
  destruct (active s) as [a|]; [destruct (attached a s)|];
    (destruct (optimisticEl _); [destruct (_ && _)|]); quiet0.
Qed.

Lemma quiet_injectLink url cb s0 s : quiet P s0 s → quiet P s0 (injectLink url cb s).
Proof.
  intros H. unfold injectLink. cbv zeta. apply quiet_swapActive. quiet0.
Qed.

Lemma quiet_injectStyle text cb s0 s :
  quiet P s0 s → quiet P s0 (injectStyle text cb s).
Proof.
  intros H. unfold injectStyle. cbv zeta.
  apply quiet_runCb, quiet_swapActive. quiet0.
Qed.

Lemma quiet_optimistic_onload s0 s : quiet P s0 s → quiet P s0 (optimistic_onload s).
Proof.
  intros H. unfold optimistic_onload. cbv zeta.
  destruct (bool_decide _); [apply quiet_uncloak|]; quiet0.
Qed.

Lemma quiet_optimistic_onerror s0 s : quiet P s0 s → quiet P s0 (optimistic_onerror s).
Proof.
  intros H. unfold optimistic_onerror. cbv zeta. apply quiet_ssDel. quiet0.
Qed.

Ltac quiet_peel :=
  lazymatch goal with
  | |- quiet _ _ (ssDel _ _) => apply quiet_ssDel
  | |- quiet _ _ (uncloak _) => apply quiet_uncloak
  | |- quiet _ _ (runCb _ _) => apply quiet_runCb
  | |- quiet _ _ (injectLink _ _ _) => apply quiet_injectLink
  | |- quiet _ _ (injectStyle _ _ _) => apply quiet_injectStyle
  | |- quiet _ _ (optimistic_onload _) => apply quiet_optimistic_onload
  | |- quiet _ _ (optimistic_onerror _) => apply quiet_optimistic_onerror
  | _ => quiet_peel0 plainly
  end.

Ltac quiet1 := repeat first [known | quiet_peel].

(** A resolution starts: only the version fetch is not plain. *)
Lemma quiet_load sorted s0 s :
  (truthy (versionToken s) = None → P (OFetch (GetVersion (API s ++ lit "/v")))) →
  quiet P s0 s → quiet P s0 (load sorted s).
Proof.
  intros Hf H. unfold load, doLoad, getVersion, fetchVersion, computeHash_start.
  destruct sorted; [quiet1|]. destruct (loading s); [quiet1|].
  destruct (truthy _) eqn:Ht; quiet1.
  st. st_in Ht. by apply Hf.
Qed.

(** The bundle id is known: paths 1 and 3 write hints for it. *)
Lemma quiet_doLoad_hashed id sorted s0 s :
  (bool_decide (Some id = optimisticId s) && bool_decide (is_Some (optimisticEl s)) = true →
   P (OSessionSet (pageKey s) id) ∧ P (ODurableSet (lit "weft:" ++ id) (lit "1"))) →
  (bool_decide (Some id = optimisticId s) && bool_decide (is_Some (optimisticEl s)) = false →
   bool_decide (Some id = currentId s) = false →
   is_Some (truthy (lsGet (lit "weft:" ++ id) s)) → P (OSessionSet (pageKey s) id)) →
  quiet P s0 s → quiet P s0 (doLoad_hashed id sorted s).
Proof.
  intros H1 H3 H. unfold doLoad_hashed. cbv zeta.
  destruct (_ && _) eqn:E1.
  { destruct (H1 eq_refl) as [Hs Hd]. apply quiet_spawn.
    assert (quiet P s0 (set_optimisticEl None
              match optimisticEl (set_ready true (set_currentId (Some id) s)) with
              | Some o => emit (OActive o)
                            (set_active (Some o) (set_ready true (set_currentId (Some id) s)))
              | None => set_ready true (set_currentId (Some id) s)
              end)) as H2.
    { destruct (optimisticEl _); quiet1. }
    destruct (optimisticLoaded _); quiet1; st; destruct (optimisticEl s); st; done. }
  destruct (bool_decide (Some id = currentId s)) eqn:E2; [quiet1|].
  destruct (bool_decide (is_Some (truthy (lsGet (lit "weft:" ++ id) s)))) eqn:E3; quiet1.
  st. apply H3; [done..|]. by apply bool_decide_eq_true_1 in E3.
Qed.

(** A compile response: both hints are written for the returned id. *)
Lemma quiet_doLoad_compiled d s0 s :
  P (ODurableSet (lit "weft:" ++ bundleId d) (lit "1")) →
  P (OSessionSet (pageKey s) (bundleId d)) →
  quiet P s0 s → quiet P s0 (doLoad_compiled d s).
Proof.
  intros Hd Hs H. unfold doLoad_compiled. cbv zeta.
  destruct (truthy (css d)); quiet1; st; done.
Qed.

Lemma quiet_load_fulfilled s0 s :
  (truthy (versionToken s) = None → P (OFetch (GetVersion (API s ++ lit "/v")))) →
  quiet P s0 s → quiet P s0 (load_fulfilled s).
Proof.
  intros Hf H. unfold load_fulfilled. cbv zeta.
  destruct (needsRescan _); [apply quiet_load; [st; exact Hf|]|]; quiet1.
Qed.

Lemma quiet_load_rejected s0 s : quiet P s0 s → quiet P s0 (load_rejected s).
Proof. intros H. unfold load_rejected. cbv zeta. quiet1. Qed.

Lemma quiet_preload classes s0 s : quiet P s0 s → quiet P s0 (preload classes s).
Proof. intros H. unfold preload. destruct classes; quiet1. Qed.

End Quiet.

(** Peel a state expression with the lemmas above, for a property [P] that
    holds of plain observations by [HP]. *)
Ltac quiet_by HP :=
  let plainly := (idtac; solve [apply HP; exact I | known]) in
  repeat first
    [ known
    | lazymatch goal with
      | |- quiet _ _ (ssDel _ _) => apply (quiet_ssDel _ HP)
      | |- quiet _ _ (uncloak _) => apply (quiet_uncloak _ HP)
      | |- quiet _ _ (runCb _ _) => apply (quiet_runCb _ HP)
      | |- quiet _ _ (injectLink _ _ _) => apply (quiet_injectLink _ HP)
      | |- quiet _ _ (injectStyle _ _ _) => apply (quiet_injectStyle _ HP)
      | |- quiet _ _ (optimistic_onload _) => apply (quiet_optimistic_onload _ HP)
      | |- quiet _ _ (optimistic_onerror _) => apply (quiet_optimistic_onerror _ HP)
      | |- quiet _ _ (load_rejected _) => apply (quiet_load_rejected _ HP)
      | |- quiet _ _ (preload _ _) => apply (quiet_preload _ HP)
      | _ => quiet_peel0 plainly
      end ].

(** ** The version token *)

Lemma plain_not_version_fetch o : plain o → is_version_fetch o = false.
Proof. by destruct o as [[]| | | | | | | | | | | |]. Qed.

Lemma quiet_version_fetches s s' :
  quiet (λ o, is_version_fetch o = false) s s' →
  version_fetches (trace s') = version_fetches (trace s).
Proof.
  intros (l & E & F). unfold version_fetches. rewrite E, filter_app, length_app.
  clear E. assert (filter (λ o, is_version_fetch o) l = []) as ->; [|done].
  induction F as [|o l Ho F IH]; [done|].
  rewrite filter_cons. destruct (decide _) as [Hd|]; [|done].
  rewrite Ho in Hd. destruct Hd.
Qed.

Lemma load_versionToken sorted s : versionToken (load sorted s) = versionToken s.
Proof.
  unfold load, doLoad, getVersion, fetchVersion, computeHash_start.
  split_state; st; same.
Qed.

Lemma doLoad_hashed_versionToken id sorted s :
  versionToken (doLoad_hashed id sorted s) = versionToken s.
Proof. unfold doLoad_hashed. cbv zeta. split_state; st; same. Qed.

Lemma doLoad_compiled_versionToken d s :
  versionToken (doLoad_compiled d s) = versionToken s.
Proof. unfold doLoad_compiled. cbv zeta. split_state; st; same. Qed.

Lemma load_fulfilled_versionToken s : versionToken (load_fulfilled s) = versionToken s.
Proof.
  unfold load_fulfilled. cbv zeta. destruct (needsRescan _); [|st; same].
  rewrite load_versionToken. st. same.
Qed.

Lemma load_rejected_versionToken s : versionToken (load_rejected s) = versionToken s.
Proof. unfold load_rejected. cbv zeta. st. same. Qed.

Lemma preload_versionToken classes s : versionToken (preload classes s) = versionToken s.
Proof. unfold preload. destruct classes; st; same. Qed.

(** With a truthy token memoized, no turn assigns the token or fetches the
    version. *)
Lemma step_memoized e s s' v :
  flight_inv s → truthy (versionToken s) = Some v → step e s = Some s' →
  versionToken s' = versionToken s
  ∧ quiet (λ o, is_version_fetch o = false) s s'.
Proof.
  intros [F1 F2] Hv Hs.
  pose proof plain_not_version_fetch as HP.
  assert (∀ x, truthy (versionToken s) = None → x) as Hno.
  { intros x Hn. rewrite Hn in Hv. discriminate Hv. }
  pose proof (quiet_refl (λ o, is_version_fetch o = false) s) as H0.
  destruct e; unfold step, take_task in Hs.
  - simplify_eq. split; [apply load_versionToken|].
    apply (quiet_load _ HP); [apply Hno | done].
  - simplify_eq. split; [apply preload_versionToken | quiet_by HP].
  - simplify_eq. split; [st; same | quiet_by HP].
  - simplify_eq. split; [st; same | quiet_by HP].
  - destruct (timerArmed s); simplify_eq. split; [st; same | quiet_by HP].
  - destruct (awaiting n s); [|done]. cbv zeta in Hs.
    destruct (kind n); simplify_eq; (split; [st; same | quiet_by HP]).
  - destruct (awaiting n s); [|done]. cbv zeta in Hs.
    destruct (kind n); simplify_eq; (split; [st; same | quiet_by HP]).
  - destruct (tasks s !! i) as [t|] eqn:Hi; simpl in Hs; [|done].
    destruct t; try done. exfalso.
    pose proof (nver_delete _ _ _ Hi) as Hd. cbn [is_version_task] in Hd.
    rewrite F2 in Hd by (rewrite Hv; eauto). lia.
  - destruct (tasks s !! i) as [t|] eqn:Hi; simpl in Hs; [|done].
    destruct t; try done.
    destruct ok; simplify_eq.
    + split; [rewrite doLoad_hashed_versionToken; st; same|].
      apply (quiet_doLoad_hashed _ HP); [done | done | quiet_by HP].
    + split; [st; same | quiet_by HP].
  - destruct (tasks s !! i) as [t|] eqn:Hi; simpl in Hs; [|done].
    destruct t; try done.
    + destruct r; simplify_eq.
      * split; [rewrite doLoad_compiled_versionToken; st; same|].
        apply (quiet_doLoad_compiled _ HP); [done | done | quiet_by HP].
      * split; [st; same | quiet_by HP].
    + destruct r; simplify_eq; unfold preload_then, preload_catch;
        (split; [unfold lsSet; split_state; st; same | quiet_by HP]); done.
  - destruct (tasks s !! i) as [t|] eqn:Hi; simpl in Hs; [|done].
    destruct t; try done.
    destruct ok; simplify_eq.
    + split; [rewrite load_fulfilled_versionToken; st; same|].
      apply (quiet_load_fulfilled _ HP); [st; apply Hno | quiet_by HP].
    + split; [rewrite load_rejected_versionToken; st; same | quiet_by HP].
Qed.

(** C9. The code departs from the claim: [getVersion] tests the token for
    truthiness, so when the first response carries an empty token the next
    resolution of the same page fetches the version again, two fetches in
    one page lifetime. The failure branch avoids this with its non-empty
    sentinel. *)
Lemma version_fetched_twice :
  run empty_token_visit (boot page_ab) = Some (state_after page_ab empty_token_visit)
  ∧ version_fetches (trace (state_after page_ab empty_token_visit)) = 2%nat.
Proof. vm_compute. split; reflexivity. Qed.

(** X22. In every run at most one version fetch is pending; a
    failed fetch memoizes "unknown" and the resolution that waited for it
    goes on to the digest with that token; a response memoizes its token;
    and once a non-empty token is memoized, "unknown" included, no turn
    changes it or fetches the version again. *)
Theorem version_fetch_memoized w es s :
  run es (boot w) = Some s →
  (nver (tasks s) ≤ 1)%nat
  ∧ (∀ i sorted, tasks s !! i = Some (TVersion sorted) →
       ∃ s', step (EvVersionReply i None) s = Some s'
             ∧ versionToken s' = Some (lit "unknown")
             ∧ TDigest (Some (lit "unknown")) sorted ∈ tasks s'
             ∧ version_fetches (trace s') = version_fetches (trace s))
  ∧ (∀ i sorted dv, tasks s !! i = Some (TVersion sorted) →
       ∃ s', step (EvVersionReply i (Some dv)) s = Some s'
             ∧ versionToken s' = dv
             ∧ TDigest dv sorted ∈ tasks s')
  ∧ (∀ v e s', truthy (versionToken s) = Some v → step e s = Some s' →
       versionToken s' = versionToken s
       ∧ version_fetches (trace s') = version_fetches (trace s)).
Proof.
  intros Hr. apply run_boot_reachable, reachable_flight in Hr.
  repeat apply conj.
  - destruct Hr as [F1 _]. pose proof (nver_le_nres (tasks s)) as Hle.
    destruct (loading s); lia.
  - intros i sorted Hi. unfold step, take_task. rewrite Hi. simpl.
    eexists. split; [reflexivity|].
    unfold fetchVersion_catch, computeHash_start. st.
    repeat apply conj; [done | |done].
    apply elem_of_app. right. by apply list_elem_of_singleton.
  - intros i sorted dv Hi. unfold step, take_task. rewrite Hi. simpl.
    eexists. split; [reflexivity|].
    unfold fetchVersion_then, computeHash_start. st. split; [done|].
    apply elem_of_app. right. by apply list_elem_of_singleton.
  - intros v e s' Hv Hs. destruct (step_memoized e s s' v Hr Hv Hs) as [H1 H2].
    split; [done | by apply quiet_version_fetches].
Qed.

Lemma version_fetch_memoized_witness :
  versionToken (state_after page_ab [EvLoadScan; EvVersionReply 0 None])
  = Some (lit "unknown")
  ∧ version_fetches (trace (state_after page_ab
                              [EvLoadScan; EvVersionReply 0 None; EvLoadScan]))
    = version_fetches (trace (state_after page_ab [EvLoadScan; EvVersionReply 0 None])).
Proof.
  assert (run [EvLoadScan; EvVersionReply 0 None] (boot page_ab)
          = Some (state_after page_ab [EvLoadScan; EvVersionReply 0 None])) as Hr
    by (vm_compute; reflexivity).
  destruct (version_fetch_memoized page_ab _ _ Hr) as (_ & _ & _ & H4).
  split; [vm_compute; reflexivity|].
  apply (H4 (lit "unknown") EvLoadScan); vm_compute; reflexivity.
Defined.

(** ** The hints *)

Lemma plain_hint_ok s e o : plain o → hint_ok s e o.
Proof. intros Ho id Hid. by destruct o as [[]| | | | | | | | | | | |]. Qed.

Lemma version_fetch_hint_ok s e url : hint_ok s e (OFetch (GetVersion url)).
Proof. intros id Hid. discriminate Hid. Qed.

Lemma drop_weft (id : jsstring) : drop 5 (lit "weft:" ++ id) = id.
Proof. reflexivity. Qed.

Lemma compiled_hint_ok s i d k v :
  hint_id (ODurableSet k v) = Some (bundleId d) →
  hint_ok s (EvCompileReply i (Some d)) (ODurableSet k v)
  ∧ ∀ k', hint_ok s (EvCompileReply i (Some d)) (OSessionSet k' (bundleId d)).
Proof.
  intros Hk. split.
  - intros id Hid. left. exists i, d. split; [done|]. congruence.
  - intros k' id [= <-]. left. by exists i, d.
Qed.

(** C4, as stated, fails: on path 3 the session hint is written in the
    turn that makes the link, when nothing in the history has confirmed the
    bundle: no compile response, no load of a stylesheet. *)
Lemma hint_written_before_confirmation :
  run known_visit (boot page_known) = Some (state_after page_known known_visit)
  ∧ OSessionSet (lit "weft:p:/index") (lit "b_3fcf458c6bdf10fa")
    ∈ trace (state_after page_known known_visit)
  ∧ filter (λ o, confirms (w_api page_known) (lit "b_3fcf458c6bdf10fa") o)
           (trace (state_after page_known known_visit)) = []
  ∧ hints_confirmed (w_api page_known) (trace (state_after page_known known_visit)) = false.
Proof.
  vm_compute. repeat split.
  apply list_elem_of_further, list_elem_of_further, list_elem_of_here.
Qed.

Lemma guess_hint_ok s e id k :
  bool_decide (Some id = optimisticId s) && bool_decide (is_Some (optimisticEl s)) = true →
  hint_ok s e (OSessionSet k id)
  ∧ hint_ok s e (ODurableSet (lit "weft:" ++ id) (lit "1")).
Proof.
  intros [H1%bool_decide_eq_true_1 H2%bool_decide_eq_true_1]%andb_true_iff.
  split; intros id' Hid; cbn [hint_id] in Hid; rewrite ?drop_weft in Hid;
    simplify_eq; right; left; done.
Qed.

Lemma durable_hint_ok s e id k :
  is_Some (truthy (lsGet (lit "weft:" ++ id) s)) → hint_ok s e (OSessionSet k id).
Proof.
  intros H id' Hid. cbn [hint_id] in Hid. simplify_eq. right. right.
  split; [done | by exists k].
Qed.

(** C4, amended. Every hint a turn writes is for a bundle id that the
    compile response handled in that turn returned, or that is the guess of
    the speculative link still tracked, or, for the session hint only,
    that has its durable hint already; the stylesheet of the bundle need
    not have loaded. *)
Theorem hint_writes s e s' :
  step e s = Some s' → Forall (hint_ok s e) (new_obs s s').
Proof.
  intros Hs. apply quiet_new_obs.
  pose proof (plain_hint_ok s e) as HP.
  pose proof (quiet_refl (hint_ok s e) s) as H0.
  destruct e; unfold step, take_task in Hs.
  - simplify_eq. apply (quiet_load _ HP); [|done].
    intros _. apply version_fetch_hint_ok.
  - simplify_eq. quiet_by HP.
  - simplify_eq. quiet_by HP.
  - simplify_eq. quiet_by HP.
  - destruct (timerArmed s); simplify_eq. quiet_by HP.
  - destruct (awaiting n s); [|done]. cbv zeta in Hs.
    destruct (kind n); simplify_eq; quiet_by HP.
  - destruct (awaiting n s); [|done]. cbv zeta in Hs.
    destruct (kind n); simplify_eq; quiet_by HP.
  - destruct (tasks s !! i) as [t|] eqn:Hi; simpl in Hs; [|done].
    destruct t; try done.
    destruct r; simplify_eq;
      unfold fetchVersion_then, fetchVersion_catch, computeHash_start; quiet_by HP.
  - destruct (tasks s !! i) as [t|] eqn:Hi; simpl in Hs; [|done].
    destruct t; try done.
    destruct ok; simplify_eq; [|quiet_by HP].
    apply (quiet_doLoad_hashed _ HP); [| |quiet_by HP].
    + intros E. st_in E. st. by apply guess_hint_ok.
    + intros _ _ E. unfold lsGet in E. st_in E. st. by apply durable_hint_ok.
  - destruct (tasks s !! i) as [t|] eqn:Hi; simpl in Hs; [|done].
    destruct t; try done.
    + destruct r as [d|]; simplify_eq; [|quiet_by HP].
      apply (quiet_doLoad_compiled _ HP); [| |quiet_by HP];
        apply (compiled_hint_ok s i d (lit "weft:" ++ bundleId d) (lit "1")); reflexivity.
    + destruct r as [d|]; simplify_eq; unfold preload_then, preload_catch;
        quiet_by HP.
      apply (compiled_hint_ok s i d (lit "weft:" ++ bundleId d) (lit "1")). reflexivity.
  - destruct (tasks s !! i) as [t|] eqn:Hi; simpl in Hs; [|done].
    destruct t; try done.
    destruct ok; simplify_eq; [|quiet_by HP].
    apply (quiet_load_fulfilled _ HP); [|quiet_by HP].
    intros _. apply version_fetch_hint_ok.
Qed.

Lemma hint_writes_witness :
  Forall (hint_ok (state_after page_ab [EvLoadScan; EvVersionReply 0 (Some (Some (lit "v1")));
                                          EvDigestDone 0 true])
                  (EvCompileReply 0 (Some bundle_ab)))
         (new_obs (state_after page_ab [EvLoadScan; EvVersionReply 0 (Some (Some (lit "v1")));
                                          EvDigestDone 0 true])
                  (state_after page_ab [EvLoadScan; EvVersionReply 0 (Some (Some (lit "v1")));
                                          EvDigestDone 0 true; EvCompileReply 0 (Some bundle_ab)])).
Proof.
  apply hint_writes. vm_compute. reflexivity.
Defined.

(** ** One resolution at a time *)

(** C3, as stated, fails twice. A request made while a resolution is in
    flight, for a page without classes, releases the gate and sets [ready]
    and does not set the flag. And when the resolution in flight fails, the
    flag stays set and no resolution starts. *)
Lemma rescan_flag_exceptions :
  (run [EvLoadScan] (boot page_ab) = Some (state_after page_ab [EvLoadScan])
   ∧ run bare_request (boot page_ab) = Some (state_after page_ab bare_request)
   ∧ loading (state_after page_ab [EvLoadScan]) = true
   ∧ uncloaked (state_after page_ab [EvLoadScan]) = false
   ∧ ready (state_after page_ab [EvLoadScan]) = false
   ∧ needsRescan (state_after page_ab bare_request) = false
   ∧ uncloaked (state_after page_ab bare_request) = true
   ∧ ready (state_after page_ab bare_request) = true)
  ∧ (run failed_compile (boot page_ab) = Some (state_after page_ab failed_compile)
     ∧ tasks (state_after page_ab failed_compile) = [TLoadThen false]
     ∧ needsRescan (state_after page_ab failed_compile) = true
     ∧ step (EvSettled 0) (state_after page_ab failed_compile)
       = Some (state_after page_ab (failed_compile ++ [EvSettled 0]))
     ∧ needsRescan (state_after page_ab (failed_compile ++ [EvSettled 0])) = true
     ∧ loading (state_after page_ab (failed_compile ++ [EvSettled 0])) = false
     ∧ tasks (state_after page_ab (failed_compile ++ [EvSettled 0])) = []).
Proof. vm_compute. repeat split. Qed.

Lemma inflight_nil l : nres l = 0%nat → filter (λ t, is_resolution t) l = [].
Proof. apply nil_length_inv. Qed.

(** C3, amended. In every run at most one resolution is in flight. A
    request for a class set that is not empty, made while one is in flight,
    sets the flag and does nothing else. When the resolution in flight
    completes successfully with the flag set, the flag is cleared and the
    document is scanned in that turn: either the scan is empty and the
    shortcut is taken, or exactly one resolution is in flight afterwards,
    working on that scan. *)
Theorem single_flight w es s :
  run es (boot w) = Some s →
  (length (inflight s) ≤ 1)%nat
  ∧ (∀ sorted, sorted ≠ [] → loading s = true →
       load sorted s = set_needsRescan true s)
  ∧ (∀ i s', tasks s !! i = Some (TLoadThen true) → needsRescan s = true →
       step (EvSettled i) s = Some s' →
       needsRescan s' = false
       ∧ match scan (doc s) with
         | [] => inflight s' = [] ∧ loading s' = false
                 ∧ ready s' = true ∧ uncloaked s' = true
         | _ :: _ => ∃ t, inflight s' = [t] ∧ loading s' = true
                          ∧ task_classes t = Some (scan (doc s))
         end).
Proof.
  intros Hr. apply run_boot_reachable, reachable_flight in Hr.
  repeat apply conj.
  - destruct Hr as [F1 _]. unfold nres in F1. unfold inflight.
    destruct (loading s); lia.
  - intros sorted Hne Hl. unfold load. destruct sorted; [done|]. by rewrite Hl.
  - intros i s' Hi Hn Hs.
    destruct (take_resolution s i _ Hr Hi eq_refl) as (M1 & _ & _). st_in M1.
    apply inflight_nil in M1.
    unfold step, take_task in Hs. rewrite Hi in Hs. simpl in Hs. simplify_eq.
    unfold load_fulfilled. cbv zeta. st. rewrite Hn.
    unfold load, doLoad, getVersion, fetchVersion, computeHash_start, inflight. st.
    destruct (scan (doc s)) as [|c l] eqn:Hsc.
    + st. rewrite uncloaked_uncloak. done.
    + destruct (truthy _); st; rewrite filter_app, M1; (split; [done|]);
        eexists; (split; [reflexivity|]); done.
Qed.

Lemma single_flight_witness :
  load [lit "a"] (state_after page_ab [EvLoadScan])
  = set_needsRescan true (state_after page_ab [EvLoadScan])
  ∧ (length (inflight (state_after page_ab [EvLoadScan])) ≤ 1)%nat.
Proof.
  assert (run [EvLoadScan] (boot page_ab) = Some (state_after page_ab [EvLoadScan])) as Hr
    by (vm_compute; reflexivity).
  destruct (single_flight page_ab _ _ Hr) as (H1 & H2 & _).
  split; [apply H2; [discriminate | vm_compute; reflexivity] | exact H1].
Defined.

(** ** Further properties of the helpers *)

(** *** Storage *)

(** X1. A hint written to the session storage is read back and leaves the
    other keys alone, a deleted one is gone; when the storage throws, the
    writes change nothing and the read gives [null]. *)
Theorem session_storage_round_trip k v s :
  (is_Some (sessionStorage s) →
     ssGet k (ssSet k v s) = Some v
     ∧ ssGet k (ssDel k s) = None
     ∧ ∀ k', k' ≠ k → ssGet k' (ssSet k v s) = ssGet k' s
                      ∧ ssGet k' (ssDel k s) = ssGet k' s)
  ∧ (sessionStorage s = None →
     ssSet k v s = s ∧ ssDel k s = s ∧ ssGet k s = None).
Proof.
  split.
  - intros [m Hm]. unfold ssGet, ssSet, ssDel. rewrite Hm. st. simpl.
    rewrite lookup_insert_eq, lookup_delete_eq. split; [done|]. split; [done|].
    intros k' Hk. by rewrite lookup_insert_ne, lookup_delete_ne.
  - intros Hm. unfold ssGet, ssSet, ssDel. by rewrite Hm.
Qed.

(** X2. The same for the durable hints of the local storage, which the
    script never deletes. *)
Theorem local_storage_round_trip k v s :
  (is_Some (localStorage s) →
     lsGet k (lsSet k v s) = Some v
     ∧ ∀ k', k' ≠ k → lsGet k' (lsSet k v s) = lsGet k' s)
  ∧ (localStorage s = None → lsSet k v s = s ∧ lsGet k s = None).
Proof.
  split.
  - intros [m Hm]. unfold lsGet, lsSet. rewrite Hm. st. simpl.
    rewrite lookup_insert_eq. split; [done|].
    intros k' Hk. by rewrite lookup_insert_ne.
  - intros Hm. unfold lsGet, lsSet. by rewrite Hm.
Qed.

(** *** Scan *)

(** X3. [scan] returns the class names of the document in ascending order
    of their code units, each once: exactly the names some element carries;
    it is empty exactly when no element carries a name. *)
Theorem scan_sorted_set (d : Document) :
  Sorted lexle (scan d) ∧ NoDup (scan d)
  ∧ (∀ c, c ∈ scan d ↔ ∃ el, el ∈ d ∧ c ∈ el)
  ∧ (scan d = [] ↔ ∀ el, el ∈ d → el = []).
Proof.
  assert (scan d ≡ₚ keys (scan_set d)) as Hp by apply merge_sort_Permutation.
  assert (∀ c, c ∈ scan d ↔ ∃ el, el ∈ d ∧ c ∈ el) as Hin.
  { intros c. rewrite Hp, elem_of_scan_set. rewrite list_elem_of_In, in_concat.
    split; intros (el & H1 & H2); exists el; by rewrite ?list_elem_of_In in *. }
  repeat split.
  - apply (Sorted_merge_sort lexle).
  - rewrite Hp. apply NoDup_keys.
  - by apply Hin.
  - by apply Hin.
  - intros He el Hel. destruct el as [|c el]; [done|].
    assert (c ∈ scan d) as Hc by (apply Hin; exists (c :: el); split; [done | left]).
    rewrite He in Hc. by apply elem_of_nil in Hc.
  - intros He. destruct (scan d) as [|c l]; [done|].
    assert (c ∈ c :: l) as Hc by left.
    apply Hin in Hc as (el & H1 & H2). rewrite (He el H1) in H2.
    by apply elem_of_nil in H2.
Qed.

(** *** The shape of a bundle id *)

Lemma hexdigit_lower_hex d : d < 16 → lower_hex (hexdigit d).
Proof.
  intros Hd. unfold lower_hex, hexdigit. destruct (N.ltb_spec d 10); lia.
Qed.

Lemma hexDigest_lower_hex bs :
  Forall (λ b, b < 256) bs → Forall lower_hex (hexDigest bs).
Proof.
  unfold hexDigest. induction 1 as [|b bs Hb _ IH]; [constructor|].
  cbn [flat_map hexByte app].
  apply Forall_cons_2; [|apply Forall_cons_2; [|exact IH]]; apply hexdigit_lower_hex.
  - apply N.Div0.div_lt_upper_bound. lia.
  - apply N.mod_lt. lia.
Qed.

(** X4. Whatever the token and the classes, the bundle id is ["b_"]
    followed by exactly sixteen characters of [0-9a-f], so it is safe as
    a path segment and as a storage key suffix. *)
Theorem computeHash_shape (v : jsstring) (C : list jsstring) :
  ∃ h, computeHash v C = lit "b_" ++ h ∧ length h = 16%nat ∧ Forall lower_hex h.
Proof.
  unfold computeHash, slice0. cbv zeta.
  rewrite hexLoop_hexDigest by apply digest_bytes.
  change (lit "") with (@nil N). rewrite app_nil_l.
  eexists. split; [reflexivity|]. split.
  - rewrite length_take, length_hexDigest, digest_length. reflexivity.
  - apply Forall_take, hexDigest_lower_hex, digest_bytes.
Qed.

(** *** The digest input *)

Lemma join_cons x r : join (lit ",") (x :: r) = x ++ join_rest r.
Proof. destruct r; [by rewrite app_nil_r | reflexivity]. Qed.

Lemma comma_split (x y a b : jsstring) :
  44 ∉ x → 44 ∉ y →
  (a = [] ∨ ∃ a', a = 44 :: a') → (b = [] ∨ ∃ b', b = 44 :: b') →
  x ++ a = y ++ b → x = y ∧ a = b.
Proof.
  revert y. induction x as [|c x IH]; intros [|d y] Hx Hy Ha Hb E; simpl in E.
  - done.
  - exfalso. apply Hy. destruct Ha as [->|[a' ->]]; [done|].
    injection E as <- _. left.
  - exfalso. apply Hx. destruct Hb as [->|[b' ->]]; [done|].
    injection E as -> _. left.
  - injection E as -> E. apply not_elem_of_cons in Hx as [_ Hx].
    apply not_elem_of_cons in Hy as [_ Hy].
    destruct (IH y Hx Hy Ha Hb E) as [-> ->]. done.
Qed.

Lemma join_rest_shape l : join_rest l = [] ∨ ∃ a, join_rest l = 44 :: a.
Proof. destruct l; [by left | right; by eexists]. Qed.

Lemma join_plain_inj (l1 l2 : list jsstring) :
  Forall plain_name l1 → Forall plain_name l2 →
  join (lit ",") l1 = join (lit ",") l2 → l1 = l2.
Proof.
  intros H1. revert l2. induction H1 as [|x r1 [Hx1 Hx2] H1 IH]; intros l2 H2 E.
  - destruct H2 as [|y r2 [Hy1 Hy2] H2]; [done|].
    rewrite join_cons in E. simpl in E. destruct y; [done | discriminate E].
  - destruct H2 as [|y r2 [Hy1 Hy2] H2].
    + rewrite join_cons in E. simpl in E. destruct x; [done | discriminate E].
    + rewrite !join_cons in E.
      destruct (comma_split x y _ _ Hx2 Hy2 (join_rest_shape r1) (join_rest_shape r2) E)
        as [-> Er].
      f_equal. destruct r1 as [|a r1], r2 as [|b r2]; try done.
      simpl in Er. injection Er as Er. apply IH; [done | exact Er].
Qed.

(** X5. When the version tokens hold no line feed and the class names
    are not empty and hold no comma, the string that is hashed determines
    the token and the class sequence: two different requests never hash the
    same input. *)
Theorem digest_input_injective (v1 v2 : jsstring) (l1 l2 : list jsstring) :
  10 ∉ v1 → 10 ∉ v2 → Forall plain_name l1 → Forall plain_name l2 →
  v1 ++ LF ++ join (lit ",") l1 = v2 ++ LF ++ join (lit ",") l2 →
  v1 = v2 ∧ l1 = l2.
Proof.
  intros Hv1 Hv2 H1 H2 E.
  assert (v1 = v2 ∧ LF ++ join (lit ",") l1 = LF ++ join (lit ",") l2) as [-> E'].
  { revert v2 Hv2 E. induction v1 as [|c v1 IH]; intros [|d v2] Hv2 E; simpl in E.
    - done.
    - exfalso. apply Hv2. injection E as <- _. left.
    - exfalso. apply Hv1. injection E as -> _. left.
    - injection E as -> E. apply not_elem_of_cons in Hv1 as [_ Hv1].
      apply not_elem_of_cons in Hv2 as [_ Hv2].
      destruct (IH Hv1 v2 Hv2 E) as [-> E']. done. }
  split; [done|]. apply join_plain_inj; [done..|].
  by apply (app_inv_head LF).
Qed.

Lemma digest_input_injective_witness :
  lit "v1" = lit "v1" ∧ [lit "a"; lit "b"] = [lit "a"; lit "b"].
Proof.
  apply digest_input_injective; try reflexivity.
  - vm_compute. intros H. repeat (apply elem_of_cons in H as [H|H]; [discriminate H|]).
    by apply elem_of_nil in H.
  - vm_compute. intros H. repeat (apply elem_of_cons in H as [H|H]; [discriminate H|]).
    by apply elem_of_nil in H.
  - repeat (apply Forall_cons_2; [split; [discriminate|]|]); try apply Forall_nil_2;
      vm_compute; intros H; repeat (apply elem_of_cons in H as [H|H]; [discriminate H|]);
      by apply elem_of_nil in H.
  - repeat (apply Forall_cons_2; [split; [discriminate|]|]); try apply Forall_nil_2;
      vm_compute; intros H; repeat (apply elem_of_cons in H as [H|H]; [discriminate H|]);
      by apply elem_of_nil in H.
Defined.

(** X6. A class name that holds a comma is hashed like the two names the
    comma separates: the two class sequences get the same bundle id. *)
Theorem computeHash_comma_collision (v a b : jsstring) (r : list jsstring) :
  computeHash v ((a ++ lit "," ++ b) :: r) = computeHash v (a :: b :: r).
Proof.
  assert (join (lit ",") ((a ++ lit "," ++ b) :: r) = join (lit ",") (a :: b :: r)) as E.
  { rewrite !join_cons. unfold join_rest at 2. rewrite join_cons.
    rewrite <- !app_assoc. reflexivity. }
  unfold computeHash. by rewrite E.
Qed.

Lemma session_storage_round_trip_witness :
  ssGet (lit "k") (ssSet (lit "k") (lit "v") (boot page_ab)) = Some (lit "v")
  ∧ ssSet (lit "k") (lit "v") (boot page_locked) = boot page_locked.
Proof.
  assert (is_Some (sessionStorage (boot page_ab))) as H1 by (vm_compute; by eexists).
  assert (sessionStorage (boot page_locked) = None) as H2 by (vm_compute; reflexivity).
  destruct (proj1 (session_storage_round_trip (lit "k") (lit "v") (boot page_ab)) H1)
    as (K1 & _).
  destruct (proj2 (session_storage_round_trip (lit "k") (lit "v") (boot page_locked)) H2)
    as (K2 & _).
  exact (conj K1 K2).
Defined.

Lemma local_storage_round_trip_witness :
  lsGet (lit "k") (lsSet (lit "k") (lit "v") (boot page_ab)) = Some (lit "v")
  ∧ lsSet (lit "k") (lit "v") (boot page_locked) = boot page_locked.
Proof.
  assert (is_Some (localStorage (boot page_ab))) as H1 by (vm_compute; by eexists).
  assert (localStorage (boot page_locked) = None) as H2 by (vm_compute; reflexivity).
  destruct (proj1 (local_storage_round_trip (lit "k") (lit "v") (boot page_ab)) H1)
    as (K1 & _).
  destruct (proj2 (local_storage_round_trip (lit "k") (lit "v") (boot page_locked)) H2)
    as (K2 & _).
  exact (conj K1 K2).
Defined.

(** ** Between two turns *)

Lemma turn_inv_ext (s s' : State) :
  trace s' = trace s → docHead s' = docHead s → created s' = created s →
  active s' = active s → optimisticEl s' = optimisticEl s →
  optimisticId s' = optimisticId s → API s' = API s →
  uncloaked s' = uncloaked s → timerArmed s' = timerArmed s →
  turn_inv s → turn_inv s'.
Proof.
  unfold turn_inv, page_inv, micro_inv, spec_inv, gate_inv, active_inv, cloaked_inv.
  intros -> -> -> -> -> -> -> -> ->. done.
Qed.

Lemma turn_emit o s : inert o → turn_inv s → turn_inv (emit o s).
Proof.
  intros Ho (Hp & Ha & Hc). split; [by apply page_emit|]. split.
  - unfold active_inv. st. rewrite inert_activated by done. exact Ha.
  - unfold cloaked_inv. st. exact Hc.
Qed.

Lemma turn_ssSet k v s : turn_inv s → turn_inv (ssSet k v s).
Proof.
  intros H. unfold ssSet. destruct (sessionStorage s); [|done].
  apply turn_emit; [done|]. revert H. apply turn_inv_ext; st; same.
Qed.

Lemma turn_ssDel k s : turn_inv s → turn_inv (ssDel k s).
Proof.
  intros H. unfold ssDel. destruct (sessionStorage s); [|done].
  apply turn_emit; [done|]. revert H. apply turn_inv_ext; st; same.
Qed.

Lemma turn_lsSet k v s : turn_inv s → turn_inv (lsSet k v s).
Proof.
  intros H. unfold lsSet. destruct (localStorage s); [|done].
  apply turn_emit; [done|]. revert H. apply turn_inv_ext; st; same.
Qed.

Lemma turn_createElement k s : turn_inv s → turn_inv (createElement k s).
Proof.
  intros (Hp & Ha & Hc). split; [by apply page_createElement|]. split.
  - unfold active_inv. st. exact Ha.
  - unfold cloaked_inv. st. exact Hc.
Qed.

Lemma turn_set_doc v s : turn_inv s → turn_inv (set_doc v s).
Proof. apply turn_inv_ext; st; same. Qed.

Lemma turn_set_settled v s : turn_inv s → turn_inv (set_settled v s).
Proof. apply turn_inv_ext; st; same. Qed.

Lemma turn_set_sessionStorage v s : turn_inv s → turn_inv (set_sessionStorage v s).
Proof. apply turn_inv_ext; st; same. Qed.

Lemma turn_set_localStorage v s : turn_inv s → turn_inv (set_localStorage v s).
Proof. apply turn_inv_ext; st; same. Qed.

Lemma turn_set_tasks v s : turn_inv s → turn_inv (set_tasks v s).
Proof. apply turn_inv_ext; st; same. Qed.

Lemma turn_set_optimisticLoaded v s : turn_inv s → turn_inv (set_optimisticLoaded v s).
Proof. apply turn_inv_ext; st; same. Qed.

Lemma turn_set_versionToken v s : turn_inv s → turn_inv (set_versionToken v s).
Proof. apply turn_inv_ext; st; same. Qed.

Lemma turn_set_currentId v s : turn_inv s → turn_inv (set_currentId v s).
Proof. apply turn_inv_ext; st; same. Qed.

Lemma turn_set_ready v s : turn_inv s → turn_inv (set_ready v s).
Proof. apply turn_inv_ext; st; same. Qed.

Lemma turn_set_loading v s : turn_inv s → turn_inv (set_loading v s).
Proof. apply turn_inv_ext; st; same. Qed.

Lemma turn_set_needsRescan v s : turn_inv s → turn_inv (set_needsRescan v s).
Proof. apply turn_inv_ext; st; same. Qed.

Lemma turn_spawn t s : turn_inv s → turn_inv (spawn t s).
Proof. apply turn_inv_ext; st; same. Qed.

(** *** The cloak *)

Lemma active_uncloak s : gate_inv s → active_inv s → active_inv (uncloak s).
Proof.
  intros (_ & _ & _ & G4 & _) Ha. unfold uncloak.
  destruct (uncloaked s); [done|]. cbv zeta.
  unfold attached. st. case_bool_decide; unfold active_inv in *; st;
    cbn [activated]; [|exact Ha].
  destruct (active s) as [a|] eqn:Ea; [|exact Ha]. destruct Ha as [H1 H2].
  split; [|exact H2]. apply elem_of_without. split; [done|].
  apply cloak_kind. by apply G4.
Qed.

Lemma cloaked_uncloak s : cloaked_inv s → cloaked_inv (uncloak s).
Proof.
  intros Hc Hu. rewrite uncloaked_uncloak in Hu. discriminate Hu.
Qed.

Lemma turn_uncloak s : turn_inv s → turn_inv (uncloak s).
Proof.
  intros (Hp & Ha & Hc). split; [by apply page_uncloak|]. split.
  - apply active_uncloak; [apply Hp | done].
  - by apply cloaked_uncloak.
Qed.

Lemma turn_runCb cb s : turn_inv s → turn_inv (runCb cb s).
Proof. destruct cb as [[]|]; [apply turn_uncloak | done]. Qed.

(** The timer fires: [uncloak] runs with the timer spent. *)
Lemma turn_timeout s : turn_inv s → turn_inv (uncloak (set_timerArmed false s)).
Proof.
  intros (Hp & Ha & Hc). pose proof (page_disarm s Hp) as Hp'.
  split; [by apply page_uncloak|]. split.
  - apply active_uncloak; [apply Hp'|]. unfold active_inv. st. exact Ha.
  - intros Hu. rewrite uncloaked_uncloak in Hu. discriminate Hu.
Qed.

(** *** Swaps and new elements *)

Lemma swapActive_timerArmed el s : timerArmed (swapActive el s) = timerArmed s.
Proof.
  rewrite swapActive_unfold. cbv zeta.
  assert (timerArmed (detachActive s) = timerArmed s) as H1.
  { unfold detachActive. destruct (active s); [|done].
    destruct (attached _ _); st; done. }
  destruct (optimisticEl _); [destruct (_ && _)|]; st; exact H1.
Qed.

(** A swap keeps every attached node but the old active one and the
    speculative link. *)
Lemma swapActive_keeps m el s :
  m ∈ docHead s → active s ≠ Some m → optimisticEl s ≠ Some m →
  m ∈ docHead (swapActive el s).
Proof.
  intros Hm Ha Ho. rewrite swapActive_unfold. cbv zeta.
  assert (m ∈ without el (docHead (detachActive s)) ++ [el]) as H3.
  { rewrite detachActive_docHead. apply elem_of_app.
    destruct (decide (m = el)) as [->|Hne]; [right; by apply list_elem_of_singleton|].
    left. apply elem_of_without. split; [|done].
    destruct (active s) as [a|]; [|done].
    apply elem_of_without. split; [done|]. intros ->. by apply Ha. }
  st. rewrite detachActive_optimisticEl.
  destruct (optimisticEl s) as [o|] eqn:E; [destruct (_ && _)|]; st; try exact H3.
  apply elem_of_without. split; [exact H3|]. by intros ->.
Qed.

Lemma swapActive_attaches el s : el ∈ docHead (swapActive el s).
Proof.
  rewrite swapActive_unfold. cbv zeta.
  assert (el ∈ without el (docHead (detachActive s)) ++ [el]) as H3.
  { apply elem_of_app. right. by apply list_elem_of_singleton. }
  destruct (optimisticEl _) as [o|] eqn:E; [destruct (_ && _) eqn:Ec|]; st;
    try exact H3.
  apply elem_of_without. split; [exact H3|].
  apply andb_true_iff in Ec as [Hne%bool_decide_eq_true_1 _]. by intros ->.
Qed.

Lemma swapActive_activated el s : el ∈ activated (trace (swapActive el s)).
Proof.
  rewrite swapActive_unfold. cbv zeta.
  destruct (optimisticEl _) as [o|]; [destruct (_ && _)|]; st; cbn [activated]; left.
Qed.

Lemma active_swapActive el s : active_inv (swapActive el s).
Proof.
  unfold active_inv. rewrite swapActive_active.
  split; [apply swapActive_attaches | apply swapActive_activated].
Qed.

Lemma cloaked_swapActive el s :
  gate_inv s → cloaked_inv s → cloaked_inv (swapActive el s).
Proof.
  intros (_ & _ & _ & G4 & G5) Hc Hu.
  rewrite swapActive_uncloaked in Hu. rewrite swapActive_timerArmed.
  destruct (Hc Hu) as [Ht Hin]. split; [done|].
  apply swapActive_keeps; [done | |].
  - intros Ha. by apply (G4 _ Ha).
  - intros Ho. by apply (G5 _ Ho).
Qed.

Lemma turn_inject k s :
  turn_inv s → k ≠ CloakStyle →
  turn_inv (swapActive (fresh_node k s) (createElement k s)).
Proof.
  intros H Hk. pose proof (turn_createElement k s H) as (Hp & _ & Hc).
  split; [apply page_inject; [apply H | done]|]. split.
  - apply active_swapActive.
  - apply cloaked_swapActive; [apply Hp | done].
Qed.

Lemma turn_injectLink url cb s : turn_inv s → turn_inv (injectLink url cb s).
Proof. intros H. unfold injectLink. cbv zeta. by apply turn_inject. Qed.

Lemma turn_injectStyle text cb s : turn_inv s → turn_inv (injectStyle text cb s).
Proof.
  intros H. unfold injectStyle. cbv zeta. by apply turn_runCb, turn_inject.
Qed.

Lemma turn_prefetch k s :
  turn_inv s → k ≠ CloakStyle →
  turn_inv (appendChild (fresh_node k s) (createElement k s)).
Proof.
  intros H Hk. pose proof (turn_createElement k s H) as (Hp & Ha & Hc).
  split; [apply page_prefetch; [apply H | done]|].
  assert (∀ m, m ∈ docHead (createElement k s) →
               m ∈ docHead (appendChild (fresh_node k s) (createElement k s))) as Hkeep.
  { intros m Hm. st. st_in Hm. apply elem_of_app.
    destruct (decide (m = fresh_node k s)) as [->|Hne];
      [right; by apply list_elem_of_singleton | left; by apply elem_of_without]. }
  split.
  - unfold active_inv in *. revert Ha. st. cbn [activated].
    destruct (active s) as [a|]; [|done]. intros [H1 H2]. split; [|done].
    specialize (Hkeep a). revert Hkeep. st. auto.
  - intros Hu. revert Hu Hc. unfold cloaked_inv. st. intros Hu Hc.
    destruct (Hc Hu) as [Ht Hin]. split; [done|].
    specialize (Hkeep cloak). revert Hkeep. st. auto.
Qed.

(** *** The speculative link *)

Lemma turn_promote o s :
  turn_inv s → optimisticEl s = Some o →
  turn_inv (set_optimisticEl None (emit (OActive o) (set_active (Some o) s))).
Proof.
  intros (Hp & Ha & Hc) Ho. split; [by apply page_promote|].
  destruct Hp as (_ & Hs & _). destruct (Hs o Ho) as (K1 & _).
  split.
  - unfold active_inv. st. cbn [activated]. split; [done | left].
  - unfold cloaked_inv. st. exact Hc.
Qed.

Lemma turn_forget s : turn_inv s → turn_inv (set_optimisticEl None s).
Proof.
  intros (Hp & Ha & Hc). split; [by apply page_forget|]. split.
  - unfold active_inv. st. exact Ha.
  - unfold cloaked_inv. st. exact Hc.
Qed.

Lemma turn_optimistic_onload s : turn_inv s → turn_inv (optimistic_onload s).
Proof.
  intros H. unfold optimistic_onload. cbv zeta.
  destruct (bool_decide _); [apply turn_uncloak|]; by apply turn_set_optimisticLoaded.
Qed.

Lemma turn_optimistic_onerror s : turn_inv s → turn_inv (optimistic_onerror s).
Proof.
  intros H. unfold optimistic_onerror. cbv zeta. apply turn_ssDel.
  apply (turn_inv_ext (set_optimisticEl None s)); try (st; same).
  by apply turn_forget.
Qed.

Ltac turn_peel :=
  lazymatch goal with
  | |- turn_inv (set_doc _ _) => apply turn_set_doc
  | |- turn_inv (set_settled _ _) => apply turn_set_settled
  | |- turn_inv (set_sessionStorage _ _) => apply turn_set_sessionStorage
  | |- turn_inv (set_localStorage _ _) => apply turn_set_localStorage
  | |- turn_inv (set_tasks _ _) => apply turn_set_tasks
  | |- turn_inv (set_optimisticLoaded _ _) => apply turn_set_optimisticLoaded
  | |- turn_inv (set_versionToken _ _) => apply turn_set_versionToken
  | |- turn_inv (set_currentId _ _) => apply turn_set_currentId
  | |- turn_inv (set_ready _ _) => apply turn_set_ready
  | |- turn_inv (set_loading _ _) => apply turn_set_loading
  | |- turn_inv (set_needsRescan _ _) => apply turn_set_needsRescan
  | |- turn_inv (spawn _ _) => apply turn_spawn
  | |- turn_inv (emit _ _) => apply turn_emit; [exact I|]
  | |- turn_inv (ssSet _ _ _) => apply turn_ssSet
  | |- turn_inv (ssDel _ _) => apply turn_ssDel
  | |- turn_inv (lsSet _ _ _) => apply turn_lsSet
  | |- turn_inv (uncloak (set_timerArmed false _)) => apply turn_timeout
  | |- turn_inv (uncloak _) => apply turn_uncloak
  | |- turn_inv (runCb _ _) => apply turn_runCb
  | |- turn_inv (injectLink _ _ _) => apply turn_injectLink
  | |- turn_inv (injectStyle _ _ _) => apply turn_injectStyle
  | |- turn_inv (appendChild (fresh_node ?k ?X) (createElement ?k ?X)) =>
      apply turn_prefetch; [|discriminate]
  | |- turn_inv (optimistic_onload _) => apply turn_optimistic_onload
  | |- turn_inv (optimistic_onerror _) => apply turn_optimistic_onerror
  end.

Ltac turn := repeat first [known | turn_peel].

(** *** The script's top level and its turns *)

Lemma turn_boot w : turn_inv (boot w).
Proof.
  split; [apply page_boot|]. unfold boot. cbv zeta.
  destruct (truthy _) as [id|] eqn:E; split.
  - unfold active_inv. st. reflexivity.
  - intros _. st. split; [reflexivity|].
    apply elem_of_app. left. apply elem_of_without. split; [|discriminate].
    apply elem_of_app. right. by apply list_elem_of_singleton.
  - unfold active_inv. st. reflexivity.
  - intros _. st. split; [reflexivity|].
    apply elem_of_app. right. by apply list_elem_of_singleton.
Qed.

Lemma turn_load sorted s : turn_inv s → turn_inv (load sorted s).
Proof.
  intros H. unfold load, doLoad, getVersion, fetchVersion, computeHash_start.
  destruct sorted; [turn|]. destruct (loading s); [turn|].
  destruct (truthy _); turn.
Qed.

Lemma turn_doLoad_hashed id sorted s :
  turn_inv s → turn_inv (doLoad_hashed id sorted s).
Proof.
  intros H. unfold doLoad_hashed. cbv zeta.
  destruct (bool_decide (Some id = optimisticId s) && bool_decide (is_Some (optimisticEl s))).
  { apply turn_spawn.
    assert (turn_inv (set_ready true (set_currentId (Some id) s))) as H1 by turn.
    set (s1 := set_ready true (set_currentId (Some id) s)) in *. clearbody s1.
    assert (turn_inv (set_optimisticEl None
              match optimisticEl s1 with
              | Some o => emit (OActive o) (set_active (Some o) s1)
              | None => s1
              end)) as H2.
    { destruct (optimisticEl s1) as [o|] eqn:Eo;
        [by apply turn_promote | by apply turn_forget]. }
    destruct (optimisticLoaded _); turn. }
  destruct (bool_decide (Some id = currentId s)); [turn|].
  destruct (bool_decide (is_Some (truthy (lsGet (lit "weft:" ++ id) s)))); turn.
Qed.

Lemma turn_doLoad_compiled d s : turn_inv s → turn_inv (doLoad_compiled d s).
Proof.
  intros H. unfold doLoad_compiled. cbv zeta.
  destruct (truthy (css d)); turn.
Qed.

Lemma turn_load_fulfilled s : turn_inv s → turn_inv (load_fulfilled s).
Proof.
  intros H. unfold load_fulfilled. cbv zeta.
  destruct (needsRescan _); [apply turn_load|]; turn.
Qed.

Lemma turn_load_rejected s : turn_inv s → turn_inv (load_rejected s).
Proof. intros H. unfold load_rejected. cbv zeta. turn. Qed.

Lemma turn_preload classes s : turn_inv s → turn_inv (preload classes s).
Proof. intros H. unfold preload. destruct classes; turn. Qed.

Lemma step_turn e s s' : turn_inv s → step e s = Some s' → turn_inv s'.
Proof.
  intros H Hs. destruct e; unfold step, take_task in Hs.
  - simplify_eq. by apply turn_load.
  - simplify_eq. by apply turn_preload.
  - simplify_eq. turn.
  - simplify_eq. turn.
  - destruct (timerArmed s); simplify_eq. turn.
  - destruct (awaiting n s); [|done]. cbv zeta in Hs.
    destruct (kind n); simplify_eq; turn.
  - destruct (awaiting n s); [|done]. cbv zeta in Hs.
    destruct (kind n); simplify_eq; turn.
  - destruct (tasks s !! i) as [t|]; simpl in Hs; [|done].
    destruct t; try done.
    destruct r; simplify_eq;
      unfold fetchVersion_then, fetchVersion_catch, computeHash_start; turn.
  - destruct (tasks s !! i) as [t|]; simpl in Hs; [|done].
    destruct t; try done.
    destruct ok; simplify_eq; [apply turn_doLoad_hashed|]; turn.
  - destruct (tasks s !! i) as [t|]; simpl in Hs; [|done].
    destruct t; try done.
    + destruct r; simplify_eq; [apply turn_doLoad_compiled|]; turn.
    + destruct r; simplify_eq; unfold preload_then, preload_catch; turn.
  - destruct (tasks s !! i) as [t|]; simpl in Hs; [|done].
    destruct t; try done.
    destruct ok; simplify_eq;
      [apply turn_load_fulfilled | apply turn_load_rejected]; turn.
Qed.

Lemma reachable_turn w s : reachable w s → turn_inv s.
Proof.
  induction 1 as [|s e s' _ IH Hs]; [apply turn_boot | by eapply step_turn].
Qed.

(** *** What the invariant gives *)

Lemma filter_none {A} (P : A → Prop) `{∀ x, Decision (P x)} (l : list A) :
  (∀ m, m ∈ l → ¬ P m) → filter P l = [].
Proof.
  induction l as [|x l IH]; intros Hall; [done|].
  rewrite filter_cons, decide_False by (apply Hall; left).
  apply IH. intros m Hm. apply Hall. by right.
Qed.

Lemma filter_only {A} (P : A → Prop) `{∀ x, Decision (P x)} (a : A) (l : list A) :
  NoDup l → a ∈ l → P a → (∀ m, m ∈ l → P m → m = a) → filter P l = [a].
Proof.
  induction 1 as [|x l Hx Hn IH]; intros Ha Hp Hall; [by apply elem_of_nil in Ha|].
  rewrite filter_cons. apply elem_of_cons in Ha as [<-|Ha].
  - rewrite decide_True by done. f_equal.
    apply filter_none. intros m Hm Hpm.
    assert (m = a) as -> by (apply Hall; [by right | done]). done.
  - assert (x ≠ a) as Hne by (intros ->; done).
    rewrite decide_False.
    + apply IH; [done..|]. intros m Hm. apply Hall. by right.
    + intros Hpx. apply Hne, Hall; [left | done].
Qed.

Lemma uncloak_active s : active (uncloak s) = active s.
Proof.
  unfold uncloak. destruct (uncloaked s); [done|]. cbv zeta.
  destruct (attached _ _); st; done.
Qed.

(** X7. Whenever the script is idle no node is in the document twice, and
    the node held by [active], if there is one, is attached and is the only
    attached node that is or was the active stylesheet; while [active] is
    [null] there is none. *)
Theorem active_is_attached w es s :
  run es (boot w) = Some s →
  NoDup (docHead s)
  ∧ match active s with
    | None => active_attached (trace s) = []
    | Some a => a ∈ docHead s ∧ active_attached (trace s) = [a]
    end.
Proof.
  intros Hr. apply run_boot_reachable, reachable_turn in Hr as (Hp & Ha & _).
  destruct Hp as ((H1 & _ & _ & _ & H5 & _) & _).
  assert (NoDup (docHead s)) as Hn by (rewrite <- H1; apply NoDup_attached_after).
  split; [done|]. unfold active_inv in Ha. unfold active_attached. rewrite H1.
  destruct (active s) as [a|].
  - destruct Ha as [Ha1 Ha2]. split; [done|].
    apply filter_only; [done..|]. intros m Hm1 Hm2.
    specialize (H5 m Hm1 Hm2). congruence.
  - rewrite Ha. apply filter_none. intros m _ Hm.
    by apply elem_of_nil in Hm.
Qed.

Lemma active_is_attached_witness :
  NoDup (docHead (state_after page_ab second_round))
  ∧ match active (state_after page_ab second_round) with
    | None => active_attached (trace (state_after page_ab second_round)) = []
    | Some a => a ∈ docHead (state_after page_ab second_round)
                ∧ active_attached (trace (state_after page_ab second_round)) = [a]
    end.
Proof.
  assert (run second_round (boot page_ab) = Some (state_after page_ab second_round)) as H
    by (vm_compute; reflexivity).
  exact (active_is_attached page_ab second_round _ H).
Defined.

(** X8. As long as the page is cloaked the cloak is in the document and
    its timer is pending; when the timer fires the page is revealed, and the
    work in flight, the active stylesheet and the bundle id are untouched. *)
Theorem cloak_timer_pending w es s :
  run es (boot w) = Some s → uncloaked s = false →
  cloak ∈ docHead s
  ∧ ∃ s', step EvCloakTimeout s = Some s'
          ∧ uncloaked s' = true ∧ (cloak ∉ docHead s')
          ∧ tasks s' = tasks s ∧ loading s' = loading s
          ∧ active s' = active s ∧ currentId s' = currentId s.
Proof.
  intros Hr Hu. apply run_boot_reachable, reachable_turn in Hr as (Hp & _ & Hc).
  destruct (Hc Hu) as [Ht Hin]. split; [done|].
  exists (uncloak (set_timerArmed false s)).
  assert (step EvCloakTimeout s = Some (uncloak (set_timerArmed false s))) as Hs.
  { unfold step. by rewrite Ht. }
  split; [exact Hs|].
  pose proof (step_page _ _ _ Hp Hs) as (_ & _ & G1 & _).
  pose proof (uncloaked_uncloak (set_timerArmed false s)) as Hu'.
  split; [exact Hu'|]. split; [by apply G1|].
  rewrite uncloak_active. st. repeat split; same.
Qed.

Lemma cloak_timer_pending_witness :
  cloak ∈ docHead (boot page_ab)
  ∧ ∃ s', step EvCloakTimeout (boot page_ab) = Some s'
          ∧ uncloaked s' = true ∧ (cloak ∉ docHead s')
          ∧ tasks s' = tasks (boot page_ab) ∧ loading s' = loading (boot page_ab)
          ∧ active s' = active (boot page_ab) ∧ currentId s' = currentId (boot page_ab).
Proof.
  apply (cloak_timer_pending page_ab []); reflexivity.
Defined.

(** ** More that the helpers leave alone *)

Lemma ssSet_dom k v s : same_dom (ssSet k v s) s.
Proof.
  unfold ssSet, same_dom. destruct (sessionStorage s); repeat apply conj; st; same.
Qed.

Lemma ssDel_dom k s : same_dom (ssDel k s) s.
Proof.
  unfold ssDel, same_dom. destruct (sessionStorage s); repeat apply conj; st; same.
Qed.

Lemma lsSet_dom k v s : same_dom (lsSet k v s) s.
Proof.
  unfold lsSet, same_dom. destruct (localStorage s); repeat apply conj; st; same.
Qed.

Lemma uncloak_sheets s : same_sheets (uncloak s) s.
Proof.
  unfold uncloak, same_sheets. destruct (uncloaked s); [done|]. cbv zeta.
  destruct (attached _ _); repeat apply conj; st; same.
Qed.

Lemma swapActive_store el s : same_store (swapActive el s) s.
Proof.
  unfold swapActive, same_store. cbv zeta.
  destruct (active s) as [a|]; [destruct (attached a s)|];
    (destruct (optimisticEl _); [destruct (_ && _)|]); repeat apply conj; st; same.
Qed.

Lemma injectLink_store url cb s : same_store (injectLink url cb s) s.
Proof.
  unfold injectLink. cbv zeta.
  destruct (swapActive_store (fresh_node (InjectedLink url cb) s)
              (createElement (InjectedLink url cb) s)) as (H1 & H2 & H3 & H4 & H5).
  unfold same_store. rewrite H1, H2, H3, H4, H5. repeat apply conj; st; same.
Qed.

(** Read a variable through a helper that leaves it alone. *)
Ltac frame_eq p h s :=
  lazymatch h with
  | ssSet _ _ =>
      let H := constr:(ssSet_dom _ _ s : same_dom (h s) s) in frame_dom p H
  | ssDel _ =>
      let H := constr:(ssDel_dom _ s : same_dom (h s) s) in frame_dom p H
  | lsSet _ _ =>
      let H := constr:(lsSet_dom _ _ s : same_dom (h s) s) in frame_dom p H
  | uncloak =>
      let H := constr:(uncloak_sheets s) in
      lazymatch p with
      | created => constr:(proj1 H)
      | optimisticEl => constr:(proj1 (proj2 H))
      | optimisticLoaded => constr:(proj1 (proj2 (proj2 H)))
      | active => constr:(proj1 (proj2 (proj2 (proj2 H))))
      | sessionStorage => constr:(proj1 (proj2 (proj2 (proj2 (proj2 H)))))
      | localStorage => constr:(proj2 (proj2 (proj2 (proj2 (proj2 H)))))
      end
  | swapActive ?el =>
      let H := constr:(swapActive_store el s) in frame_store p H
  | injectLink ?url ?cb =>
      let H := constr:(injectLink_store url cb s) in frame_store p H
  end
with frame_dom p H :=
  lazymatch p with
  | docHead => constr:(proj1 H)
  | created => constr:(proj1 (proj2 H))
  | timerArmed => constr:(proj1 (proj2 (proj2 H)))
  | uncloaked => constr:(proj1 (proj2 (proj2 (proj2 H))))
  | optimisticEl => constr:(proj1 (proj2 (proj2 (proj2 (proj2 H)))))
  | optimisticLoaded => constr:(proj1 (proj2 (proj2 (proj2 (proj2 (proj2 H))))))
  | active => constr:(proj2 (proj2 (proj2 (proj2 (proj2 (proj2 H))))))
  end
with frame_store p H :=
  lazymatch p with
  | sessionStorage => constr:(proj1 H)
  | localStorage => constr:(proj1 (proj2 H))
  | optimisticLoaded => constr:(proj1 (proj2 (proj2 H)))
  | timerArmed => constr:(proj1 (proj2 (proj2 (proj2 H))))
  | uncloaked => constr:(proj2 (proj2 (proj2 (proj2 H))))
  end.

Ltac layer p h s ::=
  lazymatch p with
  | docHead => frame_eq p h s
  | created => frame_eq p h s
  | timerArmed => frame_eq p h s
  | uncloaked => frame_eq p h s
  | optimisticEl => frame_eq p h s
  | optimisticLoaded => frame_eq p h s
  | active => frame_eq p h s
  | sessionStorage => frame_eq p h s
  | localStorage => frame_eq p h s
  | _ => core_eq p h s
  end.

(** ** Resolutions from start to end *)

Lemma length_one {A} (l : list A) : length l = 1%nat → ∃ x, l = [x].
Proof. destruct l as [|x [|y l]]; try done. by exists x. Qed.

(** X9. [loading] is set exactly while one task of a resolution is
    pending: the gate is never left closed with nothing in flight. *)
Theorem loading_iff_in_flight w es s :
  run es (boot w) = Some s →
  (loading s = true → ∃ t, inflight s = [t])
  ∧ (loading s = false → inflight s = []).
Proof.
  intros Hr. apply run_boot_reachable, reachable_flight in Hr as [F1 _].
  unfold nres in F1. unfold inflight. split; intros Hl; rewrite Hl in F1.
  - by apply length_one.
  - by apply nil_length_inv.
Qed.

Lemma loading_iff_in_flight_witness :
  (loading (state_after page_ab [EvLoadScan]) = true →
   ∃ t, inflight (state_after page_ab [EvLoadScan]) = [t])
  ∧ (loading (state_after page_ab [EvLoadScan]) = false →
     inflight (state_after page_ab [EvLoadScan]) = []).
Proof.
  assert (run [EvLoadScan] (boot page_ab) = Some (state_after page_ab [EvLoadScan])) as H
    by (vm_compute; reflexivity).
  exact (loading_iff_in_flight page_ab _ _ H).
Defined.

Lemma lookup_snoc_length {A} (l : list A) (x : A) : (l ++ [x]) !! length l = Some x.
Proof. rewrite lookup_app_r by lia. by rewrite Nat.sub_diag. Qed.

Lemma delete_snoc_length {A} (l : list A) (x : A) : delete (length l) (l ++ [x]) = l.
Proof.
  induction l as [|y l IH]; [done|]. simpl. f_equal. exact IH.
Qed.

Lemma length_delete_lookup {A} (l : list A) i x :
  l !! i = Some x → length (delete i l) = (length l - 1)%nat.
Proof.
  intros Hi. rewrite length_delete by eauto. reflexivity.
Qed.

(** *** The turn an event starts *)

Lemma take_task_Some s i t :
  tasks s !! i = Some t → take_task i s = Some (t, set_tasks (delete i (tasks s)) s).
Proof. intros H. unfold take_task. by rewrite H. Qed.

Lemma step_digest s i ver sorted :
  tasks s !! i = Some (TDigest ver sorted) →
  step (EvDigestDone i true) s
  = Some (doLoad_hashed (computeHash (toStr ver) sorted) sorted
            (set_tasks (delete i (tasks s)) s)).
Proof. intros H. unfold step. by rewrite (take_task_Some _ _ _ H). Qed.

Lemma step_compile s i sorted r :
  tasks s !! i = Some (TCompile sorted) →
  step (EvCompileReply i r) s
  = Some match r with
         | Some d => doLoad_compiled d
                       (emit (OCompiled (bundleId d)) (set_tasks (delete i (tasks s)) s))
         | None => spawn (TLoadThen false) (set_tasks (delete i (tasks s)) s)
         end.
Proof. intros H. unfold step. rewrite (take_task_Some _ _ _ H). by destruct r. Qed.

Lemma step_settled s i ok :
  tasks s !! i = Some (TLoadThen ok) →
  step (EvSettled i) s
  = Some (if ok then load_fulfilled (set_tasks (delete i (tasks s)) s)
          else load_rejected (set_tasks (delete i (tasks s)) s)).
Proof. intros H. unfold step. rewrite (take_task_Some _ _ _ H). by destruct ok. Qed.

Lemma run_cons e es s s1 : step e s = Some s1 → run (e :: es) s = run es s1.
Proof. intros H. cbn [run]. by rewrite H. Qed.

(** X10. When the compile request of the resolution in flight fails, the
    handler that runs next reveals the page and reopens the gate; the
    bundle id, the active stylesheet, the ready flag and both storages are
    as before. *)
Theorem failed_compile_reveals w es s i sorted :
  run es (boot w) = Some s → tasks s !! i = Some (TCompile sorted) →
  ∃ s', run [EvCompileReply i None; EvSettled (length (tasks s) - 1)] s = Some s'
        ∧ loading s' = false ∧ inflight s' = [] ∧ uncloaked s' = true
        ∧ currentId s' = currentId s ∧ ready s' = ready s
        ∧ active s' = active s
        ∧ sessionStorage s' = sessionStorage s ∧ localStorage s' = localStorage s.
Proof.
  intros Hr Hi. apply run_boot_reachable, reachable_flight in Hr.
  destruct (take_resolution s i _ Hr Hi eq_refl) as (M1 & _ & _). st_in M1.
  apply inflight_nil in M1.
  pose proof (length_delete_lookup _ _ _ Hi) as Hlen.
  pose proof (step_compile s i sorted None Hi) as S1.
  set (s1 := spawn (TLoadThen false) (set_tasks (delete i (tasks s)) s)) in *.
  assert (tasks s1 = delete i (tasks s) ++ [TLoadThen false]) as Ht by (subst s1; st; same).
  assert (tasks s1 !! (length (tasks s) - 1)%nat = Some (TLoadThen false)) as Hj.
  { rewrite Ht, <- Hlen. apply lookup_snoc_length. }
  pose proof (step_settled s1 _ false Hj) as S2. cbv iota in S2.
  eexists. split.
  { rewrite (run_cons _ _ _ _ S1), (run_cons _ _ _ _ S2). reflexivity. }
  rewrite Ht, <- Hlen, delete_snoc_length. subst s1.
  unfold load_rejected, inflight. cbv zeta. st.
  rewrite uncloaked_uncloak. repeat apply conj; done.
Qed.

Lemma failed_compile_reveals_witness :
  ∃ s', uncloaked s' = true ∧ loading s' = false
        ∧ currentId s' = currentId (state_after page_ab known_visit).
Proof.
  assert (run known_visit (boot page_ab) = Some (state_after page_ab known_visit)) as H1
    by (vm_compute; reflexivity).
  assert (tasks (state_after page_ab known_visit) !! 0%nat = Some (TCompile [lit "a"; lit "b"]))
    as H2 by (vm_compute; reflexivity).
  destruct (failed_compile_reveals page_ab _ _ _ _ H1 H2)
    as (s' & _ & Hl & _ & Hu & Hc & _).
  exists s'. split; [exact Hu|]. split; [exact Hl | exact Hc].
Defined.

(** *** Preload *)

(** X11. [preload] of an empty array does nothing. Otherwise it posts one
    compile request for the union of the given classes with those of the
    page, sorted and each once, and touches nothing else: not the
    document, not the gate, not the resolution in flight. *)
Theorem preload_union classes s :
  preload [] s = s
  ∧ (classes ≠ [] →
     ∃ merged,
       preload classes s
       = spawn TPreload (emit (OFetch (PostCompile (API s ++ lit "/compile") merged)) s)
       ∧ Sorted lexle merged ∧ NoDup merged
       ∧ (∀ c, c ∈ merged ↔ c ∈ scan (doc s) ∨ c ∈ classes)
       ∧ inflight (preload classes s) = inflight s).
Proof.
  split; [done|]. intros Hne. destruct classes as [|c0 cl]; [done|].
  eexists. split; [reflexivity|].
  set (m := scan_element (scan_element ∅ (scan (doc s))) (c0 :: cl)).
  assert (sort (keys m) ≡ₚ keys m) as Hp by apply merge_sort_Permutation.
  split; [apply (Sorted_merge_sort lexle)|].
  split; [rewrite Hp; apply NoDup_keys|]. split.
  - intros c. rewrite Hp, elem_of_keys. subst m.
    rewrite !scan_element_lookup, lookup_empty. split.
    + intros [[H|H]|H]; [by apply is_Some_None in H | by left | by right].
    + intros [H|H]; [left; by right | by right].
  - unfold inflight, preload. st. rewrite filter_app.
    rewrite filter_cons, decide_False, filter_nil, app_nil_r by (simpl; auto). done.
Qed.

(** X12. Once the response to a preload has stored the durable hint, a
    resolution that computes the preloaded bundle id settles in its own
    turn with a link to the stored bundle: no compile request is made. *)
Theorem preload_warms_cache d sorted s :
  is_Some (localStorage s) →
  bool_decide (Some (bundleId d) = optimisticId s)
  && bool_decide (is_Some (optimisticEl s)) = false →
  bool_decide (Some (bundleId d) = currentId s) = false →
  lsGet (lit "weft:" ++ bundleId d) (preload_then d s) = Some (lit "1")
  ∧ tasks (doLoad_hashed (bundleId d) sorted (preload_then d s))
    = tasks s ++ [TLoadThen true]
  ∧ currentId (doLoad_hashed (bundleId d) sorted (preload_then d s)) = Some (bundleId d)
  ∧ active (doLoad_hashed (bundleId d) sorted (preload_then d s))
    = Some (fresh_node (InjectedLink (cssUrl s (bundleId d)) (Some CbUncloak)) s).
Proof.
  intros [m Hm] H1 H2. unfold preload_then.
  assert (lsGet (lit "weft:" ++ bundleId d) (lsSet (lit "weft:" ++ bundleId d) (lit "1") s)
          = Some (lit "1")) as Hg.
  { unfold lsGet, lsSet. rewrite Hm. st. simpl. by rewrite lookup_insert_eq. }
  split; [exact Hg|].
  unfold doLoad_hashed. st. rewrite H1, H2, Hg.
  rewrite (bool_decide_eq_true_2 (is_Some (truthy (Some (lit "1"))))) by (by eexists).
  cbv zeta. st. unfold injectLink. cbv zeta. rewrite swapActive_active.
  unfold fresh_node, cssUrl. st. done.
Qed.

Lemma preload_warms_cache_witness :
  lsGet (lit "weft:" ++ bundleId bundle_ab) (preload_then bundle_ab (boot page_ab))
  = Some (lit "1").
Proof.
  assert (is_Some (localStorage (boot page_ab))) as H0 by (vm_compute; by eexists).
  destruct (preload_warms_cache bundle_ab [] (boot page_ab) H0) as (H & _);
    [vm_compute; reflexivity | vm_compute; reflexivity | exact H].
Defined.

(** *** The optimistic hit *)

(** What path 1 leaves behind. *)
Lemma doLoad_hashed_hit id sorted s o :
  optimisticId s = Some id → optimisticEl s = Some o →
  (optimisticLoaded s = true → uncloaked (doLoad_hashed id sorted s) = true)
  ∧ active (doLoad_hashed id sorted s) = Some o
  ∧ ready (doLoad_hashed id sorted s) = true
  ∧ currentId (doLoad_hashed id sorted s) = Some id
  ∧ optimisticId (doLoad_hashed id sorted s) = Some id
  ∧ created (doLoad_hashed id sorted s) = created s
  ∧ settled (doLoad_hashed id sorted s) = settled s.
Proof.
  intros Hid Ho. unfold doLoad_hashed. rewrite Hid, Ho.
  rewrite (bool_decide_eq_true_2 (Some id = Some id)) by done.
  rewrite (bool_decide_eq_true_2 (is_Some (Some o))) by (by eexists).
  change (true && true) with true. cbv iota zeta. st. rewrite Ho. cbv iota beta. st.
  destruct (optimisticLoaded s); st; rewrite ?uncloaked_uncloak;
    repeat apply conj; done.
Qed.

Lemma optimistic_onload_fields s :
  optimisticLoaded (optimistic_onload s) = true
  ∧ optimisticEl (optimistic_onload s) = optimisticEl s
  ∧ created (optimistic_onload s) = created s
  ∧ active (optimistic_onload s) = active s
  ∧ (currentId s = optimisticId s → uncloaked (optimistic_onload s) = true).
Proof.
  unfold optimistic_onload. cbv zeta. st.
  case_bool_decide as Hc; st; rewrite ?uncloaked_uncloak; repeat apply conj; done.
Qed.

Lemma step_link_load s o h :
  awaiting o s = true → kind o = OptimisticLink h →
  step (EvLinkLoad o) s
  = Some (optimistic_onload
            (emit (OLoaded o) (set_settled (<[nid o := true]> (settled s)) s))).
Proof. intros Ha Hk. unfold step. rewrite Ha. cbv zeta. by rewrite Hk. Qed.

(** X13. The speculative link loads and the scan confirms its bundle, in
    either order: both orders end with the page revealed, the speculative
    link as the active stylesheet, the bundle id set, and no element
    created. *)
Theorem optimistic_hit_either_order s o h i ver sorted :
  optimisticEl s = Some o → kind o = OptimisticLink h → awaiting o s = true →
  tasks s !! i = Some (TDigest ver sorted) →
  optimisticId s = Some (computeHash (toStr ver) sorted) →
  ∃ s1 s2,
    run [EvDigestDone i true; EvLinkLoad o] s = Some s1
    ∧ run [EvLinkLoad o; EvDigestDone i true] s = Some s2
    ∧ (uncloaked s1 = true ∧ uncloaked s2 = true)
    ∧ (active s1 = Some o ∧ active s2 = Some o)
    ∧ (ready s1 = true ∧ ready s2 = true)
    ∧ (currentId s1 = optimisticId s ∧ currentId s2 = optimisticId s)
    ∧ (created s1 = created s ∧ created s2 = created s).
Proof.
  intros Ho Hk Ha Hi Hid.
  (* the scan first *)
  pose proof (step_digest s i ver sorted Hi) as A1.
  set (id := computeHash (toStr ver) sorted) in *.
  set (a1 := doLoad_hashed id sorted (set_tasks (delete i (tasks s)) s)) in *.
  destruct (doLoad_hashed_hit id sorted (set_tasks (delete i (tasks s)) s) o)
    as (_ & P2 & P3 & P4 & P5 & P6 & P7); [st; done..|].
  fold a1 in P2, P3, P4, P5, P6, P7. st_in P6. st_in P7.
  assert (awaiting o a1 = true) as Ha1.
  { unfold awaiting in *. by rewrite P6, P7. }
  pose proof (step_link_load a1 o h Ha1 Hk) as A2.
  set (a0 := emit (OLoaded o) (set_settled (<[nid o:=true]> (settled a1)) a1)) in *.
  destruct (optimistic_onload_fields a0) as (_ & _ & Q3 & Q4 & Q5).
  (* the load first *)
  pose proof (step_link_load s o h Ha Hk) as B1.
  set (b0 := emit (OLoaded o) (set_settled (<[nid o:=true]> (settled s)) s)) in *.
  destruct (optimistic_onload_fields b0) as (R1 & R2 & R3 & _ & _).
  set (b1 := optimistic_onload b0) in *.
  assert (tasks b1 !! i = Some (TDigest ver sorted)) as Hi'.
  { subst b1 b0. st. exact Hi. }
  pose proof (step_digest b1 i ver sorted Hi') as B2. fold id in B2.
  destruct (doLoad_hashed_hit id sorted (set_tasks (delete i (tasks b1)) b1) o)
    as (S1 & S2 & S3 & S4 & _ & S6 & _).
  { subst b1 b0. st. done. }
  { st. rewrite R2. subst b0. st. done. }
  eexists _, _. split; [|split].
  { rewrite (run_cons _ _ _ _ A1), (run_cons _ _ _ _ A2). reflexivity. }
  { rewrite (run_cons _ _ _ _ B1), (run_cons _ _ _ _ B2). reflexivity. }
  repeat apply conj.
  - apply Q5. subst a0. st. by rewrite P4, P5.
  - apply S1. st. exact R1.
  - rewrite Q4. subst a0. st. exact P2.
  - exact S2.
  - subst a0. st. exact P3.
  - exact S3.
  - subst a0. st. by rewrite P4.
  - by rewrite S4.
  - rewrite Q3. subst a0. st. exact P6.
  - rewrite S6. st. rewrite R3. subst b0. st. done.
Qed.

Lemma optimistic_hit_either_order_witness :
  ∃ s1 s2, uncloaked s1 = true ∧ uncloaked s2 = true
           ∧ active s1 = Some speculative_link ∧ active s2 = Some speculative_link.
Proof.
  assert (optimisticEl hit_pending = Some speculative_link) as H1
    by (vm_compute; reflexivity).
  assert (kind speculative_link
          = OptimisticLink (lit "https://weft.test/css/b_3fcf458c6bdf10fa")) as H2
    by reflexivity.
  assert (awaiting speculative_link hit_pending = true) as H3 by (vm_compute; reflexivity).
  assert (tasks hit_pending !! 0%nat = Some (TDigest (Some (lit "v1")) [lit "a"; lit "b"]))
    as H4 by (vm_compute; reflexivity).
  assert (optimisticId hit_pending
          = Some (computeHash (toStr (Some (lit "v1"))) [lit "a"; lit "b"])) as H5
    by (vm_compute; reflexivity).
  destruct (optimistic_hit_either_order hit_pending speculative_link _ _ _ _ H1 H2 H3 H4 H5)
    as (s1 & s2 & _ & _ & [U1 U2] & [A1 A2] & _).
  exists s1, s2. repeat split; assumption.
Defined.

(** *** From one visit to the next *)

Lemma truthy_Some x y : truthy (Some x) = Some y → x = y ∧ x ≠ [].
Proof. destruct x; [done|]. intros [= <-]. done. Qed.

(** The speculative link of the script's top level, for the hint [id]. *)
Lemma boot_with_hint w id :
  (w_session w ≫= (λ m, m !! (lit "weft:p:" ++ w_location w))) = Some id → id ≠ [] →
  optimisticId (boot w) = Some id
  ∧ optimisticEl (boot w) = Some (mkNode 1 (OptimisticLink (w_api w ++ lit "/css/" ++ id)))
  ∧ docHead (boot w) = [cloak; mkNode 1 (OptimisticLink (w_api w ++ lit "/css/" ++ id))]
  ∧ created (boot w) = [cloak; mkNode 1 (OptimisticLink (w_api w ++ lit "/css/" ++ id))]
  ∧ settled (boot w) = ∅.
Proof.
  intros Hh Hne. unfold boot. cbv zeta.
  destruct (truthy _) as [id'|] eqn:E; st_in E; unfold ssGet in E; st_in E;
    cbn [blank sessionStorage pageKey] in E; rewrite Hh in E.
  - apply truthy_Some in E as [<- _].
    unfold cssUrl, cloak, ssGet. st. unfold fresh_node. st.
    cbn [blank created settled docHead sessionStorage pageKey API length app].
    change (without {| nid := 0; kind := CloakStyle |} []) with (@nil Node). cbn [app].
    rewrite without_notin by (intros ?%list_elem_of_singleton; discriminate).
    rewrite ?Hh. cbn [app]. repeat apply conj; same.
  - destruct id; [done | discriminate E].
Qed.

Lemma doLoad_compiled_hints d s ms ml :
  sessionStorage s = Some ms → localStorage s = Some ml →
  ssGet (pageKey s) (doLoad_compiled d s) = Some (bundleId d)
  ∧ lsGet (lit "weft:" ++ bundleId d) (doLoad_compiled d s) = Some (lit "1").
Proof.
  intros Hs Hl. unfold doLoad_compiled, ssGet, lsGet, injectStyle, runCb. cbv zeta.
  destruct (truthy (css d)); st; unfold ssSet, lsSet; st; rewrite ?Hs, ?Hl; st;
    rewrite ?Hs, ?Hl; st; cbn [mbind option_bind]; rewrite !lookup_insert_eq; done.
Qed.

(** X14. A successful compile stores both hints for the bundle it
    returned, when the storages work; and a page that starts with that
    session hint under its page key makes, before any scan, a speculative
    link to the bundle, attached and awaiting its load. *)
Theorem session_hint_seeds_next_visit d s w' :
  is_Some (sessionStorage s) → is_Some (localStorage s) → bundleId d ≠ [] →
  w_session w' = sessionStorage (doLoad_compiled d s) →
  lit "weft:p:" ++ w_location w' = pageKey s →
  ssGet (pageKey s) (doLoad_compiled d s) = Some (bundleId d)
  ∧ lsGet (lit "weft:" ++ bundleId d) (doLoad_compiled d s) = Some (lit "1")
  ∧ optimisticId (boot w') = Some (bundleId d)
  ∧ optimisticEl (boot w')
    = Some (mkNode 1 (OptimisticLink (w_api w' ++ lit "/css/" ++ bundleId d)))
  ∧ docHead (boot w')
    = [cloak; mkNode 1 (OptimisticLink (w_api w' ++ lit "/css/" ++ bundleId d))]
  ∧ awaiting (mkNode 1 (OptimisticLink (w_api w' ++ lit "/css/" ++ bundleId d)))
             (boot w') = true.
Proof.
  intros [ms Hs] [ml Hl] Hne Hw Hk.
  destruct (doLoad_compiled_hints d s ms ml Hs Hl) as [G1 G2].
  split; [exact G1|]. split; [exact G2|].
  assert ((w_session w' ≫= (λ m, m !! (lit "weft:p:" ++ w_location w'))) = Some (bundleId d))
    as Hh by (rewrite Hw, Hk; exact G1).
  destruct (boot_with_hint w' (bundleId d) Hh Hne) as (B1 & B2 & B3 & B4 & B5).
  split; [exact B1|]. split; [exact B2|]. split; [exact B3|].
  unfold awaiting. rewrite B4, B5. rewrite bool_decide_eq_true_2.
  - by rewrite lookup_empty.
  - apply list_elem_of_further, list_elem_of_here.
Qed.

Lemma session_hint_seeds_next_visit_witness :
  optimisticId (boot page_return) = Some (bundleId bundle_ab).
Proof.
  assert (is_Some (sessionStorage (boot page_ab))) as H1 by (vm_compute; by eexists).
  assert (is_Some (localStorage (boot page_ab))) as H2 by (vm_compute; by eexists).
  assert (bundleId bundle_ab ≠ []) as H3 by discriminate.
  assert (w_session page_return = sessionStorage (doLoad_compiled bundle_ab (boot page_ab)))
    as H4 by (vm_compute; reflexivity).
  assert (lit "weft:p:" ++ w_location page_return = pageKey (boot page_ab)) as H5
    by (vm_compute; reflexivity).
  destruct (session_hint_seeds_next_visit bundle_ab (boot page_ab) page_return H1 H2 H3 H4 H5)
    as (_ & _ & H & _).
  exact H.
Defined.

(** *** A page that did not change *)

Lemma step_load_scan s : step EvLoadScan s = Some (load (scan (doc s)) s).
Proof. reflexivity. Qed.

Lemma truthy_eq v x : truthy v = Some x → v = Some x.
Proof. destruct v as [[|c r]|]; [done | by intros [= <-] | done]. Qed.

(** X15. Resolving again a page whose classes and version did not change
    costs one digest and nothing else: no request, no element, no write to
    a storage; the stylesheet and the bundle id stay, and the gate is
    released. *)
Theorem rehash_unchanged_page s v :
  loading s = false → needsRescan s = false → optimisticEl s = None →
  truthy (versionToken s) = Some v → scan (doc s) ≠ [] →
  currentId s = Some (computeHash v (scan (doc s))) →
  ∃ s', run [EvLoadScan; EvDigestDone (length (tasks s)) true;
             EvSettled (length (tasks s))] s = Some s'
        ∧ tasks s' = tasks s ∧ loading s' = false
        ∧ ready s' = true ∧ uncloaked s' = true
        ∧ created s' = created s ∧ active s' = active s
        ∧ currentId s' = currentId s
        ∧ sessionStorage s' = sessionStorage s ∧ localStorage s' = localStorage s
        ∧ Forall (λ o, is_network o = false) (new_obs s s').
Proof.
  intros Hl Hn Ho Hv Hne Hc.
  (* the scan *)
  pose proof (step_load_scan s) as S1.
  assert (load (scan (doc s)) s
          = spawn (TDigest (Some v) (scan (doc s)))
              (emit (ODigest (v ++ LF ++ join (lit ",") (scan (doc s))))
                 (set_loading true s))) as E1.
  { unfold load, doLoad, getVersion, computeHash_start.
    destruct (scan (doc s)) as [|c l]; [done|]. rewrite Hl. st. by rewrite Hv. }
  rewrite E1 in S1. clear E1.
  set (s1 := spawn _ _) in S1.
  assert (tasks s1 = tasks s ++ [TDigest (Some v) (scan (doc s))]) as T1
    by (subst s1; st; same).
  (* the digest: path 2 *)
  assert (tasks s1 !! length (tasks s) = Some (TDigest (Some v) (scan (doc s)))) as L1
    by (rewrite T1; apply lookup_snoc_length).
  pose proof (step_digest s1 _ _ _ L1) as S2. cbn [toStr] in S2.
  rewrite T1, delete_snoc_length in S2.
  assert (doLoad_hashed (computeHash v (scan (doc s))) (scan (doc s))
            (set_tasks (tasks s) s1)
          = spawn (TLoadThen true) (uncloak (set_ready true (set_tasks (tasks s) s1)))) as E2.
  { unfold doLoad_hashed. subst s1. st. rewrite Ho, Hc.
    rewrite (bool_decide_eq_false_2 (is_Some None)) by (intros [? ?]; done).
    rewrite andb_false_r. by rewrite bool_decide_eq_true_2. }
  rewrite E2 in S2. clear E2.
  set (s2 := spawn (TLoadThen true) _) in S2.
  assert (tasks s2 = tasks s ++ [TLoadThen true]) as T2 by (subst s2 s1; st; same).
  (* the handler *)
  assert (tasks s2 !! length (tasks s) = Some (TLoadThen true)) as L2
    by (rewrite T2; apply lookup_snoc_length).
  pose proof (step_settled s2 _ true L2) as S3. cbv iota in S3.
  rewrite T2, delete_snoc_length in S3.
  eexists. split.
  { rewrite (run_cons _ _ _ _ S1), (run_cons _ _ _ _ S2), (run_cons _ _ _ _ S3).
    reflexivity. }
  unfold load_fulfilled. cbv zeta. subst s2 s1. st. rewrite Hn. st.
  rewrite uncloaked_uncloak.
  repeat apply conj; try done.
  destruct (uncloak_trace (set_ready true
              (set_tasks (tasks s)
                 (spawn (TDigest (Some v) (scan (doc s)))
                    (emit (ODigest (v ++ LF ++ join (lit ",") (scan (doc s))))
                       (set_loading true s)))))) as (l & El & Fl).
  st_in El.
  rewrite (new_obs_app _ _ (l ++ [ODigest (v ++ LF ++ join (lit ",") (scan (doc s)))])).
  - apply Forall_app. split; [|by apply Forall_cons_2].
    eapply Forall_impl; [exact Fl|]. by intros o [-> | ->].
  - st. rewrite El, <- app_assoc. reflexivity.
Qed.

Lemma rehash_unchanged_page_witness :
  ∃ s', created s' = created (state_after page_ab first_visit)
        ∧ active s' = active (state_after page_ab first_visit)
        ∧ Forall (λ o, is_network o = false) (new_obs (state_after page_ab first_visit) s').
Proof.
  assert (loading (state_after page_ab first_visit) = false) as H1
    by (vm_compute; reflexivity).
  assert (needsRescan (state_after page_ab first_visit) = false) as H2
    by (vm_compute; reflexivity).
  assert (optimisticEl (state_after page_ab first_visit) = None) as H3
    by (vm_compute; reflexivity).
  assert (truthy (versionToken (state_after page_ab first_visit)) = Some (lit "v1")) as H4
    by (vm_compute; reflexivity).
  assert (scan (doc (state_after page_ab first_visit)) ≠ []) as H5
    by (vm_compute; discriminate).
  assert (currentId (state_after page_ab first_visit)
          = Some (computeHash (lit "v1") (scan (doc (state_after page_ab first_visit)))))
    as H6 by (vm_compute; reflexivity).
  destruct (rehash_unchanged_page _ _ H1 H2 H3 H4 H5 H6)
    as (s' & _ & _ & _ & _ & _ & Hc & Ha & _ & _ & _ & Hf).
  exists s'. split; [exact Hc|]. split; [exact Ha | exact Hf].
Defined.

(** ** What never goes back *)

Ltac onward_split :=
  unfold onward;
  apply conj; [|apply conj; [|apply conj; [|apply conj; [|apply conj; [|apply conj]]]]].

Lemma onward_refl s : onward s s.
Proof. onward_split; auto. Qed.

Lemma onward_trans s1 s2 s3 : onward s1 s2 → onward s2 s3 → onward s1 s3.
Proof.
  intros (A1 & A2 & A3 & A4 & A5 & A6 & A7) (B1 & B2 & B3 & B4 & B5 & B6 & B7).
  onward_split; auto. by etrans.
Qed.

Lemma onward_same s s' :
  uncloaked s' = uncloaked s → ready s' = ready s → currentId s' = currentId s →
  active s' = active s → optimisticEl s' = optimisticEl s →
  timerArmed s' = timerArmed s → created s' = created s → onward s s'.
Proof. unfold onward. intros -> -> -> -> -> -> ->. repeat split; auto. Qed.

Lemma onward_set_doc v s : onward s (set_doc v s).
Proof. apply onward_same; st; same. Qed.

Lemma onward_set_docHead v s : onward s (set_docHead v s).
Proof. apply onward_same; st; same. Qed.

Lemma onward_set_settled v s : onward s (set_settled v s).
Proof. apply onward_same; st; same. Qed.

Lemma onward_set_sessionStorage v s : onward s (set_sessionStorage v s).
Proof. apply onward_same; st; same. Qed.

Lemma onward_set_localStorage v s : onward s (set_localStorage v s).
Proof. apply onward_same; st; same. Qed.

Lemma onward_set_tasks v s : onward s (set_tasks v s).
Proof. apply onward_same; st; same. Qed.

Lemma onward_set_optimisticId v s : onward s (set_optimisticId v s).
Proof. apply onward_same; st; same. Qed.

Lemma onward_set_optimisticLoaded v s : onward s (set_optimisticLoaded v s).
Proof. apply onward_same; st; same. Qed.

Lemma onward_set_versionToken v s : onward s (set_versionToken v s).
Proof. apply onward_same; st; same. Qed.

Lemma onward_set_loading v s : onward s (set_loading v s).
Proof. apply onward_same; st; same. Qed.

Lemma onward_set_needsRescan v s : onward s (set_needsRescan v s).
Proof. apply onward_same; st; same. Qed.

Lemma onward_emit o s : onward s (emit o s).
Proof. apply onward_same; st; same. Qed.

Lemma onward_spawn t s : onward s (spawn t s).
Proof. apply onward_same; st; same. Qed.

Lemma onward_removeChild n s : onward s (removeChild n s).
Proof. apply onward_same; st; same. Qed.

Lemma onward_appendChild n s : onward s (appendChild n s).
Proof. apply onward_same; st; same. Qed.

Lemma onward_ssSet k v s : onward s (ssSet k v s).
Proof. apply onward_same; st; same. Qed.

Lemma onward_ssDel k s : onward s (ssDel k s).
Proof. apply onward_same; st; same. Qed.

Lemma onward_lsSet k v s : onward s (lsSet k v s).
Proof. apply onward_same; st; same. Qed.

Lemma onward_createElement k s : onward s (createElement k s).
Proof. onward_split; st; auto. by apply prefix_app_r. Qed.

Lemma onward_set_uncloaked s : onward s (set_uncloaked true s).
Proof. onward_split; st; auto. Qed.

Lemma onward_set_ready s : onward s (set_ready true s).
Proof. onward_split; st; auto. Qed.

Lemma onward_set_currentId id s : onward s (set_currentId (Some id) s).
Proof. onward_split; st; auto. Qed.

Lemma onward_set_active a s : onward s (set_active (Some a) s).
Proof. onward_split; st; auto. Qed.

Lemma onward_set_optimisticEl s : onward s (set_optimisticEl None s).
Proof. onward_split; st; auto. Qed.

Lemma onward_set_timerArmed s : onward s (set_timerArmed false s).
Proof. onward_split; st; auto. Qed.

(** The last statement of a state expression. *)
Ltac onward_one :=
  lazymatch goal with
  | |- onward _ (set_doc _ _) => apply onward_set_doc
  | |- onward _ (set_docHead _ _) => apply onward_set_docHead
  | |- onward _ (set_settled _ _) => apply onward_set_settled
  | |- onward _ (set_sessionStorage _ _) => apply onward_set_sessionStorage
  | |- onward _ (set_localStorage _ _) => apply onward_set_localStorage
  | |- onward _ (set_tasks _ _) => apply onward_set_tasks
  | |- onward _ (set_optimisticId _ _) => apply onward_set_optimisticId
  | |- onward _ (set_optimisticLoaded _ _) => apply onward_set_optimisticLoaded
  | |- onward _ (set_versionToken _ _) => apply onward_set_versionToken
  | |- onward _ (set_loading _ _) => apply onward_set_loading
  | |- onward _ (set_needsRescan _ _) => apply onward_set_needsRescan
  | |- onward _ (emit _ _) => apply onward_emit
  | |- onward _ (spawn _ _) => apply onward_spawn
  | |- onward _ (removeChild _ _) => apply onward_removeChild
  | |- onward _ (appendChild _ _) => apply onward_appendChild
  | |- onward _ (ssSet _ _ _) => apply onward_ssSet
  | |- onward _ (ssDel _ _) => apply onward_ssDel
  | |- onward _ (lsSet _ _ _) => apply onward_lsSet
  | |- onward _ (createElement _ _) => apply onward_createElement
  | |- onward _ (set_uncloaked true _) => apply onward_set_uncloaked
  | |- onward _ (set_ready true _) => apply onward_set_ready
  | |- onward _ (set_currentId (Some _) _) => apply onward_set_currentId
  | |- onward _ (set_active (Some _) _) => apply onward_set_active
  | |- onward _ (set_optimisticEl None _) => apply onward_set_optimisticEl
  | |- onward _ (set_timerArmed false _) => apply onward_set_timerArmed
  end.

(** Peel a state expression down to the state it starts from; [more]
    closes the statements that are calls. *)
Ltac onward_peel more :=
  repeat lazymatch goal with
         | |- onward ?a ?b =>
             first
               [ constr_eq a b; apply onward_refl
               | known
               | lazymatch b with
                 | ?h ?x => apply (onward_trans a x b); [|first [onward_one | more]]
                 end ]
         end.

Lemma onward_uncloak s : onward s (uncloak s).
Proof.
  unfold uncloak. destruct (uncloaked s); [apply onward_refl|]. cbv zeta.
  destruct (attached _ _); onward_peel fail.
Qed.

Lemma onward_runCb cb s : onward s (runCb cb s).
Proof. destruct cb as [[]|]; [apply onward_uncloak | apply onward_refl]. Qed.

Lemma onward_swapActive el s : onward s (swapActive el s).
Proof.
  unfold swapActive. cbv zeta.
  destruct (active s) as [a|]; [destruct (attached a s)|];
    (destruct (optimisticEl _); [destruct (_ && _)|]); onward_peel fail.
Qed.

Ltac onward_call0 :=
  idtac; lazymatch goal with
  | |- onward _ (uncloak _) => apply onward_uncloak
  | |- onward _ (runCb _ _) => apply onward_runCb
  | |- onward _ (swapActive _ _) => apply onward_swapActive
  end.

Lemma onward_injectLink url cb s : onward s (injectLink url cb s).
Proof. unfold injectLink. cbv zeta. onward_peel onward_call0. Qed.

Lemma onward_injectStyle text cb s : onward s (injectStyle text cb s).
Proof. unfold injectStyle. cbv zeta. onward_peel onward_call0. Qed.

Lemma onward_optimistic_onload s : onward s (optimistic_onload s).
Proof.
  unfold optimistic_onload. cbv zeta. destruct (bool_decide _); onward_peel onward_call0.
Qed.

Lemma onward_optimistic_onerror s : onward s (optimistic_onerror s).
Proof. unfold optimistic_onerror. cbv zeta. onward_peel onward_call0. Qed.

Ltac onward_call :=
  idtac; lazymatch goal with
  | |- onward _ (injectLink _ _ _) => apply onward_injectLink
  | |- onward _ (injectStyle _ _ _) => apply onward_injectStyle
  | |- onward _ (optimistic_onload _) => apply onward_optimistic_onload
  | |- onward _ (optimistic_onerror _) => apply onward_optimistic_onerror
  | _ => onward_call0
  end.

Ltac onward_auto := onward_peel onward_call.

Lemma onward_load sorted s : onward s (load sorted s).
Proof.
  unfold load, doLoad, getVersion, fetchVersion, computeHash_start.
  destruct sorted; [onward_auto|]. destruct (loading s); [onward_auto|].
  destruct (truthy _); onward_auto.
Qed.

Lemma onward_doLoad_hashed id sorted s : onward s (doLoad_hashed id sorted s).
Proof.
  unfold doLoad_hashed. cbv zeta.
  destruct (bool_decide (Some id = optimisticId s) && bool_decide (is_Some (optimisticEl s))).
  { assert (onward s (set_optimisticEl None
              match optimisticEl (set_ready true (set_currentId (Some id) s)) with
              | Some o => emit (OActive o)
                            (set_active (Some o) (set_ready true (set_currentId (Some id) s)))
              | None => set_ready true (set_currentId (Some id) s)
              end)) as H2.
    { destruct (optimisticEl _); onward_auto. }
    destruct (optimisticLoaded _); onward_auto. }
  destruct (bool_decide (Some id = currentId s)); [onward_auto|].
  destruct (bool_decide (is_Some (truthy (lsGet (lit "weft:" ++ id) s)))); onward_auto.
Qed.

Lemma onward_doLoad_compiled d s : onward s (doLoad_compiled d s).
Proof.
  unfold doLoad_compiled. cbv zeta. destruct (truthy (css d)); onward_auto.
Qed.

Lemma onward_load_fulfilled s : onward s (load_fulfilled s).
Proof.
  unfold load_fulfilled. cbv zeta. destruct (needsRescan _); [|onward_auto].
  eapply onward_trans; [|apply onward_load]. onward_auto.
Qed.

Lemma onward_load_rejected s : onward s (load_rejected s).
Proof. unfold load_rejected. cbv zeta. onward_auto. Qed.

Lemma onward_preload classes s : onward s (preload classes s).
Proof. unfold preload. destruct classes; onward_auto. Qed.

Lemma step_onward e s s' : step e s = Some s' → onward s s'.
Proof.
  intros Hs. destruct e; unfold step, take_task in Hs.
  - simplify_eq. apply onward_load.
  - simplify_eq. apply onward_preload.
  - simplify_eq. onward_auto.
  - simplify_eq. onward_auto.
  - destruct (timerArmed s); simplify_eq. onward_auto.
  - destruct (awaiting n s); [|done]. cbv zeta in Hs.
    destruct (kind n); simplify_eq; onward_auto.
  - destruct (awaiting n s); [|done]. cbv zeta in Hs.
    destruct (kind n); simplify_eq; onward_auto.
  - destruct (tasks s !! i) as [t|]; simpl in Hs; [|done].
    destruct t; try done.
    destruct r; simplify_eq;
      unfold fetchVersion_then, fetchVersion_catch, computeHash_start; onward_auto.
  - destruct (tasks s !! i) as [t|]; simpl in Hs; [|done].
    destruct t; try done.
    destruct ok; simplify_eq; [|onward_auto].
    eapply onward_trans; [|apply onward_doLoad_hashed]. onward_auto.
  - destruct (tasks s !! i) as [t|]; simpl in Hs; [|done].
    destruct t; try done.
    + destruct r; simplify_eq; [|onward_auto].
      eapply onward_trans; [|apply onward_doLoad_compiled]. onward_auto.
    + destruct r; simplify_eq; unfold preload_then, preload_catch; onward_auto.
  - destruct (tasks s !! i) as [t|]; simpl in Hs; [|done].
    destruct t; try done.
    destruct ok; simplify_eq.
    + eapply onward_trans; [|apply onward_load_fulfilled]. onward_auto.
    + eapply onward_trans; [|apply onward_load_rejected]. onward_auto.
Qed.

Lemma run_onward es s s' : run es s = Some s' → onward s s'.
Proof.
  revert s. induction es as [|e es IH]; intros s Hs.
  - simpl in Hs. simplify_eq. apply onward_refl.
  - simpl in Hs. destruct (step e s) as [s1|] eqn:He; [|done]. simpl in Hs.
    eapply onward_trans; [by eapply step_onward | by apply IH].
Qed.

(** X16. Along any run, what is done is not undone: a page once revealed
    stays revealed and the cloak stays out of the document; [ready], the
    bundle id and the active stylesheet, once set, stay set; a speculative
    link once dropped is never tracked again, so path 1 cannot be taken
    after that; the cloak timer is never re-armed; and every element
    created is kept, in order. *)
Theorem one_way_flags w es es' s s' :
  run es (boot w) = Some s → run es' s = Some s' →
  (uncloaked s = true → uncloaked s' = true ∧ (cloak ∉ docHead s'))
  ∧ (ready s = true → ready s' = true)
  ∧ (is_Some (currentId s) → is_Some (currentId s'))
  ∧ (is_Some (active s) → is_Some (active s'))
  ∧ (optimisticEl s = None → optimisticEl s' = None)
  ∧ (timerArmed s = false → timerArmed s' = false)
  ∧ created s `prefix_of` created s'.
Proof.
  intros Hr Hr'. destruct (run_onward _ _ _ Hr') as (A1 & A2 & A3 & A4 & A5 & A6 & A7).
  repeat apply conj; try done.
  intros Hu. split; [by apply A1|].
  pose proof (run_reachable w es' s s' (run_boot_reachable w es s Hr) Hr') as Hs'.
  apply reachable_page in Hs' as (_ & _ & G1 & _). by apply G1, A1.
Qed.

Lemma one_way_flags_witness :
  uncloaked (state_after page_ab second_round) = true
  ∧ ready (state_after page_ab second_round) = true
  ∧ created (state_after page_ab first_visit)
    `prefix_of` created (state_after page_ab second_round).
Proof.
  assert (run first_visit (boot page_ab) = Some (state_after page_ab first_visit)) as H1
    by (vm_compute; reflexivity).
  assert (run (drop 5 second_round) (state_after page_ab first_visit)
          = Some (state_after page_ab second_round)) as H2 by (vm_compute; reflexivity).
  assert (uncloaked (state_after page_ab first_visit) = true) as H3
    by (vm_compute; reflexivity).
  assert (ready (state_after page_ab first_visit) = true) as H4
    by (vm_compute; reflexivity).
  destruct (one_way_flags page_ab _ _ _ _ H1 H2) as (K1 & K2 & _ & _ & _ & _ & K7).
  split; [exact (proj1 (K1 H3))|]. split; [exact (K2 H4) | exact K7].
Defined.

(** ** The mutation observer *)

Lemma elem_of_clearTimeout t l id :
  id ∈ clearTimeout t l ↔ id ∈ l ∧ t ≠ Some id.
Proof.
  unfold clearTimeout. destruct t as [x|].
  - rewrite list_elem_of_filter. split; intros [H1 H2]; split; try done; congruence.
  - split; [intros H; by split | by intros [H _]].
Qed.

Lemma NoDup_clearTimeout t l : NoDup l → NoDup (clearTimeout t l).
Proof. unfold clearTimeout. destruct t; [apply NoDup_filter | done]. Qed.

Lemma watch_inv_page w s' :
  watch_inv w →
  watch_inv (mkWatch s' (hasMutationObserver w) (observers w) (disconnectFn w)
                     (timeouts w) (nextTimeout w)).
Proof. done. Qed.

Lemma watch_inv_disconnect k w : watch_inv w → watch_inv (disconnect k w).
Proof.
  intros (H1 & H2 & H3 & H4 & H5). unfold disconnect.
  destruct (observers w !! k) as [ob|] eqn:Ek; [|done].
  assert (∀ j o, <[k:=mkObserver (ob_ms ob) (ob_timer ob) false]> (observers w) !! j = Some o →
                 ∃ o', observers w !! j = Some o' ∧ ob_timer o' = ob_timer o
                       ∧ (ob_connected o = true → j ≠ k ∧ o' = o)) as Hold.
  { intros j o Hj. apply list_lookup_insert_Some in Hj as [(-> & <- & _)|[Hne Hj]].
    - exists ob. by repeat split.
    - exists o. by repeat split. }
  unfold watch_inv. cbn [timeouts nextTimeout observers]. repeat apply conj.
  - by apply NoDup_clearTimeout.
  - intros id [Hid _]%elem_of_clearTimeout. by apply H2.
  - intros j o id Hj Ht. destruct (Hold j o Hj) as (o' & Ho' & Et & _).
    apply (H3 j o' id Ho'). congruence.
  - intros id [Hid Hne]%elem_of_clearTimeout.
    destruct (H4 id Hid) as (j & o & Hj & Hc & Ht).
    assert (j ≠ k) as Hjk by (intros ->; congruence).
    exists j, o. rewrite list_lookup_insert_ne by done. done.
  - intros k1 k2 o1 o2 id Hk1 Hk2 Ht1 Ht2.
    destruct (Hold k1 o1 Hk1) as (o1' & Ho1 & Et1 & _).
    destruct (Hold k2 o2 Hk2) as (o2' & Ho2 & Et2 & _).
    apply (H5 k1 k2 o1' o2' id); congruence.
Qed.

Lemma watch_inv_deliver k muts w ob :
  observers w !! k = Some ob → ob_connected ob = true →
  watch_inv w → watch_inv (deliver k muts w).
Proof.
  intros Ek Hc (H1 & H2 & H3 & H4 & H5). unfold deliver. rewrite Ek.
  destruct (existsb relevant muts); [|done].
  unfold watch_inv. cbn [timeouts nextTimeout observers]. repeat apply conj.
  - apply NoDup_app. split; [by apply NoDup_clearTimeout|]. split; [|apply NoDup_singleton].
    intros id [Hid _]%elem_of_clearTimeout ->%list_elem_of_singleton.
    specialize (H2 _ Hid). lia.
  - intros id [[Hid _]%elem_of_clearTimeout| ->%list_elem_of_singleton]%elem_of_app;
      [specialize (H2 _ Hid)|]; lia.
  - intros j o id Hj Ht. apply list_lookup_insert_Some in Hj as [(-> & <- & _)|[Hne Hj]].
    + simpl in Ht. simplify_eq. lia.
    + specialize (H3 j o id Hj Ht). lia.
  - intros id [[Hid Hne]%elem_of_clearTimeout| ->%list_elem_of_singleton]%elem_of_app.
    + destruct (H4 id Hid) as (j & o & Hj & Hcj & Ht).
      assert (j ≠ k) as Hjk by (intros ->; congruence).
      exists j, o. rewrite list_lookup_insert_ne by done. done.
    + exists k, (mkObserver (ob_ms ob) (Some (nextTimeout w)) (ob_connected ob)).
      rewrite list_lookup_insert_eq by (by eapply lookup_lt_Some). done.
  - intros k1 k2 o1 o2 id Hk1 Hk2 Ht1 Ht2.
    apply list_lookup_insert_Some in Hk1 as [(-> & <- & _)|[Hne1 Hk1]];
      apply list_lookup_insert_Some in Hk2 as [(-> & <- & _)|[Hne2 Hk2]]; try done.
    + simpl in Ht1. simplify_eq. specialize (H3 _ _ _ Hk2 Ht2). lia.
    + simpl in Ht2. simplify_eq. specialize (H3 _ _ _ Hk1 Ht1). lia.
    + by apply (H5 k1 k2 o1 o2 id).
Qed.

Lemma watch_inv_observe opts w : watch_inv w → watch_inv (observe opts w).2.
Proof.
  intros Hw. unfold observe. destruct (hasMutationObserver w); [|done]. cbv zeta.
  assert (watch_inv match disconnectFn w with
                    | Some k => disconnect k w
                    | None => w
                    end) as (H1 & H2 & H3 & H4 & H5).
  { destruct (disconnectFn w); [by apply watch_inv_disconnect | done]. }
  set (w1 := match disconnectFn w with Some k => _ | None => _ end) in *. clearbody w1.
  unfold watch_inv. cbn [snd timeouts nextTimeout observers]. repeat apply conj; try done.
  - intros j o id [Hj|[_ Hj]]%lookup_app_Some Ht; [by apply (H3 j o)|].
    apply list_lookup_singleton_Some in Hj as [_ <-]. done.
  - intros id Hid. destruct (H4 id Hid) as (j & o & Hj & Hc & Ht).
    exists j, o. rewrite lookup_app_l by (by eapply lookup_lt_Some). done.
  - intros k1 k2 o1 o2 id [Hk1|[_ Hk1]]%lookup_app_Some [Hk2|[_ Hk2]]%lookup_app_Some Ht1 Ht2.
    + by apply (H5 k1 k2 o1 o2 id).
    + apply list_lookup_singleton_Some in Hk2 as [_ <-]. done.
    + apply list_lookup_singleton_Some in Hk1 as [_ <-]. done.
    + apply list_lookup_singleton_Some in Hk1 as [_ <-]. done.
Qed.

Lemma wstep_watch_inv e w w' : watch_inv w → wstep e w = Some w' → watch_inv w'.
Proof.
  intros Hw Hs. destruct e as [e|opts|[k|]|k muts|id]; simpl in Hs.
  - destruct (step e (page w)) as [s'|]; simpl in Hs; [|done]. simplify_eq.
    by apply watch_inv_page.
  - simplify_eq. by apply watch_inv_observe.
  - case_bool_decide; [|done]. simplify_eq. by apply watch_inv_disconnect.
  - by simplify_eq.
  - destruct (observers w !! k) as [ob|] eqn:Ek; [|done].
    destruct (ob_connected ob) eqn:Hc; [|done]. simplify_eq.
    by apply (watch_inv_deliver k muts w ob).
  - case_bool_decide; [|done]. simplify_eq.
    destruct Hw as (H1 & H2 & H3 & H4 & H5).
    unfold watch_inv. cbn [timeouts nextTimeout observers]. repeat apply conj; try done.
    + by apply NoDup_filter.
    + intros x [_ Hx]%list_elem_of_filter. by apply H2.
    + intros x [_ Hx]%list_elem_of_filter. by apply H4.
Qed.

Lemma wrun_watch_inv es w w' : watch_inv w → wrun es w = Some w' → watch_inv w'.
Proof.
  revert w. induction es as [|e es IH]; intros w Hw Hr; simpl in Hr; [by simplify_eq|].
  destruct (wstep e w) as [w1|] eqn:He; [|done]. simpl in Hr.
  apply (IH w1); [by eapply wstep_watch_inv | done].
Qed.

Lemma watch0_inv w mo : watch_inv (watch0 w mo).
Proof.
  unfold watch_inv, watch0. cbn [timeouts nextTimeout observers].
  repeat apply conj; try done.
  - apply NoDup_nil_2.
  - intros id Hid. by apply elem_of_nil in Hid.
  - intros id Hid. by apply elem_of_nil in Hid.
Qed.

(** The page of a watched run is a page the script can reach: a debounce
    timeout is the same call as [rehash()]. *)
Lemma wstep_reachable wd e w w' :
  reachable wd (page w) → wstep e w = Some w' → reachable wd (page w').
Proof.
  intros Hp Hs. destruct e as [e|opts|[k|]|k muts|id]; simpl in Hs.
  - destruct (step e (page w)) as [s'|] eqn:He; simpl in Hs; [|done]. simplify_eq.
    by eapply reach_step.
  - simplify_eq. unfold observe. destruct (hasMutationObserver w); [|done]. cbv zeta.
    unfold disconnect. destruct (disconnectFn w) as [k|]; [|done].
    by destruct (observers w !! k).
  - case_bool_decide; [|done]. simplify_eq. unfold disconnect.
    by destruct (observers w !! k).
  - by simplify_eq.
  - destruct (observers w !! k) as [ob|] eqn:Ek; [|done].
    destruct (ob_connected ob); [|done]. simplify_eq. unfold deliver. rewrite Ek.
    by destruct (existsb relevant muts).
  - case_bool_decide; [|done]. simplify_eq.
    apply (reach_step wd (page w) EvLoadScan); [done | reflexivity].
Qed.

Lemma wrun_reachable wd es w w' :
  reachable wd (page w) → wrun es w = Some w' → reachable wd (page w').
Proof.
  revert w. induction es as [|e es IH]; intros w Hw Hr; simpl in Hr; [by simplify_eq|].
  destruct (wstep e w) as [w1|] eqn:He; [|done]. simpl in Hr.
  apply (IH w1); [by eapply wstep_reachable | done].
Qed.

Lemma filter_NoDup_le_1 (l : list nat) (t : option nat) :
  NoDup l → (length (filter (λ id, t = Some id) l) ≤ 1)%nat.
Proof.
  intros Hn. destruct t as [x|].
  - induction Hn as [|y l Hy Hn IH]; [simpl; lia|].
    rewrite filter_cons. destruct (decide (Some x = Some y)) as [[= <-]|Hne]; [|exact IH].
    rewrite (filter_none _ l); [simpl; lia|].
    intros m Hm [= <-]. done.
  - rewrite (filter_none _ l); [simpl; lia | done].
Qed.

Lemma filter_all {A} (P : A → Prop) `{∀ x, Decision (P x)} (l : list A) :
  (∀ m, m ∈ l → P m) → filter P l = l.
Proof.
  induction l as [|x l IH]; intros Hall; [done|].
  rewrite filter_cons, decide_True by (apply Hall; left).
  f_equal. apply IH. intros m Hm. apply Hall. by right.
Qed.

Lemma length_filter_remove (l : list nat) (x : nat) :
  NoDup l → x ∈ l → S (length (filter (λ y, y ≠ x) l)) = length l.
Proof.
  induction 1 as [|y l Hy Hn IH]; intros Hx; [by apply elem_of_nil in Hx|].
  rewrite filter_cons. apply elem_of_cons in Hx as [<-|Hx].
  - rewrite decide_False by auto. simpl. f_equal.
    rewrite filter_all; [done|]. intros z Hz ->. done.
  - rewrite decide_True by (intros ->; done). simpl. f_equal. by apply IH.
Qed.

(** X17. Debounce. However many batches of mutations the observers
    receive, each observer has at most one timeout pending, every pending
    timeout belongs to a connected observer, and a batch that holds no class
    change and no added node arms nothing; the page itself stays one the
    script can reach, a timeout being the same call as [rehash()]. *)
Theorem debounce_one_pending wd mo es w :
  wrun es (watch0 wd mo) = Some w →
  reachable wd (page w)
  ∧ NoDup (timeouts w)
  ∧ (∀ k ob, observers w !! k = Some ob →
             (length (filter (λ id, ob_timer ob = Some id) (timeouts w)) ≤ 1)%nat)
  ∧ (∀ id, id ∈ timeouts w →
           ∃ k ob, observers w !! k = Some ob ∧ ob_connected ob = true
                   ∧ ob_timer ob = Some id)
  ∧ (∀ k muts, existsb relevant muts = false → deliver k muts w = w)
  ∧ (∀ k ob muts id, observers w !! k = Some ob → existsb relevant muts = true →
       ob_timer ob = Some id → id ∈ timeouts w →
       length (timeouts (deliver k muts w)) = length (timeouts w)
       ∧ (id ∉ timeouts (deliver k muts w))
       ∧ nextTimeout w ∈ timeouts (deliver k muts w)).
Proof.
  intros Hr.
  pose proof (wrun_watch_inv _ _ _ (watch0_inv wd mo) Hr) as (H1 & H2 & H3 & H4 & H5).
  split; [apply (wrun_reachable wd es (watch0 wd mo)); [apply reach_boot | done]|].
  split; [done|]. split; [|split; [done|split]].
  - intros k ob _. by apply filter_NoDup_le_1.
  - intros k muts Hm. unfold deliver. rewrite Hm. by destruct (observers w !! k).
  - intros k ob muts id Ek Hm Et Hid. unfold deliver. rewrite Ek, Hm. cbn [timeouts].
    rewrite Et. cbn [clearTimeout]. repeat split.
    + rewrite length_app. cbn [length].
      pose proof (length_filter_remove _ id H1 Hid). lia.
    + intros [[Hne _]%list_elem_of_filter | ->%list_elem_of_singleton]%elem_of_app;
        [done|]. specialize (H2 _ Hid). lia.
    + apply elem_of_app. right. by apply list_elem_of_singleton.
Qed.

Lemma debounce_one_pending_witness :
  timeouts (watch_after page_ab burst) = [2%nat]
  ∧ NoDup (timeouts (watch_after page_ab burst)).
Proof.
  assert (wrun burst (watch0 page_ab true) = Some (watch_after page_ab burst)) as H
    by (vm_compute; reflexivity).
  destruct (debounce_one_pending page_ab true burst _ H) as (_ & Hn & _).
  split; [vm_compute; reflexivity | exact Hn].
Defined.

(** X18. Calling the function [observe] returned stops its observer for
    good: its callback is never run again, the timeout it had pending is
    cleared and cannot fire, the other observers keep theirs, the page is
    untouched; and when no observer is connected no timeout is pending. *)
Theorem disconnect_stops_observer wd mo es w k ob :
  wrun es (watch0 wd mo) = Some w → observers w !! k = Some ob →
  page (disconnect k w) = page w
  ∧ disconnectFn (disconnect k w) = None
  ∧ (∀ muts, wstep (WMutations k muts) (disconnect k w) = None)
  ∧ (∀ id, ob_timer ob = Some id → wstep (WTimeout id) (disconnect k w) = None)
  ∧ (∀ id, id ∈ timeouts w → ob_timer ob ≠ Some id → id ∈ timeouts (disconnect k w))
  ∧ (connected (disconnect k w) = [] → timeouts (disconnect k w) = []).
Proof.
  intros Hr Ek.
  pose proof (wrun_watch_inv _ _ _ (watch0_inv wd mo) Hr) as Hw.
  pose proof (watch_inv_disconnect k w Hw) as (_ & _ & _ & H4 & _).
  revert H4. unfold disconnect, connected. rewrite Ek.
  cbn [page disconnectFn timeouts observers]. intros H4.
  split; [done|]. split; [done|]. split; [|split; [|split]].
  - intros muts. cbn [wstep observers].
    rewrite list_lookup_insert_eq by (by eapply lookup_lt_Some). done.
  - intros id Ht. cbn [wstep timeouts]. rewrite bool_decide_eq_false_2; [done|].
    intros [_ Hne]%elem_of_clearTimeout. done.
  - intros id Hid Hne. by apply elem_of_clearTimeout.
  - intros Hc. destruct (clearTimeout (ob_timer ob) (timeouts w)) as [|id l] eqn:El; [done|].
    destruct (H4 id) as (j & o & Hj & Hcj & _); [left|].
    assert (o ∈ filter (λ ob0, ob_connected ob0 = true)
                  (<[k:=mkObserver (ob_ms ob) (ob_timer ob) false]> (observers w))) as Hin.
    { apply list_elem_of_filter. split; [done|]. by eapply list_elem_of_lookup_2. }
    rewrite Hc in Hin. by apply elem_of_nil in Hin.
Qed.

Lemma disconnect_stops_observer_witness :
  timeouts (disconnect 0 (watch_after page_ab burst)) = []
  ∧ ∀ muts, wstep (WMutations 0 muts) (disconnect 0 (watch_after page_ab burst)) = None.
Proof.
  assert (wrun burst (watch0 page_ab true) = Some (watch_after page_ab burst)) as H
    by (vm_compute; reflexivity).
  assert (observers (watch_after page_ab burst) !! 0%nat
          = Some (mkObserver 200 (Some 2%nat) true)) as Hk by (vm_compute; reflexivity).
  destruct (disconnect_stops_observer page_ab true burst _ _ _ H Hk)
    as (_ & _ & Hm & _ & _ & Hc).
  split; [|exact Hm]. apply Hc. vm_compute. reflexivity.
Defined.

(** *** One observer at a time *)

Lemma filter_le_1 {A} (P : A → Prop) `{∀ x, Decision (P x)} (l : list A) :
  (∀ k1 k2 o1 o2, l !! k1 = Some o1 → l !! k2 = Some o2 → P o1 → P o2 → k1 = k2) →
  (length (filter P l) ≤ 1)%nat.
Proof.
  induction l as [|x l IH]; intros Hu; [simpl; lia|].
  rewrite filter_cons. destruct (decide (P x)) as [Hx|Hx].
  - rewrite (filter_none P l); [simpl; lia|].
    intros m [j Hj]%list_elem_of_lookup Hm.
    specialize (Hu 0%nat (S j) x m eq_refl Hj Hx Hm). lia.
  - apply IH. intros k1 k2 o1 o2 H1 H2 P1 P2.
    specialize (Hu (S k1) (S k2) o1 o2 H1 H2 P1 P2). lia.
Qed.

Lemma single_observer_disconnect k w :
  single_observer w → disconnectFn w = Some k →
  ∀ j o, observers (disconnect k w) !! j = Some o → ob_connected o = false.
Proof.
  intros Hs Hd j o. unfold disconnect.
  destruct (observers w !! k) as [ob|] eqn:Ek; cbn [observers].
  - intros [(-> & <- & _)|[Hne Hj]]%list_lookup_insert_Some; [done|].
    destruct (ob_connected o) eqn:Hc; [|done].
    specialize (Hs j o Hj Hc). congruence.
  - intros Hj. destruct (ob_connected o) eqn:Hc; [|done].
    specialize (Hs j o Hj Hc). congruence.
Qed.

Lemma single_observer_step e w w' :
  single_observer w → current_handle e w → wstep e w = Some w' → single_observer w'.
Proof.
  intros Hs Hh He. destruct e as [e|opts|[k|]|k muts|id]; simpl in He.
  - destruct (step e (page w)) as [s'|]; simpl in He; [|done]. by simplify_eq.
  - simplify_eq. unfold observe. destruct (hasMutationObserver w); [|done]. cbv zeta.
    assert (∀ j o, observers match disconnectFn w with
                             | Some k => disconnect k w
                             | None => w
                             end !! j = Some o → ob_connected o = false) as Hoff.
    { destruct (disconnectFn w) as [k|] eqn:Hd.
      - by apply single_observer_disconnect.
      - intros j o Hj. destruct (ob_connected o) eqn:Hc; [|done].
        specialize (Hs j o Hj Hc). congruence. }
    set (w1 := match disconnectFn w with Some k => _ | None => _ end) in *. clearbody w1.
    intros j o. cbn [snd observers disconnectFn].
    intros [Hj|[Hle Hj]]%lookup_app_Some Hc.
    + rewrite (Hoff j o Hj) in Hc. discriminate Hc.
    + apply list_lookup_singleton_Some in Hj as [Hj _]. f_equal. lia.
  - case_bool_decide; [|done]. simplify_eq. simpl in Hh.
    intros j o Hj Hc. rewrite (single_observer_disconnect k w Hs Hh j o Hj) in Hc.
    discriminate Hc.
  - by simplify_eq.
  - destruct (observers w !! k) as [ob|] eqn:Ek; [|done].
    destruct (ob_connected ob) eqn:Hcb; [|done]. simplify_eq.
    unfold deliver. rewrite Ek. destruct (existsb relevant muts); [|done].
    intros j o. cbn [observers disconnectFn].
    intros [(-> & <- & _)|[Hne Hj]]%list_lookup_insert_Some Hc.
    + by apply (Hs j ob).
    + by apply (Hs j o).
  - case_bool_decide; [|done]. by simplify_eq.
Qed.

(** X19. When the page calls a returned function only while it is the
    one [disconnectFn] holds, at most one observer is connected at any
    time. When it calls an older one instead, [disconnectFn] is reset while
    the current observer stays connected, and the next [observe] leaves two
    observers connected. *)
Theorem one_observer_unless_stale_handle :
  (∀ wd mo es w,
     wrun es (watch0 wd mo) = Some w → disciplined es (watch0 wd mo) →
     (length (connected w) ≤ 1)%nat
     ∧ ∀ k ob, observers w !! k = Some ob → ob_connected ob = true →
               disconnectFn w = Some k)
  ∧ (∀ w k1 k2 ob2 opts,
       hasMutationObserver w = true → disconnectFn w = Some k2 →
       observers w !! k2 = Some ob2 → ob_connected ob2 = true →
       k1 ≠ k2 → (k1 < length (observers w))%nat →
       (2 ≤ length (connected (observe opts (disconnect k1 w)).2))%nat).
Proof.
  split.
  - intros wd mo es w Hr Hd.
    assert (single_observer w) as Hs.
    { assert (single_observer (watch0 wd mo)) as H0.
      { intros k ob Hk. unfold watch0 in Hk. cbn [observers] in Hk.
        by rewrite lookup_nil in Hk. }
      revert Hr Hd H0. generalize (watch0 wd mo). clear.
      induction es as [|e es IH]; intros w0 Hr Hd H0; simpl in Hr; [by simplify_eq|].
      destruct Hd as [Hc Hd].
      destruct (wstep e w0) as [w1|] eqn:He; [|done]. simpl in Hr.
      apply (IH w1); [done | done | by eapply single_observer_step]. }
    split; [|exact Hs]. apply filter_le_1.
    intros k1 k2 o1 o2 H1 H2 C1 C2.
    pose proof (Hs _ _ H1 C1). pose proof (Hs _ _ H2 C2). congruence.
  - intros w k1 k2 ob2 opts Hmo Hd Ek2 Hc2 Hne Hlt.
    destruct (lookup_lt_is_Some_2 _ _ Hlt) as [ob1 Ek1].
    unfold observe, disconnect, connected. rewrite Ek1.
    cbn [hasMutationObserver disconnectFn observers snd]. rewrite Hmo.
    cbn [observers snd]. rewrite filter_app, length_app.
    rewrite filter_cons, decide_True by done. cbn [length filter].
    assert (ob2 ∈ filter (λ ob, ob_connected ob = true)
                  (<[k1:=mkObserver (ob_ms ob1) (ob_timer ob1) false]> (observers w))) as Hin.
    { apply list_elem_of_filter. split; [done|].
      apply (list_elem_of_lookup_2 _ k2). by rewrite list_lookup_insert_ne. }
    destruct (filter _ (<[k1:=_]> (observers w))) as [|x l];
      [by apply elem_of_nil in Hin|]. simpl. lia.
Qed.

Lemma one_observer_unless_stale_handle_witness :
  (length (connected (watch_after page_ab burst)) ≤ 1)%nat
  ∧ (2 ≤ length (connected (observe None (disconnect 0 (watch_after page_ab observed_twice))).2))%nat.
Proof.
  destruct one_observer_unless_stale_handle as [H1 H2].
  assert (wrun burst (watch0 page_ab true) = Some (watch_after page_ab burst)) as Hr
    by (vm_compute; reflexivity).
  assert (disciplined burst (watch0 page_ab true)) as Hd by (vm_compute; tauto).
  assert (observers (watch_after page_ab observed_twice) !! 1%nat
          = Some (mkObserver 200 None true)) as Hk by (vm_compute; reflexivity).
  assert (hasMutationObserver (watch_after page_ab observed_twice) = true) as Hm
    by (vm_compute; reflexivity).
  assert (disconnectFn (watch_after page_ab observed_twice) = Some 1%nat) as Hf
    by (vm_compute; reflexivity).
  assert (0 < length (observers (watch_after page_ab observed_twice)))%nat as Hl
    by (vm_compute; lia).
  split.
  - exact (proj1 (H1 page_ab true burst _ Hr Hd)).
  - exact (H2 _ 0%nat 1%nat _ None Hm Hf Hk eq_refl ltac:(lia) Hl).
Defined.

(** ** Links that settle *)

Lemma swapActive_created el s : created (swapActive el s) = created s.
Proof.
  unfold swapActive. cbv zeta.
  destruct (active s) as [a|]; [destruct (attached a s)|];
    (destruct (optimisticEl _); [destruct (_ && _)|]); st; same.
Qed.

Ltac layer p h s ::=
  lazymatch p with
  | created =>
      lazymatch h with
      | swapActive ?el => constr:(swapActive_created el s)
      | _ => frame_eq p h s
      end
  | docHead => frame_eq p h s
  | timerArmed => frame_eq p h s
  | uncloaked => frame_eq p h s
  | optimisticEl => frame_eq p h s
  | optimisticLoaded => frame_eq p h s
  | active => frame_eq p h s
  | sessionStorage => frame_eq p h s
  | localStorage => frame_eq p h s
  | _ => core_eq p h s
  end.

Lemma grown_refl s : grown s s.
Proof. exists []. split; [by rewrite app_nil_r | apply Forall_nil_2]. Qed.

Lemma grown_same s s' : created s' = created s → grown s s'.
Proof. intros E. exists []. split; [by rewrite app_nil_r | apply Forall_nil_2]. Qed.

Lemma grown_trans s1 s2 s3 : grown s1 s2 → grown s2 s3 → grown s1 s3.
Proof.
  intros (l1 & E1 & F1) (l2 & E2 & F2). exists (l1 ++ l2).
  split; [by rewrite E2, E1, app_assoc | by apply Forall_app].
Qed.

Lemma uncloaking_link url s : uncloaking (fresh_node (InjectedLink url (Some CbUncloak)) s).
Proof. intros u cb [= _ <-]. done. Qed.

Lemma uncloaking_style text s : uncloaking (fresh_node (InjectedStyle text) s).
Proof. intros u cb H. discriminate H. Qed.

Lemma uncloaking_prefetch url s : uncloaking (fresh_node (PrefetchLink url) s).
Proof. intros u cb H. discriminate H. Qed.

(** Close a goal [grown s (f s)] once [f] is unfolded to the helpers. *)
Ltac grown_fin :=
  unfold grown; st;
  first
    [ exists []; split; [rewrite app_nil_r; same | apply Forall_nil_2]
    | eexists; split;
      [ rewrite <- ?app_assoc; reflexivity
      | repeat first [ apply Forall_nil_2
                     | apply Forall_cons_2;
                       [ first [ apply uncloaking_link | apply uncloaking_style
                               | apply uncloaking_prefetch ] | ] ] ] ].

Lemma grown_load sorted s : grown s (load sorted s).
Proof.
  unfold load, doLoad, getVersion, fetchVersion, computeHash_start.
  split_state; grown_fin.
Qed.

Lemma grown_doLoad_hashed id sorted s : grown s (doLoad_hashed id sorted s).
Proof.
  unfold doLoad_hashed, injectLink. cbv zeta. split_state; grown_fin.
Qed.

Lemma grown_doLoad_compiled d s : grown s (doLoad_compiled d s).
Proof.
  unfold doLoad_compiled, injectLink, injectStyle, runCb. cbv zeta.
  split_state; grown_fin.
Qed.

Lemma grown_load_fulfilled s : grown s (load_fulfilled s).
Proof.
  unfold load_fulfilled. cbv zeta. destruct (needsRescan _); [|grown_fin].
  apply (grown_trans _ (set_needsRescan false (set_loading false s)));
    [grown_fin | apply grown_load].
Qed.

Lemma step_grown e s s' : step e s = Some s' → grown s s'.
Proof.
  intros Hs. destruct e; unfold step, take_task in Hs.
  - simplify_eq. apply grown_load.
  - simplify_eq. unfold preload. destruct classes; grown_fin.
  - simplify_eq. grown_fin.
  - simplify_eq. grown_fin.
  - destruct (timerArmed s); simplify_eq. grown_fin.
  - destruct (awaiting n s); [|done]. cbv zeta in Hs.
    destruct (kind n) as [| |? [[]|]| |]; simplify_eq;
      unfold optimistic_onload, runCb; split_state; grown_fin.
  - destruct (awaiting n s); [|done]. cbv zeta in Hs.
    destruct (kind n) as [| |? [[]|]| |]; simplify_eq;
      unfold optimistic_onerror, runCb; cbv zeta; grown_fin.
  - destruct (tasks s !! i) as [t|]; simpl in Hs; [|done].
    destruct t; try done.
    destruct r; simplify_eq;
      unfold fetchVersion_then, fetchVersion_catch, computeHash_start; grown_fin.
  - destruct (tasks s !! i) as [t|]; simpl in Hs; [|done].
    destruct t; try done.
    destruct ok; simplify_eq; [|grown_fin].
    eapply grown_trans; [|apply grown_doLoad_hashed]. grown_fin.
  - destruct (tasks s !! i) as [t|]; simpl in Hs; [|done].
    destruct t; try done.
    + destruct r; simplify_eq; [|grown_fin].
      eapply grown_trans; [|apply grown_doLoad_compiled]. grown_fin.
    + destruct r; simplify_eq; unfold preload_then, preload_catch; grown_fin.
  - destruct (tasks s !! i) as [t|]; simpl in Hs; [|done].
    destruct t; try done.
    destruct ok; simplify_eq.
    + eapply grown_trans; [|apply grown_load_fulfilled]. grown_fin.
    + unfold load_rejected. cbv zeta. grown_fin.
Qed.

Lemma boot_uncloaking w : Forall uncloaking (created (boot w)).
Proof.
  unfold boot. cbv zeta. destruct (truthy _); st; cbn [blank created app];
    repeat (apply Forall_cons_2; [intros u cb H; discriminate H|]); apply Forall_nil_2.
Qed.

Lemma reachable_uncloaking w s : reachable w s → Forall uncloaking (created s).
Proof.
  induction 1 as [|s e s' _ IH Hs]; [apply boot_uncloaking|].
  destruct (step_grown _ _ _ Hs) as (l & -> & Hl). by apply Forall_app.
Qed.

(** X20. Every stylesheet link the script injects reveals the page when
    it settles, whether it loads or fails: the gate does not stay closed
    on a stylesheet that cannot be fetched. *)
Theorem injected_link_reveals w es s n url cb :
  run es (boot w) = Some s →
  n ∈ created s → kind n = InjectedLink url cb → settled s !! nid n = None →
  (∃ s1, step (EvLinkLoad n) s = Some s1 ∧ uncloaked s1 = true)
  ∧ (∃ s2, step (EvLinkError n) s = Some s2 ∧ uncloaked s2 = true).
Proof.
  intros Hr Hn Hk Hs.
  pose proof (reachable_uncloaking w s (run_boot_reachable w es s Hr)) as Hall.
  rewrite Forall_forall in Hall. specialize (Hall n Hn url cb Hk). subst cb.
  assert (awaiting n s = true) as Ha.
  { unfold awaiting. by rewrite !bool_decide_eq_true_2. }
  split; eexists; (split; [unfold step; rewrite Ha; cbv zeta; rewrite Hk; reflexivity|]);
    cbn [runCb]; apply uncloaked_uncloak.
Qed.

Lemma injected_link_reveals_witness :
  (∃ s1, step (EvLinkLoad known_link) (state_after page_known known_visit) = Some s1
         ∧ uncloaked s1 = true)
  ∧ (∃ s2, step (EvLinkError known_link) (state_after page_known known_visit) = Some s2
           ∧ uncloaked s2 = true).
Proof.
  assert (run known_visit (boot page_known) = Some (state_after page_known known_visit))
    as H1 by (vm_compute; reflexivity).
  assert (known_link ∈ created (state_after page_known known_visit)) as H2.
  { vm_compute. apply list_elem_of_further, list_elem_of_here. }
  assert (kind known_link
          = InjectedLink (lit "https://weft.test/css/b_3fcf458c6bdf10fa") (Some CbUncloak))
    as H3 by reflexivity.
  assert (settled (state_after page_known known_visit) !! nid known_link = None) as H4
    by (vm_compute; reflexivity).
  exact (injected_link_reveals page_known known_visit _ _ _ _ H1 H2 H3 H4).
Defined.

(** X21. When the speculative link fails, the guess is dropped: the link
    is no longer tracked, the session hint of the page is removed, the
    durable hints, the gate, the document and the resolution in flight are
    untouched; and whatever bundle id a resolution computes afterwards, it
    does not promote the failed link: the active stylesheet stays or is a
    new link. *)
Theorem speculative_failure_drops_guess s o h :
  kind o = OptimisticLink h → awaiting o s = true →
  ∃ s', step (EvLinkError o) s = Some s'
        ∧ optimisticEl s' = None ∧ optimisticLoaded s' = false
        ∧ (is_Some (sessionStorage s) → ssGet (pageKey s) s' = None)
        ∧ localStorage s' = localStorage s
        ∧ uncloaked s' = uncloaked s ∧ docHead s' = docHead s
        ∧ active s' = active s ∧ currentId s' = currentId s ∧ tasks s' = tasks s
        ∧ ∀ id sorted,
            active (doLoad_hashed id sorted s') = active s
            ∨ ∃ url, active (doLoad_hashed id sorted s')
                     = Some (fresh_node (InjectedLink url (Some CbUncloak)) s).
Proof.
  intros Hk Ha. eexists.
  split; [unfold step; rewrite Ha; cbv zeta; rewrite Hk; reflexivity|].
  unfold optimistic_onerror. cbv zeta. st.
  assert (localStorage (ssDel (pageKey s)
            (set_optimisticLoaded false
               (set_optimisticEl None
                  (emit (OErrored o) (set_settled (<[nid o:=false]> (settled s)) s)))))
          = localStorage s) as El.
  { unfold ssDel. destruct (sessionStorage _); st; same. }
  repeat apply conj; try done.
  - intros [m Hm]. unfold ssGet, ssDel. st. rewrite Hm. st. simpl.
    by rewrite lookup_delete_eq.
  - intros id sorted. unfold doLoad_hashed. st.
    rewrite (bool_decide_eq_false_2 (is_Some None)) by (intros [? ?]; done).
    rewrite andb_false_r.
    destruct (bool_decide (Some id = currentId s)); [left; st; same|].
    destruct (bool_decide _); [|left; st; same].
    right. cbv zeta. st. unfold injectLink. cbv zeta. rewrite swapActive_active.
    eexists. unfold fresh_node. st. reflexivity.
Qed.

Lemma speculative_failure_drops_guess_witness :
  ∃ s', step (EvLinkError speculative_link) (boot page_return) = Some s'
        ∧ optimisticEl s' = None
        ∧ ssGet (pageKey (boot page_return)) s' = None.
Proof.
  assert (kind speculative_link
          = OptimisticLink (lit "https://weft.test/css/b_3fcf458c6bdf10fa")) as H1
    by reflexivity.
  assert (awaiting speculative_link (boot page_return) = true) as H2
    by (vm_compute; reflexivity).
  assert (is_Some (sessionStorage (boot page_return))) as H3 by (vm_compute; by eexists).
  destruct (speculative_failure_drops_guess _ _ _ H1 H2) as (s' & Hs & Ho & _ & Hg & _).
  exists s'. split; [exact Hs|]. split; [exact Ho | exact (Hg H3)].
Defined.
